(** * PowerfulSeal: inventory reader, remote executor, policy runner

    A shallow embedding of three Python modules of PowerfulSeal,

    - [powerfulseal/node/inventory.py]            ([Module Inventory]),
    - [powerfulseal/execute/remote_executor.py]   ([Module RemoteExecutor]),
    - [powerfulseal/policy/policy_runner.py]      ([Module PolicyRunner]),

    together with the statements proved about them.

    Conventions.  A Python call that may raise is a computation in the
    [outcome] monad; [dict]s with string keys that are only looked up are
    [gmap string _]; text is a [string] whose characters are code points
    below 256; Python [int]s are [Z]; the numbers of a document are
    rationals [Q], and a finite [float] is the rational that it is.  The
    arithmetic of floats is not modelled: [random.uniform] is a call to
    the outside, as are the calls to the collaborators of [run]. *)

From Stdlib Require Import ZArith QArith Qround String Ascii List Bool Lia Lqa.
From stdpp Require Import base option list gmap strings fin_maps.

Local Close Scope Q_scope.
Local Open Scope string_scope.
Local Open Scope list_scope.

(** ** Python values shared by the three modules *)

Module Py.

(** The exceptions that the modelled code can raise. *)
Inductive exn : Type :=
| KeyError (key : string)
| ValueError (msg : string)
| TypeError (msg : string)
| AttributeError (msg : string)
| ConfigParserError (msg : string)
| ValidationError (msg : string)
| RemoteError (msg : string)
| OverflowError (msg : string)
| OSError (msg : string).

(** [str(e)] *)
Definition str (e : exn) : string :=
  match e with
  | KeyError k => k
  | ValueError m | TypeError m | AttributeError m
  | ConfigParserError m | ValidationError m | RemoteError m
  | OverflowError m | OSError m => m
  end.

(** A call either returns a value or raises. *)
Inductive outcome (A : Type) : Type :=
| Returns (a : A)
| Raises (e : exn).
Arguments Returns {A} a.
Arguments Raises {A} e.

Definition bind {A B : Type} (c : outcome A) (k : A -> outcome B) : outcome B :=
  match c with
  | Returns a => k a
  | Raises e => Raises e
  end.

(** [try: body except Exception as e: handler(e)] *)
Definition try_except {A : Type} (body : outcome A) (handler : exn -> outcome A)
  : outcome A :=
  match body with
  | Returns a => Returns a
  | Raises e => handler e
  end.

Definition returns {A : Type} (c : outcome A) : bool :=
  match c with
  | Returns _ => true
  | Raises _ => false
  end.

(** *** [str] methods *)

(** [c.isspace()] for a code point below 256. *)
Definition isspace (c : ascii) : bool :=
  let n := nat_of_ascii c in
  ((9 <=? n) && (n <=? 13) || (28 <=? n) && (n <=? 32)
   || (n =? 133) || (n =? 160))%nat.

Definition is_empty (s : string) : bool :=
  match s with
  | EmptyString => true
  | String _ _ => false
  end.

(** [s.rstrip()] and [s.rstrip(chars)]: drop the longest suffix of
    characters satisfying [p]. *)
Fixpoint rstrip_with (p : ascii -> bool) (s : string) : string :=
  match s with
  | EmptyString => EmptyString
  | String c r =>
      let r' := rstrip_with p r in
      if is_empty r' && p c then EmptyString else String c r'
  end.

(** [s.lstrip(chars)] *)
Fixpoint lstrip_with (p : ascii -> bool) (s : string) : string :=
  match s with
  | EmptyString => EmptyString
  | String c r => if p c then lstrip_with p r else s
  end.

Definition rstrip (s : string) : string := rstrip_with isspace s.
Definition rstrip_char (c : ascii) (s : string) : string :=
  rstrip_with (Ascii.eqb c) s.
Definition lstrip_char (c : ascii) (s : string) : string :=
  lstrip_with (Ascii.eqb c) s.

(** [s.startswith(c)] and [s.endswith(c)] for a one-character [c]. *)
Definition startswith (c : ascii) (s : string) : bool :=
  match s with
  | EmptyString => false
  | String d _ => Ascii.eqb d c
  end.

Fixpoint endswith (c : ascii) (s : string) : bool :=
  match s with
  | EmptyString => false
  | String d EmptyString => Ascii.eqb d c
  | String _ r => endswith c r
  end.

(** [s.split(sep)] for a one-character separator: never empty. *)
Fixpoint split (sep : ascii) (s : string) : list string :=
  match s with
  | EmptyString => [EmptyString]
  | String c r =>
      if Ascii.eqb c sep then EmptyString :: split sep r
      else match split sep r with
           | p :: ps => String c p :: ps
           | [] => [String c EmptyString]
           end
  end.

(** [f.readlines()]: the lines of a text, each with its line feed. *)
Fixpoint readlines (s : string) : list string :=
  match s with
  | EmptyString => []
  | String c r =>
      if Ascii.eqb c "010"%char then String c EmptyString :: readlines r
      else match readlines r with
           | l :: ls => String c l :: ls
           | [] => [String c EmptyString]
           end
  end.

(** Occurrences of a character. *)
Fixpoint count_char (c : ascii) (s : string) : nat :=
  match s with
  | EmptyString => 0
  | String d r => (if Ascii.eqb d c then 1 else 0) + count_char c r
  end.

End Py.

Import Py.

Global Instance outcome_ret : MRet outcome := @Returns.
Global Instance outcome_bind : MBind outcome := fun A B k c => Py.bind c k.

(** ** [powerfulseal/node/inventory.py] *)

Module Inventory.

Section Reader.

(** [configparser.ConfigParser(allow_no_value=True, delimiters=" ").read]
    applied to the text of the file.  The parsed configuration is never
    consulted by [read_inventory_file_to_dict]; what the caller can
    observe is whether the parse raises. *)
Variable config_read : string -> outcome unit.

(** The loop variables [section_name] and [_groups]. *)
Record loop_state : Type := LoopState {
  section_name : string;
  _groups : gmap string (list (gmap string string))
}.

Definition is_header (line : string) : bool :=
  startswith "[" line && endswith "]" line.

(** [for piece in pieces[1:]: ... k, v = piece.split("="); data[k] = v] *)
Fixpoint read_pieces (pieces : list string) (data : gmap string string)
  : outcome (gmap string string) :=
  match pieces with
  | [] => Returns data
  | piece :: rest =>
      if String.eqb piece " " then read_pieces rest data
      else match split "=" piece with
           | [k; v] => read_pieces rest (<[k := v]> data)
           | _ => Raises (ValueError "wrong number of values to unpack")
           end
  end.

(** The record built from a line that is neither a header nor blank. *)
Definition read_record (line : string) : outcome (gmap string string) :=
  let pieces := split " " line in
  read_pieces (tail pieces) {[ "addr" := hd EmptyString pieces ]}.

(** One iteration of [for line in lines]. *)
Definition read_line (st : loop_state) (line : string) : outcome loop_state :=
  let line := rstrip line in
  if is_header line then
    let name := rstrip_char "]" (lstrip_char "[" line) in
    Returns (LoopState name (<[name := []]> (_groups st)))
  else if (String.length line =? 0)%nat then Returns st
  else
    data ← read_record line;
    match _groups st !! section_name st with
    | Some records =>
        Returns (LoopState (section_name st)
                   (<[section_name st := records ++ [data]]> (_groups st)))
    | None => Raises (KeyError (section_name st))
    end.

Fixpoint read_lines (lines : list string) (st : loop_state)
  : outcome loop_state :=
  match lines with
  | [] => Returns st
  | line :: rest => st' ← read_line st line; read_lines rest st'
  end.

Definition initial_state : loop_state := LoopState EmptyString ∅.

Definition read_inventory_file_to_dict (text : string)
  : outcome (gmap string (list (gmap string string))) :=
  _ ← config_read text;
  st ← read_lines (readlines text) initial_state;
  Returns (_groups st).

End Reader.

(** *** The format of an inventory file, as the reader assumes it *)

(** The name announced by a header line, if the line is one. *)
Definition header_name (line : string) : option string :=
  let line := rstrip line in
  if is_header line then Some (rstrip_char "]" (lstrip_char "[" line))
  else None.

(** A line that is neither a header nor blank describes a record. *)
Definition is_record_line (line : string) : bool :=
  negb (is_header (rstrip line)) && negb (is_empty (rstrip line)).

(** The tokens of a line: its first token is the address. *)
Definition tokens (line : string) : list string := split " " (rstrip line).

(** Every record line comes after some header, and every token after the
    first token of a record line contains exactly one equals sign. *)
Definition well_formed (lines : list string) : Prop :=
  forall (i : nat) (line : string),
    lines !! i = Some line -> is_record_line line = true ->
    (exists (j : nat) (h : string),
        (j < i)%nat /\ lines !! j = Some h /\ is_header (rstrip h) = true)
    /\ Forall (fun t => count_char "=" t = 1%nat) (tail (tokens line)).

(** The record lines listed under a header: the non-blank lines up to the
    next header, without their trailing white space. *)
Fixpoint listed_under (lines : list string) : list string :=
  match lines with
  | [] => []
  | line :: rest =>
      if is_header (rstrip line) then []
      else if is_empty (rstrip line) then listed_under rest
      else rstrip line :: listed_under rest
  end.

(** The text of a file given by its lines. *)
Fixpoint unlines (lines : list string) : string :=
  match lines with
  | [] => EmptyString
  | line :: rest => line ++ String "010"%char (unlines rest)
  end.

(** The current section has an entry in [_groups]. *)
Definition known (st : loop_state) : Prop :=
  is_Some (_groups st !! section_name st).

Definition admissible (known_at_start : Prop) (lines : list string) : Prop :=
  forall (i : nat) (line : string),
    lines !! i = Some line -> is_record_line line = true ->
    (known_at_start \/
     exists (j : nat) (h : string),
       (j < i)%nat /\ lines !! j = Some h /\ is_header (rstrip h) = true)
    /\ Forall (fun t => count_char "=" t = 1%nat) (tail (tokens line)).

(** The value that a list of tokens gives to a key: that of the last token
    [key=value] for the key. *)
Fixpoint attribute (key : string) (tokens : list string) : option string :=
  match tokens with
  | [] => None
  | t :: rest =>
      match attribute key rest with
      | Some v => Some v
      | None =>
          match split "=" t with
          | [k; v] => if String.eqb k key then Some v else None
          | _ => None
          end
      end
  end.

(** A text of white space only. *)
Fixpoint is_blank (s : string) : bool :=
  match s with
  | EmptyString => true
  | String c r => isspace c && is_blank r
  end.

End Inventory.

(** ** [powerfulseal/execute/remote_executor.py] *)

Module RemoteExecutor.

(** A target node, as far as [execute] reads it. *)
Record Node : Type := {
  name : string;
  ip : string;
  sshuser : string;
  sshpass : option string
}.

(** [spur.ssh.MissingHostKey] *)
Inductive MissingHostKey : Type := accept | raise_error.

(** The attributes set by [__init__]. *)
Record t : Type := {
  nodes : list Node;
  user : string;
  missing_host_key : MissingHostKey;
  ssh_path_to_private_key : option string
}.

(** [x or y] on an optional list: [None] and the empty list are falsy. *)
Definition py_or (x : option (list Node)) (y : list Node) : list Node :=
  match x with
  | Some (n :: ns) => n :: ns
  | Some [] | None => y
  end.

Definition __init__ (nodes : option (list Node)) (user : string)
    (ssh_allow_missing_host_keys : bool)
    (ssh_path_to_private_key : option string) : t :=
  {| nodes := py_or nodes [];
     user := user;
     missing_host_key :=
       if ssh_allow_missing_host_keys then accept else raise_error;
     ssh_path_to_private_key := ssh_path_to_private_key |}.

Definition PREFIX : list string := ["sh"; "-c"].

(** The keyword arguments of [spur.SshShell]. *)
Inductive credential : Type :=
| private_key_file (path : option string)
| password (pass : string).

Record params : Type := {
  hostname : string;
  username : string;
  host_key_policy : MissingHostKey;
  auth : credential
}.

(** What [shell.run] returns. *)
Record output : Type := {
  return_code : Z;
  stdout_bytes : list Byte.byte;
  stderr_bytes : list Byte.byte
}.

(** The two shapes of a value of the result dictionary. *)
Inductive ExecutionResult : Type :=
| Completed (ret_code : Z) (stdout stderr : string)
| Failed (ret_code : Z) (error : string).

(** A remote session that [execute] opened: its arguments and how the
    [with shell: shell.run(cmd_full)] block ended. *)
Record session : Type := {
  session_params : params;
  session_cmd : list string;
  session_end : outcome output
}.

Section Execute.

(** The state of the remote machines and of the network. *)
Variable World : Type.

(** [with shell: shell.run(cmd_full)] for a shell built from the given
    arguments: opens the connection, runs the command, closes the
    connection; it raises (an [Exception]) when connecting or running
    fails.  What comes before the [try] statement, building the shell
    object and printing the line that announces the command, is taken to
    return. *)
Variable shell_run : params -> list string -> World -> outcome output * World.

(** [bytes.decode()] *)
Variable decode : list Byte.byte -> outcome string.

Definition shell_params (self : t) (node : Node) : params :=
  {| hostname := ip node;
     username := sshuser node;
     host_key_policy := missing_host_key self;
     auth := match sshpass node with
             | None => private_key_file (ssh_path_to_private_key self)
             | Some p => password p
             end |}.

(** The body of the [try] statement once the session has ended. *)
Definition collect (ended : outcome output) : outcome ExecutionResult :=
  try_except
    (out ← ended;
     so ← decode (stdout_bytes out);
     se ← decode (stderr_bytes out);
     mret (Completed (return_code out) so se))
    (fun e => mret (Failed 1 (str e))).

(** The local variables of [execute] together with the world and the
    sessions opened so far. *)
Record frame : Type := Frame {
  results : gmap string ExecutionResult;
  sessions : list session;
  world : World
}.

(** [for node in nodes: ...] *)
Fixpoint execute_nodes (self : t) (cmd_full : list string)
    (targets : list Node) (fr : frame) : outcome frame :=
  match targets with
  | [] => mret fr
  | node :: rest =>
      let p := shell_params self node in
      let '(ended, w) := shell_run p cmd_full (world fr) in
      entry ← collect ended;
      execute_nodes self cmd_full rest
        (Frame (<[ip node := entry]> (results fr))
               (sessions fr ++ [Build_session p cmd_full ended]) w)
  end.

Definition execute (self : t) (cmd : string) (nodes_arg : option (list Node))
    (w : World) : outcome frame :=
  let targets := py_or nodes_arg (nodes self) in
  let cmd_full := PREFIX ++ [cmd] in
  execute_nodes self cmd_full targets (Frame ∅ [] w).

(** The sessions were opened one after the other, each in the world the
    previous one left. *)
Inductive chained : World -> list session -> World -> Prop :=
| chained_nil (w : World) : chained w [] w
| chained_cons (w w1 w' : World) (p : params) (cmd : list string)
    (ended : outcome output) (rest : list session) :
    shell_run p cmd w = (ended, w1) ->
    chained w1 rest w' ->
    chained w ({| session_params := p; session_cmd := cmd;
                  session_end := ended |} :: rest) w'.

(** The entry that a session leaves in the result dictionary. *)
Definition entry_of (s : session) : ExecutionResult :=
  match session_end s with
  | Raises e => Failed 1 (str e)
  | Returns out =>
      match decode (stdout_bytes out) with
      | Raises e => Failed 1 (str e)
      | Returns so =>
          match decode (stderr_bytes out) with
          | Raises e => Failed 1 (str e)
          | Returns se => Completed (return_code out) so se
          end
      end
  end.

Definition record_entry (m : gmap string ExecutionResult) (s : session)
  : gmap string ExecutionResult :=
  <[hostname (session_params s) := entry_of s]> m.

End Execute.

End RemoteExecutor.

(** ** [powerfulseal/policy/policy_runner.py] *)

Module PolicyRunner.

(** *** Documents

    What [yaml.load] returns and what the schema literal is made of.  An
    object is the list of its items in order; a key is looked up at its
    first occurrence (the keys of a Python [dict] are distinct). *)
#[warnings="-register-all"] Inductive json : Type :=
| JNull
| JBool (b : bool)
| JNum (q : Q)
| JStr (s : string)
| JArr (items : list json)
| JObj (fields : list (string * json)).

Fixpoint get (key : string) (fields : list (string * json)) : option json :=
  match fields with
  | [] => None
  | (k, v) :: rest => if String.eqb k key then Some v else get key rest
  end.

Definition has_key (key : string) (fields : list (string * json)) : bool :=
  match get key fields with
  | Some _ => true
  | None => false
  end.

(** *** [jsonschema.validate], for the keywords of the schema

    The keywords that [get_schema] uses ([type], [enum], [required],
    [properties], [additionalProperties], [items], [oneOf], [$ref]) with
    their meaning in Draft 4, the default of the library at the time: an
    instance is valid when no keyword objects; a keyword for objects or
    for arrays passes on an instance of another type; a schema with a
    reference is the schema referred to (the keywords beside a reference
    in [get_schema] repeat the type of its target).  [None] stands for a
    schema outside the modelled fragment (another keyword, another form of
    a keyword, a dangling reference) and for exhausted fuel. *)

Definition defined {A : Type} (o : option A) : bool :=
  match o with
  | Some _ => true
  | None => false
  end.

Definition oand (a b : option bool) : option bool :=
  match a, b with
  | Some x, Some y => Some (x && y)
  | _, _ => None
  end.

Fixpoint oall {A : Type} (f : A -> option bool) (l : list A) : option bool :=
  match l with
  | [] => Some true
  | x :: r => oand (f x) (oall f r)
  end.

Fixpoint ocount {A : Type} (f : A -> option bool) (l : list A) : option nat :=
  match l with
  | [] => Some 0%nat
  | x :: r =>
      match f x, ocount f r with
      | Some b, Some n => Some ((if b then 1 else 0) + n)%nat
      | _, _ => None
      end
  end.

Definition keywords : list string :=
  ["title"; "definitions"; "type"; "enum"; "required";
   "additionalProperties"; "properties"; "items"; "oneOf"].

Definition known_keywords (kw : list (string * json)) : option bool :=
  if forallb (fun k => existsb (String.eqb k) keywords) (map fst kw)
  then Some true else None.

(** [validator.is_type(instance, name)] *)
Definition is_type (name : string) (instance : json) : option bool :=
  if String.eqb name "object" then
    Some match instance with JObj _ => true | _ => false end
  else if String.eqb name "array" then
    Some match instance with JArr _ => true | _ => false end
  else if String.eqb name "string" then
    Some match instance with JStr _ => true | _ => false end
  else if String.eqb name "number" then
    Some match instance with JNum _ => true | _ => false end
  else if String.eqb name "boolean" then
    Some match instance with JBool _ => true | _ => false end
  else if String.eqb name "null" then
    Some match instance with JNull => true | _ => false end
  else None.

Fixpoint oany {A : Type} (f : A -> option bool) (l : list A) : option bool :=
  match l with
  | [] => Some false
  | x :: r =>
      match f x, oany f r with
      | Some a, Some b => Some (a || b)
      | _, _ => None
      end
  end.

Definition check_type (kw : list (string * json)) (instance : json)
  : option bool :=
  match get "type" kw with
  | None => Some true
  | Some (JStr s) => is_type s instance
  | Some (JArr ts) =>
      oany (fun t => match t with
                     | JStr s => is_type s instance
                     | _ => None
                     end) ts
  | Some _ => None
  end.

Definition check_enum (kw : list (string * json)) (instance : json)
  : option bool :=
  match get "enum" kw with
  | None => Some true
  | Some (JArr vs) =>
      if forallb (fun v => match v with JStr _ => true | _ => false end) vs
      then Some match instance with
                | JStr s =>
                    existsb (fun v => match v with
                                      | JStr e => String.eqb e s
                                      | _ => false
                                      end) vs
                | _ => false
                end
      else None
  | Some _ => None
  end.

Definition check_required (kw : list (string * json)) (instance : json)
  : option bool :=
  match get "required" kw with
  | None => Some true
  | Some (JArr names) =>
      if forallb (fun v => match v with JStr _ => true | _ => false end) names
      then Some match instance with
                | JObj fields =>
                    forallb (fun v => match v with
                                      | JStr k => has_key k fields
                                      | _ => false
                                      end) names
                | _ => true
                end
      else None
  | Some _ => None
  end.

Definition schema_properties (kw : list (string * json))
  : option (list (string * json)) :=
  match get "properties" kw with
  | None => Some []
  | Some (JObj props) => Some props
  | Some _ => None
  end.

Definition check_additionalProperties (kw : list (string * json))
    (instance : json) : option bool :=
  match get "additionalProperties" kw with
  | None => Some true
  | Some (JBool allowed) =>
      match schema_properties kw with
      | Some props =>
          Some match instance with
               | JObj fields =>
                   allowed || forallb (fun k => has_key k props) (map fst fields)
               | _ => true
               end
      | None => None
      end
  | Some _ => None
  end.

Section Keywords.

(** The validation of an instance against a subschema. *)
Variable descend : json -> json -> option bool.

Definition check_properties (kw : list (string * json)) (instance : json)
  : option bool :=
  match schema_properties kw with
  | Some props =>
      oall (fun '(property, subschema) =>
              match instance with
              | JObj fields =>
                  match get property fields with
                  | Some v => descend subschema v
                  | None => Some true
                  end
              | _ => Some true
              end) props
  | None => None
  end.

Definition check_items (kw : list (string * json)) (instance : json)
  : option bool :=
  match get "items" kw with
  | None => Some true
  | Some (JObj sub) =>
      match instance with
      | JArr elements => oall (descend (JObj sub)) elements
      | _ => Some true
      end
  | Some _ => None
  end.

Definition check_oneOf (kw : list (string * json)) (instance : json)
  : option bool :=
  match get "oneOf" kw with
  | None => Some true
  | Some (JArr subschemas) =>
      n ← ocount (fun sub => descend sub instance) subschemas;
      Some (n =? 1)%nat
  | Some _ => None
  end.

End Keywords.

(** A reference [#/a/b] into the root schema. *)
Fixpoint walk (path : list string) (j : json) : option json :=
  match path with
  | [] => Some j
  | k :: rest =>
      match j with
      | JObj fields => get k fields ≫= walk rest
      | _ => None
      end
  end.

Definition resolve (root : json) (ref : string) : option json :=
  match split "/" ref with
  | "#" :: path => walk path root
  | _ => None
  end.

Fixpoint is_valid (root : json) (fuel : nat) (schema instance : json)
  : option bool :=
  match fuel with
  | O => None
  | S fuel =>
      match schema with
      | JObj kw =>
          match get "$ref" kw with
          | Some (JStr ref) =>
              target ← resolve root ref;
              is_valid root fuel target instance
          | Some _ => None
          | None =>
              oand (known_keywords kw)
             (oand (check_type kw instance)
             (oand (check_enum kw instance)
             (oand (check_required kw instance)
             (oand (check_additionalProperties kw instance)
             (oand (check_properties (is_valid root fuel) kw instance)
             (oand (check_items (is_valid root fuel) kw instance)
                   (check_oneOf (is_valid root fuel) kw instance)))))))
          end
      | _ => None
      end
  end.

(** The schema stays within the modelled fragment to the given depth. *)
Fixpoint covered (root : json) (fuel : nat) (schema : json) : bool :=
  match fuel with
  | O => false
  | S fuel =>
      match schema with
      | JObj kw =>
          match get "$ref" kw with
          | Some (JStr ref) =>
              match resolve root ref with
              | Some target => covered root fuel target
              | None => false
              end
          | Some _ => false
          | None =>
              defined (known_keywords kw)
              && defined (check_type kw JNull)
              && defined (check_enum kw JNull)
              && defined (check_required kw JNull)
              && defined (check_additionalProperties kw JNull)
              && match schema_properties kw with
                 | Some props => forallb (fun p => covered root fuel (snd p)) props
                 | None => false
                 end
              && match get "items" kw with
                 | None => true
                 | Some (JObj sub) => covered root fuel (JObj sub)
                 | Some _ => false
                 end
              && match get "oneOf" kw with
                 | None => true
                 | Some (JArr subs) => forallb (covered root fuel) subs
                 | Some _ => false
                 end
          end
      | _ => false
      end
  end.

(** *** [PolicyRunner.get_schema] *)

Definition def_config : json :=
  JObj [
    ("type", JStr "object");
    ("additionalProperties", JBool false);
    ("properties", JObj [
        ("minSecondsBetweenRuns", JObj [("type", JStr "number")]);
        ("maxSecondsBetweenRuns", JObj [("type", JStr "number")])]);
    ("required", JArr [JStr "minSecondsBetweenRuns"])].

Definition def_nodeScenario : json :=
  JObj [
    ("type", JStr "object");
    ("additionalProperties", JBool false);
    ("properties", JObj [
        ("name", JObj [("type", JStr "string")]);
        ("description", JObj [("type", JStr "string")]);
        ("match", JObj [
            ("type", JStr "array");
            ("items", JObj [
                ("oneOf", JArr [
                    JObj [
                      ("$ref", JStr "#/definitions/filterPropertyNode")]])])]);
        ("filters", JObj [
            ("type", JStr "array");
            ("items", JObj [
                ("type", JStr "object");
                ("oneOf", JArr [
                    JObj [
                      ("$ref", JStr "#/definitions/filterPropertyNode")];
                    JObj [("$ref", JStr "#/definitions/filterDayTime")];
                    JObj [
                      ("$ref", JStr "#/definitions/filterRandomSample")];
                    JObj [
                      ("$ref", JStr "#/definitions/filterProbability")]])])]);
        ("actions", JObj [
            ("type", JStr "array");
            ("items", JObj [
                ("type", JStr "object");
                ("oneOf", JArr [
                    JObj [("$ref", JStr "#/definitions/actionStartNode")];
                    JObj [("$ref", JStr "#/definitions/actionStopNode")];
                    JObj [
                      ("$ref", JStr "#/definitions/actionExecuteNode")];
                    JObj [("$ref", JStr "#/definitions/actionWait")]])])])]);
    ("required", JArr [JStr "name"; JStr "match"; JStr "filters"; JStr "actions"])].

Definition def_filterRandomSample : json :=
  JObj [
    ("type", JStr "object");
    ("additionalProperties", JBool false);
    ("properties", JObj [
        ("randomSample", JObj [
            ("type", JStr "object");
            ("additionalProperties", JBool false);
            ("properties", JObj [
                ("size", JObj [("type", JStr "number")]);
                ("ratio", JObj [("type", JStr "number")])])])]);
    ("required", JArr [JStr "randomSample"])].

Definition def_filterProbability : json :=
  JObj [
    ("type", JStr "object");
    ("additionalProperties", JBool false);
    ("properties", JObj [
        ("probability", JObj [
            ("type", JStr "object");
            ("additionalProperties", JBool false);
            ("properties", JObj [
                ("probabilityPassAll", JObj [("type", JStr "number")])]);
            ("required", JArr [JStr "probabilityPassAll"])])]);
    ("required", JArr [JStr "probability"])].

Definition def_time : json :=
  JObj [
    ("type", JStr "object");
    ("additionalProperties", JBool false);
    ("properties", JObj [
        ("hour", JObj [("type", JStr "number")]);
        ("minute", JObj [("type", JStr "number")]);
        ("second", JObj [("type", JStr "number")])]);
    ("required", JArr [JStr "hour"; JStr "minute"; JStr "second"])].

Definition def_filterDayTime : json :=
  JObj [
    ("type", JStr "object");
    ("additionalProperties", JBool false);
    ("properties", JObj [
        ("dayTime", JObj [
            ("type", JStr "object");
            ("additionalProperties", JBool false);
            ("properties", JObj [
                ("onlyDays", JObj [
                    ("type", JStr "array");
                    ("items", JObj [
                        ("type", JStr "string");
                        ("enum", JArr [
                            JStr "monday";
                            JStr "tuesday";
                            JStr "wednesday";
                            JStr "thursday";
                            JStr "friday";
                            JStr "saturday";
                            JStr "sunday"])])]);
                ("startTime", JObj [
                    ("type", JStr "object");
                    ("$ref", JStr "#/definitions/time")]);
                ("endTime", JObj [
                    ("type", JStr "object");
                    ("$ref", JStr "#/definitions/time")])]);
            ("required", JArr [JStr "onlyDays"; JStr "startTime"; JStr "endTime"])])]);
    ("required", JArr [JStr "dayTime"])].

Definition def_filterPropertyNode : json :=
  JObj [
    ("type", JStr "object");
    ("additionalProperties", JBool false);
    ("properties", JObj [
        ("property", JObj [
            ("type", JStr "object");
            ("additionalProperties", JBool false);
            ("properties", JObj [
                ("name", JObj [
                    ("type", JStr "string");
                    ("enum", JArr [
                        JStr "name";
                        JStr "ip";
                        JStr "group";
                        JStr "az";
                        JStr "state"])]);
                ("value", JObj [("type", JStr "string")])]);
            ("required", JArr [JStr "name"; JStr "value"])])]);
    ("required", JArr [JStr "property"])].

Definition def_actionStartNode : json :=
  JObj [
    ("type", JStr "object");
    ("additionalProperties", JBool false);
    ("properties", JObj [
        ("start", JObj [
            ("type", JArr [JStr "object"; JStr "null"]);
            ("additionalProperties", JBool false)])]);
    ("required", JArr [JStr "start"])].

Definition def_actionStopNode : json :=
  JObj [
    ("type", JStr "object");
    ("additionalProperties", JBool false);
    ("properties", JObj [
        ("stop", JObj [
            ("type", JStr "object");
            ("additionalProperties", JBool false);
            ("properties", JObj [("force", JObj [("type", JStr "boolean")])])])]);
    ("required", JArr [JStr "stop"])].

Definition def_actionExecuteNode : json :=
  JObj [
    ("type", JStr "object");
    ("additionalProperties", JBool false);
    ("properties", JObj [
        ("execute", JObj [
            ("type", JStr "object");
            ("additionalProperties", JBool false);
            ("properties", JObj [("cmd", JObj [("type", JStr "string")])]);
            ("required", JArr [JStr "cmd"])])]);
    ("required", JArr [JStr "execute"])].

Definition def_actionWait : json :=
  JObj [
    ("type", JStr "object");
    ("additionalProperties", JBool false);
    ("properties", JObj [
        ("wait", JObj [
            ("type", JStr "object");
            ("additionalProperties", JBool false);
            ("properties", JObj [("seconds", JObj [("type", JStr "number")])]);
            ("required", JArr [JStr "seconds"])])]);
    ("required", JArr [JStr "wait"])].

Definition def_podScenario : json :=
  JObj [
    ("type", JStr "object");
    ("additionalProperties", JBool false);
    ("properties", JObj [
        ("name", JObj [("type", JStr "string")]);
        ("description", JObj [("type", JStr "string")]);
        ("match", JObj [
            ("type", JStr "array");
            ("items", JObj [
                ("oneOf", JArr [
                    JObj [
                      ("$ref", JStr "#/definitions/matchPodNamespace")];
                    JObj [
                      ("$ref", JStr "#/definitions/matchPodDeploymentAndNamespace")];
                    JObj [
                      ("$ref", JStr "#/definitions/matchPodLabelsAndNamespace")]])])]);
        ("filters", JObj [
            ("type", JStr "array");
            ("items", JObj [
                ("type", JStr "object");
                ("oneOf", JArr [
                    JObj [
                      ("$ref", JStr "#/definitions/filterPropertyPod")];
                    JObj [("$ref", JStr "#/definitions/filterDayTime")];
                    JObj [
                      ("$ref", JStr "#/definitions/filterRandomSample")];
                    JObj [
                      ("$ref", JStr "#/definitions/filterProbability")]])])]);
        ("actions", JObj [
            ("type", JStr "array");
            ("items", JObj [
                ("type", JStr "object");
                ("oneOf", JArr [
                    JObj [("$ref", JStr "#/definitions/actionKillPod")];
                    JObj [("$ref", JStr "#/definitions/actionWait")]])])])]);
    ("required", JArr [JStr "name"; JStr "match"; JStr "filters"; JStr "actions"])].

Definition def_matchPodNamespace : json :=
  JObj [
    ("type", JStr "object");
    ("additionalProperties", JBool false);
    ("properties", JObj [
        ("namespace", JObj [
            ("type", JStr "object");
            ("additionalProperties", JBool false);
            ("properties", JObj [("name", JObj [("type", JStr "string")])]);
            ("required", JArr [JStr "name"])])]);
    ("required", JArr [JStr "namespace"])].

Definition def_matchPodDeploymentAndNamespace : json :=
  JObj [
    ("type", JStr "object");
    ("additionalProperties", JBool false);
    ("properties", JObj [
        ("deployment", JObj [
            ("type", JStr "object");
            ("additionalProperties", JBool false);
            ("properties", JObj [
                ("name", JObj [("type", JStr "string")]);
                ("namespace", JObj [("type", JStr "string")])]);
            ("required", JArr [JStr "name"; JStr "namespace"])])]);
    ("required", JArr [JStr "deployment"])].

Definition def_matchPodLabelsAndNamespace : json :=
  JObj [
    ("type", JStr "object");
    ("additionalProperties", JBool false);
    ("properties", JObj [
        ("labels", JObj [
            ("type", JStr "object");
            ("additionalProperties", JBool false);
            ("properties", JObj [
                ("selector", JObj [("type", JStr "string")]);
                ("namespace", JObj [("type", JStr "string")])]);
            ("required", JArr [JStr "selector"; JStr "namespace"])])]);
    ("required", JArr [JStr "labels"])].

Definition def_filterPropertyPod : json :=
  JObj [
    ("type", JStr "object");
    ("additionalProperties", JBool false);
    ("properties", JObj [
        ("property", JObj [
            ("type", JStr "object");
            ("additionalProperties", JBool false);
            ("properties", JObj [
                ("name", JObj [
                    ("type", JStr "string");
                    ("enum", JArr [JStr "name"; JStr "state"])]);
                ("value", JObj [("type", JStr "string")])]);
            ("required", JArr [JStr "name"; JStr "value"])])]);
    ("required", JArr [JStr "property"])].

Definition def_actionKillPod : json :=
  JObj [
    ("type", JStr "object");
    ("additionalProperties", JBool false);
    ("properties", JObj [
        ("kill", JObj [
            ("type", JStr "object");
            ("additionalProperties", JBool false);
            ("properties", JObj [
                ("probability", JObj [("type", JStr "number")]);
                ("force", JObj [("type", JStr "boolean")])])])]);
    ("required", JArr [JStr "kill"])].

Definition definitions : json :=
  JObj [
    ("config", def_config);
    ("nodeScenario", def_nodeScenario);
    ("filterRandomSample", def_filterRandomSample);
    ("filterProbability", def_filterProbability);
    ("time", def_time);
    ("filterDayTime", def_filterDayTime);
    ("filterPropertyNode", def_filterPropertyNode);
    ("actionStartNode", def_actionStartNode);
    ("actionStopNode", def_actionStopNode);
    ("actionExecuteNode", def_actionExecuteNode);
    ("actionWait", def_actionWait);
    ("podScenario", def_podScenario);
    ("matchPodNamespace", def_matchPodNamespace);
    ("matchPodDeploymentAndNamespace", def_matchPodDeploymentAndNamespace);
    ("matchPodLabelsAndNamespace", def_matchPodLabelsAndNamespace);
    ("filterPropertyPod", def_filterPropertyPod);
    ("actionKillPod", def_actionKillPod)].

Definition get_schema : json :=
  JObj [
    ("title", JStr "PowerfulSeal config");
    ("type", JStr "object");
    ("properties", JObj [
        ("config", JObj [
            ("type", JStr "object");
            ("$ref", JStr "#/definitions/config")]);
        ("nodeScenarios", JObj [
            ("type", JStr "array");
            ("items", JObj [
                ("type", JStr "object");
                ("$ref", JStr "#/definitions/nodeScenario")])]);
        ("podScenarios", JObj [
            ("type", JStr "array");
            ("items", JObj [
                ("type", JStr "object");
                ("$ref", JStr "#/definitions/podScenario")])])]);
    ("definitions", definitions)].

(** The fuel given to the validation of a policy: the schemas and
    references of [get_schema] nest twelve deep (an hour of a day-time
    filter of a scenario is the deepest instance that is looked at). *)
Definition depth : nat := 16.

(** [jsonschema.validate(policy, get_schema())]: whether it passes. *)
Definition validate (policy : json) : option bool :=
  is_valid get_schema depth get_schema policy.

(** [PolicyRunner.validate_file] called without a schema, on the document
    that [yaml.load] made of the file. *)
Definition validate_file (policy : json) : outcome json :=
  match validate policy with
  | Some true => Returns policy
  | Some false => Raises (ValidationError "the policy does not match the schema")
  | None => Raises (ValidationError "the schema is outside the modelled fragment")
  end.

(** *** What the schema asks for *)

(** The scenarios that a policy lists under a key. *)
Definition scenarios_of (key : string) (policy : json) : list json :=
  match policy with
  | JObj fields =>
      match get key fields with
      | Some (JArr scenarios) => scenarios
      | _ => []
      end
  | _ => []
  end.

(** What the schema asks of a scenario: an object with the four required
    fields and no field besides the five that the schema names. *)
Definition scenario_shape (scenario : json) : Prop :=
  exists fields,
    scenario = JObj fields
    /\ (forall k, In k ["name"; "match"; "filters"; "actions"] ->
                  has_key k fields = true)
    /\ (forall k, In k (map fst fields) ->
                  In k ["name"; "description"; "match"; "filters"; "actions"]).

(** What the schema asks of the [config] object. *)
Definition config_shape (config : json) : Prop :=
  exists fields wait_min,
    config = JObj fields
    /\ get "minSecondsBetweenRuns" fields = Some (JNum wait_min)
    /\ (forall v, get "maxSecondsBetweenRuns" fields = Some v ->
                  exists wait_max, v = JNum wait_max)
    /\ (forall k, In k (map fst fields) ->
                  In k ["minSecondsBetweenRuns"; "maxSecondsBetweenRuns"]).

(** *** [PolicyRunner.run] *)

(** [d.get(key, default)]: only a [dict] has the method. *)
Definition py_get (d : json) (key : string) (dflt : json) : outcome json :=
  match d with
  | JObj fields => Returns (default dflt (get key fields))
  | _ => Raises (AttributeError "object has no attribute get")
  end.

(** [for item in v]: a list yields its elements, a string its characters,
    a [dict] its keys; nothing else is iterable. *)
Definition py_iter (v : json) : outcome (list json) :=
  match v with
  | JArr items => Returns items
  | JStr s =>
      Returns (map (fun c => JStr (String c EmptyString)) (list_ascii_of_string s))
  | JObj fields => Returns (map (fun kv => JStr (fst kv)) fields)
  | _ => Raises (TypeError "object is not iterable")
  end.

(** A value used in arithmetic: [bool] is a subclass of [int]. *)
Definition as_number (v : json) : outcome Q :=
  match v with
  | JNum q => Returns q
  | JBool b => Returns (if b then 1%Q else 0%Q)
  | _ => Raises (TypeError "unsupported operand type")
  end.

(** Modelled from the spec: the classes [NodeScenario] and [PodScenario]
    ([node_scenario.py] and [pod_scenario.py]) are not among the sources.
    A scenario engine is the record of the policy item it was built from
    (the collaborators [inventory], [driver], [k8s_inventory] and
    [executor] passed along are left out); what its [execute()] does is
    left to the outside (see [outside] below). *)
Record NodeScenario : Type := {
  node_scenario_name : json;
  node_scenario_schema : json
}.

Record PodScenario : Type := {
  pod_scenario_name : json;
  pod_scenario_schema : json
}.

(** What [run] has done to the outside, in order: the calls that have
    returned.  A call that raises leaves no event. *)
Inductive event : Type :=
| NodeScenarioExecute (scenario : NodeScenario)
| PodScenarioExecute (scenario : PodScenario)
| TimeSleep (seconds : Z)
| InventorySync.

(** The effects so far and the number of calls to [random.uniform]. *)
Record state : Type := State {
  trace : list event;
  draws : nat
}.

(** A loop that has been given [fuel] iterations has either finished or
    is still running with some rounds left to do. *)
Inductive progress (A : Type) : Type :=
| Done (result : outcome A) (st : state)
| Running (loops : option Z) (st : state).
Arguments Done {A} result st.
Arguments Running {A} loops st.

Definition emit (e : event) (st : state) : state :=
  {| trace := trace st ++ [e]; draws := draws st |}.

(** A Python [float]: a finite one is the rational number that it is. *)
Inductive float : Type :=
| Finite (x : Q)
| Infinite
| NaN.

(** [int(x)] on a finite float: truncation towards zero. *)
Definition int (x : Q) : Z := Z.quot (Qnum x) (Z.pos (Qden x)).

(** [int(x)] on a float. *)
Definition int_of (x : float) : outcome Z :=
  match x with
  | Finite q => Returns (int q)
  | Infinite =>
      Raises (OverflowError "cannot convert float infinity to integer")
  | NaN => Raises (ValueError "cannot convert float NaN to integer")
  end.

(** What [run] calls that is neither among the sources nor a plain
    computation; each of the calls may raise, and [run] has no handler.

    - [uniform a b k]: [random.uniform(a, b)], as the draw number [k].
      The arithmetic of floats is not modelled: the library answers with
      a float (its documentation promises one between [a] and [b]), or
      raises when an argument is too large for a float.
    - [node_execute], [pod_execute]: the [execute()] of a scenario engine.
    - [os_sleep]: the blocking of [time.sleep] once it has accepted the
      duration; the operating system may still refuse it (a deadline that
      its clock cannot hold, for one).
    - [inventory_sync]: [inventory.sync()]. *)
Record outside : Type := {
  uniform : Q -> Q -> nat -> outcome float;
  node_execute : NodeScenario -> state -> outcome unit;
  pod_execute : PodScenario -> state -> outcome unit;
  os_sleep : Z -> state -> outcome unit;
  inventory_sync : state -> outcome unit
}.

(** The greatest number of whole seconds that fits the nanoseconds of the
    64-bit [_PyTime_t] to which [time.sleep] converts its argument. *)
Definition time_t_max : Z := 9223372036.

(** [time.sleep(secs)] for an [int]: the conversion refuses a duration
    beyond the range, then a negative duration is refused, then the
    operating system sleeps. *)
Definition time_sleep (env : outside) (secs : Z) (st : state)
  : outcome unit * state :=
  if ((secs <? - time_t_max) || (time_t_max <? secs))%Z
  then (Raises (OverflowError "timestamp too large to convert to C _PyTime_t"),
        st)
  else if (secs <? 0)%Z
  then (Raises (ValueError "sleep length must be non-negative"), st)
  else match os_sleep env secs st with
       | Returns _ => (Returns tt, emit (TimeSleep secs) st)
       | Raises e => (Raises e, st)
       end.

(** [while loops is None or loops > 0] *)
Definition keep_going (loops : option Z) : bool :=
  match loops with
  | None => true
  | Some n => (0 <? n)%Z
  end.

(** [if loops is not None: loops -= 1] *)
Definition decrement (loops : option Z) : option Z :=
  match loops with
  | None => None
  | Some n => Some (n - 1)%Z
  end.

Section Run.

Variable env : outside.

(** [for scenario in scenarios: scenario.execute()] *)
Fixpoint execute_all {S : Type} (execute : S -> state -> outcome unit)
    (executed : S -> event) (scenarios : list S) (st : state)
  : outcome unit * state :=
  match scenarios with
  | [] => (Returns tt, st)
  | scenario :: rest =>
      match execute scenario st with
      | Returns _ => execute_all execute executed rest
                       (emit (executed scenario) st)
      | Raises e => (Raises e, st)
      end
  end.

(** [int(random.uniform(wait_min, wait_max))], as the draw number [k]. *)
Definition sleep_time (wait_min wait_max : Q) (k : nat) : outcome Z :=
  uniform env wait_min wait_max k ≫= int_of.

(** The body of the [while] loop up to [inventory.sync()]. *)
Definition round (wait_min wait_max : json)
    (node_scenarios : list NodeScenario) (pod_scenarios : list PodScenario)
    (st : state) : outcome unit * state :=
  match execute_all (node_execute env) NodeScenarioExecute node_scenarios st
  with
  | (Raises e, st) => (Raises e, st)
  | (Returns _, st) =>
      match execute_all (pod_execute env) PodScenarioExecute pod_scenarios st
      with
      | (Raises e, st) => (Raises e, st)
      | (Returns _, st) =>
          match as_number wait_min, as_number wait_max with
          | Returns a, Returns b =>
              let drawn := sleep_time a b (draws st) in
              let st := {| trace := trace st; draws := S (draws st) |} in
              match drawn with
              | Raises e => (Raises e, st)
              | Returns secs =>
                  match time_sleep env secs st with
                  | (Raises e, st) => (Raises e, st)
                  | (Returns _, st) =>
                      match inventory_sync env st with
                      | Returns _ => (Returns tt, emit InventorySync st)
                      | Raises e => (Raises e, st)
                      end
                  end
              end
          | Raises e, _ | _, Raises e => (Raises e, st)
          end
      end
  end.

Fixpoint run_loop (fuel : nat) (wait_min wait_max : json)
    (node_scenarios : list NodeScenario) (pod_scenarios : list PodScenario)
    (loops : option Z) (st : state) : progress unit :=
  if keep_going loops then
    match fuel with
    | O => Running loops st
    | S fuel =>
        match round wait_min wait_max node_scenarios pod_scenarios st with
        | (Returns _, st) =>
            run_loop fuel wait_min wait_max node_scenarios pod_scenarios
              (decrement loops) st
        | (Raises e, st) => Done (Raises e) st
        end
    end
  else Done (Returns tt) st.

(** The statements of [run] before the loop. *)
Definition node_scenarios_of (policy : json) : outcome (list NodeScenario) :=
  items ← py_get policy "nodeScenarios" (JArr []) ≫= py_iter;
  mapM (fun item =>
          n ← py_get item "name" JNull;
          mret {| node_scenario_name := n; node_scenario_schema := item |})
       items.

Definition pod_scenarios_of (policy : json) : outcome (list PodScenario) :=
  items ← py_get policy "podScenarios" (JArr []) ≫= py_iter;
  mapM (fun item =>
          n ← py_get item "name" JNull;
          mret {| pod_scenario_name := n; pod_scenario_schema := item |})
       items.

Definition wait_bounds (policy : json) : outcome (json * json) :=
  config ← py_get policy "config" (JObj []);
  wait_min ← py_get config "minSecondsBetweenRuns" (JNum 0);
  wait_max ← py_get config "maxSecondsBetweenRuns" (JNum 300);
  mret (wait_min, wait_max).

Definition run (policy : json) (loops : option Z) (fuel : nat) (st : state)
  : progress (list NodeScenario * list PodScenario) :=
  let setup :=
    bounds ← wait_bounds policy;
    node_scenarios ← node_scenarios_of policy;
    pod_scenarios ← pod_scenarios_of policy;
    mret (bounds, node_scenarios, pod_scenarios) in
  match setup with
  | Raises e => Done (Raises e) st
  | Returns (wait_min, wait_max, node_scenarios, pod_scenarios) =>
      match run_loop fuel wait_min wait_max node_scenarios pod_scenarios
              loops st with
      | Running l st => Running l st
      | Done (Returns _) st => Done (Returns (node_scenarios, pod_scenarios)) st
      | Done (Raises e) st => Done (Raises e) st
      end
  end.

End Run.

(** *** What is asked of the outside *)

(** The scenario engines and the inventory return from every call, and
    the operating system sleeps every duration of at most [longest]
    seconds. *)
Definition obliging (env : outside) (longest : Z) : Prop :=
  (forall scenario st, node_execute env scenario st = Returns tt)
  /\ (forall scenario st, pod_execute env scenario st = Returns tt)
  /\ (forall secs st,
         (0 <= secs <= longest)%Z -> os_sleep env secs st = Returns tt)
  /\ (forall st, inventory_sync env st = Returns tt).

(** A number between two bounds, whichever is the greater. *)
Definition between (a b x : Q) : Prop :=
  ((a <= x)%Q /\ (x <= b)%Q) \/ ((b <= x)%Q /\ (x <= a)%Q).

(** [random.uniform] keeps its promise for two bounds: every draw is a
    finite number between them. *)
Definition draws_between (env : outside) (a b : Q) : Prop :=
  forall k : nat,
    exists x : Q, uniform env a b k = Returns (Finite x) /\ between a b x.

(** *** Rounds, as seen in the trace *)

(** The whole seconds of the draw number [k], nought when there are
    none. *)
Definition seconds (env : outside) (a b : Q) (k : nat) : Z :=
  match sleep_time env a b k with
  | Returns secs => secs
  | Raises _ => 0%Z
  end.

(** The effects of one round: the node scenarios, the pod scenarios, the
    sleep and the refresh of the inventory. *)
Definition round_events (secs : Z) (ns : list NodeScenario)
    (ps : list PodScenario) : list event :=
  (map NodeScenarioExecute ns ++ map PodScenarioExecute ps
   ++ [TimeSleep secs; InventorySync])%list.

(** The effects of [n] rounds in a row, the first of which makes the
    draw number [first]. *)
Fixpoint rounds_events (secs : nat -> Z) (ns : list NodeScenario)
    (ps : list PodScenario) (first n : nat) : list event :=
  match n with
  | O => []
  | S n =>
      (round_events (secs first) ns ps
       ++ rounds_events secs ns ps (S first) n)%list
  end.

Definition after_round (secs : nat -> Z) (ns : list NodeScenario)
    (ps : list PodScenario) (st : state) : state :=
  State (trace st ++ round_events (secs (draws st)) ns ps) (S (draws st)).

Definition after_rounds (secs : nat -> Z) (ns : list NodeScenario)
    (ps : list PodScenario) (n : nat) (st : state) : state :=
  State (trace st ++ rounds_events secs ns ps (draws st) n) (draws st + n).

Definition is_sync (e : event) : bool :=
  match e with
  | InventorySync => true
  | _ => false
  end.

(** A round is complete when the inventory has been refreshed. *)
Definition completed_rounds (st : state) : nat :=
  length (filter (fun e => is_sync e = true) (trace st)).

(** The state in which a run was left. *)
Definition state_of {A : Type} (p : progress A) : state :=
  match p with
  | Done _ st => st
  | Running _ st => st
  end.

(** *** Clauses of a scenario *)

(** What a scenario lists under [match], [filters] or [actions]. *)
Definition clauses_of (key : string) (scenario : json) : list json :=
  match scenario with
  | JObj fields =>
      match get key fields with
      | Some (JArr clauses) => clauses
      | _ => []
      end
  | _ => []
  end.

(** A clause of one of the given kinds: an object that has the key of its
    kind and no other key. *)
Definition clause_of (kinds : list string) (clause : json) : Prop :=
  exists fields kind,
    clause = JObj fields
    /\ In kind kinds
    /\ has_key kind fields = true
    /\ forall k, In k (map fst fields) -> k = kind.

(** The parameters of a clause: what it gives under the key of its kind. *)
Definition parameters (kind : string) (clause : json) : option json :=
  match clause with
  | JObj fields => get kind fields
  | _ => None
  end.

(** A definition of the schema that describes the clauses of one kind: an
    object that must have the key of the kind and may have no other.  The
    kind, and the schema of its parameters. *)
Definition kind_of_definition (def : json) : option (string * json) :=
  match def with
  | JObj kw =>
      match get "$ref" kw, get "type" kw, get "required" kw,
            get "additionalProperties" kw, schema_properties kw with
      | None, Some (JStr t), Some (JArr [JStr kind]), Some (JBool false),
        Some [(k, sub)] =>
          if String.eqb t "object" && String.eqb k kind then Some (kind, sub)
          else None
      | _, _, _, _, _ => None
      end
  | _ => None
  end.

(** An alternative of a [oneOf] that refers to such a definition. *)
Definition kind_of_alternative (root alt : json) : option (string * json) :=
  match alt with
  | JObj kw =>
      match get "$ref" kw with
      | Some (JStr ref) => resolve root ref ≫= kind_of_definition
      | _ => None
      end
  | _ => None
  end.

(** The kinds among which the items of an array choose, when the schema
    of the items is a [oneOf] of such alternatives. *)
Definition kinds_of_items (root items : json) : option (list (string * json)) :=
  match items with
  | JObj kw =>
      match get "$ref" kw, get "oneOf" kw with
      | None, Some (JArr alternatives) =>
          mapM (kind_of_alternative root) alternatives
      | _, _ => None
      end
  | _ => None
  end.

(** The type that a schema asks of an instance, directly or through the
    definition that it refers to. *)
Definition type_of_schema (root sub : json) : option string :=
  match sub with
  | JObj kw =>
      match get "$ref" kw with
      | None =>
          match get "type" kw with
          | Some (JStr t) => Some t
          | _ => None
          end
      | Some (JStr ref) =>
          match resolve root ref with
          | Some (JObj target) =>
              match get "$ref" target, get "type" target with
              | None, Some (JStr t) => Some t
              | _, _ => None
              end
          | _ => None
          end
      | Some _ => None
      end
  | _ => None
  end.

(** A schema for an object that is closed: the types of the properties
    that it names, and the names that it requires. *)
Definition record_schema (root sub : json)
  : option (list (string * string) * list string) :=
  match sub with
  | JObj kw =>
      match get "$ref" kw, get "type" kw, get "additionalProperties" kw,
            schema_properties kw with
      | None, Some (JStr t), Some (JBool false), Some props =>
          if String.eqb t "object" then
            types ← mapM (fun p => t ← type_of_schema root (snd p);
                                   Some (fst p, t)) props;
            required ← match get "required" kw with
                       | None => Some []
                       | Some (JArr names) =>
                           mapM (fun n => match n with
                                          | JStr k => Some k
                                          | _ => None
                                          end) names
                       | Some _ => None
                       end;
            Some (types, required)
          else None
      | _, _, _, _ => None
      end
  | _ => None
  end.

(** An object that has the required keys, no key besides the typed ones,
    and under each typed key that it has a value of the type. *)
Definition record_of (types : list (string * string)) (required : list string)
    (v : json) : Prop :=
  exists fields,
    v = JObj fields
    /\ (forall k, In k required -> has_key k fields = true)
    /\ (forall k, In k (map fst fields) -> In k (map fst types))
    /\ (forall k t x,
          In (k, t) types -> get k fields = Some x -> is_type t x = Some true).

(** The kinds of clause that the schema of a scenario lets a field list. *)
Definition kinds_of_field (root def : json) (field : string)
  : option (list (string * json)) :=
  match def with
  | JObj kw =>
      match get "$ref" kw, schema_properties kw with
      | None, Some props =>
          match get field props with
          | Some (JObj pkw) =>
              match get "$ref" pkw, get "type" pkw, get "items" pkw with
              | None, Some (JStr t), Some (JObj ikw) =>
                  if String.eqb t "array"
                  then kinds_of_items root (JObj ikw)
                  else None
              | _, _, _ => None
              end
          | _ => None
          end
      | _, _ => None
      end
  | _ => None
  end.

End PolicyRunner.

(** ** Examples *)

Module Examples.

Import RemoteExecutor.

Definition alpha : Node :=
  {| name := "alpha"; ip := "10.0.0.1"; sshuser := "cloud-user";
     sshpass := None |}.
Definition beta : Node :=
  {| name := "beta"; ip := "10.0.0.2"; sshuser := "cloud-user";
     sshpass := Some "secret" |}.
(** Another account on the machine of [alpha]. *)
Definition gamma : Node :=
  {| name := "gamma"; ip := "10.0.0.1"; sshuser := "root";
     sshpass := None |}.

(** A network in which [beta] refuses connections and every other machine
    runs the command with success and no output; the world counts the
    sessions. *)
Definition shell_run (p : params) (cmd : list string) (w : nat)
  : outcome output * nat :=
  (if String.eqb (hostname p) "10.0.0.2"
   then Raises (RemoteError "connection refused")
   else Returns {| return_code := 0; stdout_bytes := []; stderr_bytes := [] |},
   S w).

Definition decode (b : list Byte.byte) : outcome string :=
  Returns (string_of_list_byte b).

Definition plain : t := __init__ None "cloud-user" false None.
Definition preset : t := __init__ (Some [alpha]) "cloud-user" false None.


Import PolicyRunner.

(** A policy with one scenario whose filters and actions are empty. *)
Definition bare_node_policy (name : string) : json :=
  JObj [("config", JObj [("minSecondsBetweenRuns", JNum 1)]);
        ("nodeScenarios",
         JArr [JObj [("name", JStr name);
                     ("match",
                      JArr [JObj [("property",
                                   JObj [("name", JStr "name");
                                         ("value", JStr "node1")])]]);
                     ("filters", JArr []);
                     ("actions", JArr [])]])].

Definition bare_pod_policy (name : string) : json :=
  JObj [("podScenarios",
         JArr [JObj [("name", JStr name);
                     ("match",
                      JArr [JObj [("namespace",
                                   JObj [("name", JStr "default")])]]);
                     ("filters", JArr []);
                     ("actions", JArr [])]])].

(** The policy of the end-to-end example: one second between runs. *)
Definition paced_policy : json :=
  JObj [("config", JObj [("minSecondsBetweenRuns", JNum 1);
                         ("maxSecondsBetweenRuns", JNum 1)]);
        ("nodeScenarios",
         JArr [JObj [("name", JStr "drain"); ("match", JArr []);
                     ("filters", JArr []); ("actions", JArr [])]]);
        ("podScenarios", JArr [])].

Definition drain : NodeScenario :=
  {| node_scenario_name := JStr "drain";
     node_scenario_schema :=
       JObj [("name", JStr "drain"); ("match", JArr []);
             ("filters", JArr []); ("actions", JArr [])] |}.

(** A policy that passes validation although its bounds are negative. *)
Definition hasty_policy : json :=
  JObj [("config", JObj [("minSecondsBetweenRuns", JNum (-5));
                         ("maxSecondsBetweenRuns", JNum (-3))]);
        ("nodeScenarios",
         JArr [JObj [("name", JStr "drain"); ("match", JArr []);
                     ("filters", JArr []); ("actions", JArr [])]])].

(** An outside in which every call returns and [random.uniform] answers
    the middle of its bounds, which is what [a + (b - a) * 0.5] comes to
    in floats for the bounds of the examples: whole numbers and halves of
    whole numbers, or bounds that are equal. *)
Definition calm : outside :=
  {| uniform := fun a b _ => Returns (Finite (Qred (a + (b - a) * (1 # 2))));
     node_execute := fun _ _ => Returns tt;
     pod_execute := fun _ _ => Returns tt;
     os_sleep := fun _ _ => Returns tt;
     inventory_sync := fun _ => Returns tt |}.

(** The same outside with an inventory that cannot be reached. *)
Definition stale : outside :=
  {| uniform := uniform calm;
     node_execute := node_execute calm;
     pod_execute := pod_execute calm;
     os_sleep := os_sleep calm;
     inventory_sync := fun _ => Raises (OSError "connection refused") |}.

(** A policy that passes validation with bounds of 2 ** 70 seconds. *)
Definition endless_policy : json :=
  JObj [("config",
         JObj [("minSecondsBetweenRuns", JNum (inject_Z (2 ^ 70)));
               ("maxSecondsBetweenRuns", JNum (inject_Z (2 ^ 70)))]);
        ("nodeScenarios",
         JArr [JObj [("name", JStr "drain"); ("match", JArr []);
                     ("filters", JArr []); ("actions", JArr [])]])].

(** A node scenario and a pod scenario that use every kind of clause. *)
Definition busy_node_scenario : json :=
  JObj [("name", JStr "restart workers");
        ("match",
         JArr [JObj [("property", JObj [("name", JStr "group");
                                        ("value", JStr "workers")])]]);
        ("filters",
         JArr [JObj [("dayTime",
                      JObj [("onlyDays", JArr [JStr "monday"; JStr "friday"]);
                            ("startTime", JObj [("hour", JNum 9);
                                                ("minute", JNum 0);
                                                ("second", JNum 0)]);
                            ("endTime", JObj [("hour", JNum 17);
                                              ("minute", JNum 30);
                                              ("second", JNum 0)])])];
               JObj [("randomSample", JObj [("size", JNum 1)])];
               JObj [("probability",
                      JObj [("probabilityPassAll", JNum (1 # 2))])]]);
        ("actions",
         JArr [JObj [("stop", JObj [("force", JBool false)])];
               JObj [("wait", JObj [("seconds", JNum 30)])];
               JObj [("start", JNull)];
               JObj [("execute", JObj [("cmd", JStr "uptime")])]])].

Definition busy_pod_scenario : json :=
  JObj [("name", JStr "kill pods");
        ("match",
         JArr [JObj [("namespace", JObj [("name", JStr "default")])];
               JObj [("deployment", JObj [("name", JStr "web");
                                          ("namespace", JStr "default")])];
               JObj [("labels", JObj [("selector", JStr "app=web");
                                      ("namespace", JStr "default")])]]);
        ("filters",
         JArr [JObj [("property", JObj [("name", JStr "state");
                                        ("value", JStr "Running")])]]);
        ("actions",
         JArr [JObj [("kill", JObj [("probability", JNum (1 # 2));
                                    ("force", JBool true)])];
               JObj [("wait", JObj [("seconds", JNum 5)])]])].

Definition busy_policy : json :=
  JObj [("config", JObj [("minSecondsBetweenRuns", JNum 1);
                         ("maxSecondsBetweenRuns", JNum 30)]);
        ("nodeScenarios", JArr [busy_node_scenario]);
        ("podScenarios", JArr [busy_pod_scenario])].

(** *** A strict parser

    What [configparser.ConfigParser(allow_no_value=True, delimiters=" ")]
    makes of a text in [read], followed line by line as
    [RawConfigParser._read] goes with the settings of that class: strict,
    empty lines allowed in values, the comment prefixes [#] and [;], no
    inline comments, the default section [DEFAULT].  What is kept of the
    parse is what decides whether a later line raises: the sections and
    options added, the current section, whether the current option has a
    value, and the indentation.  The message of a [ConfigParserError] here
    is the name of the class of the error. *)
Record reading : Type := Reading {
  sections_added : list string;
  options_added : list (string * string);
  sectname : option string;
  optname : option bool;
  indent_level : nat
}.

(** [s.strip()] *)
Definition strip (s : string) : string := lstrip_with isspace (rstrip s).

(** [c.lower()] for a code point below 256. *)
Definition lower_char (c : ascii) : ascii :=
  let n := nat_of_ascii c in
  if ((65 <=? n) && (n <=? 90)
      || (192 <=? n) && (n <=? 222) && negb (n =? 215))%nat
  then ascii_of_nat (n + 32)
  else c.

Fixpoint lower (s : string) : string :=
  match s with
  | EmptyString => EmptyString
  | String c r => String (lower_char c) (lower r)
  end.

(** The place of the first character that is not white space. *)
Fixpoint cur_indent_level (line : string) : nat :=
  match line with
  | EmptyString => 0
  | String c r => if isspace c then S (cur_indent_level r) else 0
  end.

Fixpoint until_bracket (s : string) : option string :=
  match s with
  | EmptyString => None
  | String c r =>
      if Ascii.eqb c "]" then Some EmptyString
      else option_map (String c) (until_bracket r)
  end.

(** [SECTCRE.match(value)]: an opening bracket, a header of one character
    at least and without a closing bracket, and a closing bracket; what
    follows is not looked at. *)
Definition header_of (value : string) : option string :=
  match value with
  | EmptyString => None
  | String c r =>
      if Ascii.eqb c "[" then
        match until_bracket r with
        | Some (String d header) => Some (String d header)
        | _ => None
        end
      else None
  end.

(** White space up to a space, the delimiter. *)
Fixpoint delimited (s : string) : bool :=
  match s with
  | EmptyString => false
  | String c r => Ascii.eqb c " " || isspace c && delimited r
  end.

(** [_optcre.match(value)] on a text without white space at its ends: the
    option is the shortest beginning that the end of the text or a
    delimiter follows, and there is a value when a delimiter follows. *)
Fixpoint option_of (value : string) : string * bool :=
  match value with
  | EmptyString => (EmptyString, false)
  | String c r =>
      if delimited value then (EmptyString, true)
      else let (option, has_value) := option_of r in
           (String c option, has_value)
  end.

Definition option_added (section option : string)
    (added : list (string * string)) : bool :=
  existsb (fun so => String.eqb (fst so) section && String.eqb (snd so) option)
    added.

(** [cursect is not None and optname and cur_indent_level > indent_level]:
    the line continues the current option, which has a value or not. *)
Definition continued (st : reading) (line : string) : option bool :=
  match sectname st, optname st with
  | Some _, Some has_value =>
      if (indent_level st <? cur_indent_level line)%nat then Some has_value
      else None
  | _, _ => None
  end.

(** One iteration of [for lineno, line in enumerate(fp, start=1)]. *)
Definition read_config_line (st : reading) (line : string) : outcome reading :=
  let value := strip line in
  if is_empty value || startswith "#" value || startswith ";" value
  then Returns st
  else
    match continued st line with
    | Some true => Returns st
    | Some false =>
        Raises (AttributeError "'NoneType' object has no attribute 'append'")
    | None =>
        match header_of value with
        | Some header =>
            if existsb (String.eqb header) (sections_added st)
            then Raises (ConfigParserError "DuplicateSectionError")
            else
              Returns {| sections_added :=
                           if String.eqb header "DEFAULT"
                           then sections_added st
                           else header :: sections_added st;
                         options_added := options_added st;
                         sectname := Some header;
                         optname := None;
                         indent_level := cur_indent_level line |}
        | None =>
            match sectname st with
            | None => Raises (ConfigParserError "MissingSectionHeaderError")
            | Some section =>
                let (option, has_value) := option_of value in
                let option := lower (rstrip option) in
                if option_added section option (options_added st)
                then Raises (ConfigParserError "DuplicateOptionError")
                else
                  Returns {| sections_added := sections_added st;
                             options_added :=
                               (section, option) :: options_added st;
                             sectname := Some section;
                             optname := Some has_value;
                             indent_level := cur_indent_level line |}
            end
        end
    end.

Fixpoint read_config_lines (lines : list string) (st : reading)
  : outcome reading :=
  match lines with
  | [] => Returns st
  | line :: rest => st' ← read_config_line st line; read_config_lines rest st'
  end.

Definition strict_read (text : string) : outcome unit :=
  _ ← read_config_lines (readlines text)
        {| sections_added := []; options_added := []; sectname := None;
           optname := None; indent_level := 0 |};
  Returns tt.

End Examples.

Import PolicyRunner.

(** * Properties *)

(** ** Strings *)

Section StringFacts.

Lemma split_length (c : ascii) (s : string) :
  length (split c s) = S (count_char c s).
Proof.
  induction s as [|d r IH]; simpl; [reflexivity|].
  destruct (Ascii.eqb d c); simpl.
  - now rewrite IH.
  - destruct (split c r) as [|p ps]; simpl in *; lia.
Qed.

Lemma split_pieces_without_separator (c : ascii) (s : string) :
  Forall (fun p => count_char c p = 0%nat) (split c s).
Proof.
  induction s as [|d r IH]; simpl.
  - repeat constructor.
  - destruct (Ascii.eqb d c) eqn:E.
    + constructor; [reflexivity | exact IH].
    + destruct (split c r) as [|p ps].
      * repeat constructor. simpl. now rewrite E.
      * inversion IH; subst. constructor; [|assumption].
        simpl. rewrite E. assumption.
Qed.

Lemma is_empty_length (s : string) :
  (String.length s =? 0)%nat = is_empty s.
Proof. destruct s; reflexivity. Qed.

End StringFacts.

(** ** The inventory reader *)

Section InventoryFacts.

Import Inventory.

Variable config_read : string -> outcome unit.

Lemma read_pieces_returns (pieces : list string) :
  Forall (fun p => count_char " " p = 0%nat) pieces ->
  forall data,
    returns (read_pieces pieces data) = true <->
    Forall (fun t => count_char "=" t = 1%nat) pieces.
Proof.
  induction 1 as [|piece rest Hsp _ IH]; intros data; simpl.
  - split; [constructor | reflexivity].
  - destruct (String.eqb_spec piece " ") as [->|_]; [discriminate Hsp|].
    pose proof (split_length "=" piece) as Hlen.
    destruct (split "=" piece) as [|k [|v [|x r]]]; simpl in Hlen.
    + lia.
    + split; [discriminate|]. intros HF. inversion HF; subst. lia.
    + rewrite IH. split.
      * intros HF. constructor; [lia | assumption].
      * intros HF. now inversion HF.
    + split; [discriminate|]. intros HF. inversion HF; subst. lia.
Qed.

Lemma read_record_returns (line : string) :
  returns (read_record (rstrip line)) = true <->
  Forall (fun t => count_char "=" t = 1%nat) (tail (tokens line)).
Proof.
  unfold read_record, tokens. apply read_pieces_returns.
  pose proof (split_pieces_without_separator " " (rstrip line)) as HF.
  destruct (split " " (rstrip line)); simpl; [constructor|].
  now inversion HF.
Qed.

(** The attributes of a record: what was there stays, and every token
    leaves its key. *)
Lemma read_pieces_fields (pieces : list string) :
  forall data r : gmap string string,
    read_pieces pieces data = Returns r ->
    (forall k, is_Some (data !! k) -> is_Some (r !! k))
    /\ (forall piece, In piece pieces -> piece <> " " ->
          exists k v, split "=" piece = [k; v] /\ is_Some (r !! k)).
Proof.
  induction pieces as [|piece rest IH]; intros data r Hrun; simpl in Hrun.
  - injection Hrun as <-. split; [auto | intros ? []].
  - destruct (String.eqb_spec piece " ") as [->|Hne].
    + destruct (IH _ _ Hrun) as [Hkeep Hattr]. split; [exact Hkeep|].
      intros p [<-|Hin] Hp; [congruence | auto].
    + destruct (split "=" piece) as [|k [|v [|x l]]] eqn:Hsplit;
        try discriminate Hrun.
      destruct (IH _ _ Hrun) as [Hkeep Hattr]. split.
      * intros k' Hk'. apply Hkeep.
        destruct (decide (k = k')) as [->|Hkk].
        -- rewrite lookup_insert_eq. eauto.
        -- now rewrite lookup_insert_ne.
      * intros p [<-|Hin] Hp; [|auto].
        exists k, v. split; [exact Hsplit|].
        apply Hkeep. rewrite lookup_insert_eq. eauto.
Qed.

(** A record has an address and an attribute for each of its other
    tokens. *)
Lemma read_record_fields (line : string) (r : gmap string string) :
  read_record (rstrip line) = Returns r ->
  is_Some (r !! "addr")
  /\ forall t, In t (tail (tokens line)) ->
       exists k v, split "=" t = [k; v] /\ is_Some (r !! k).
Proof.
  unfold read_record, tokens. intros Hrun.
  destruct (read_pieces_fields _ _ _ Hrun) as [Hkeep Hattr]. split.
  - apply Hkeep. rewrite lookup_singleton_eq. eauto.
  - intros t Ht. apply Hattr; [exact Ht|].
    pose proof (split_pieces_without_separator " " (rstrip line)) as HF.
    intros ->. destruct (split " " (rstrip line)) as [|p ps]; [destruct Ht|].
    inversion HF as [|? ? _ Hps]; subst. simpl in Ht.
    rewrite Forall_forall in Hps. apply list_elem_of_In in Ht.
    specialize (Hps _ Ht). discriminate Hps.
Qed.

(** The three kinds of line. *)
Lemma read_line_header (st : loop_state) (line name : string) :
  header_name line = Some name ->
  read_line st line = Returns (LoopState name (<[name := []]> (_groups st))).
Proof.
  unfold header_name, read_line.
  destruct (is_header (rstrip line)); [|discriminate].
  now intros [= <-].
Qed.

Lemma read_line_blank (st : loop_state) (line : string) :
  is_header (rstrip line) = false -> is_empty (rstrip line) = true ->
  read_line st line = Returns st.
Proof.
  unfold read_line. intros -> H. now rewrite is_empty_length, H.
Qed.

Lemma read_line_record (st : loop_state) (line : string) :
  is_record_line line = true ->
  read_line st line =
    data ← read_record (rstrip line);
    match _groups st !! section_name st with
    | Some records =>
        Returns (LoopState (section_name st)
                   (<[section_name st := records ++ [data]]> (_groups st)))
    | None => Raises (KeyError (section_name st))
    end.
Proof.
  unfold is_record_line, read_line. rewrite is_empty_length.
  destruct (is_header (rstrip line)); [discriminate|].
  now destruct (is_empty (rstrip line)).
Qed.

Lemma line_kind (line : string) :
  (exists name, header_name line = Some name /\ is_header (rstrip line) = true
                /\ is_record_line line = false)
  \/ (header_name line = None /\ is_header (rstrip line) = false
      /\ is_empty (rstrip line) = true /\ is_record_line line = false)
  \/ (header_name line = None /\ is_header (rstrip line) = false
      /\ is_record_line line = true).
Proof.
  unfold header_name, is_record_line.
  destruct (is_header (rstrip line)); [left; eauto|right].
  destruct (is_empty (rstrip line)); [left|right]; auto.
Qed.

Lemma read_lines_app (l1 l2 : list string) (st : loop_state) :
  read_lines (l1 ++ l2)%list st = st' ← read_lines l1 st; read_lines l2 st'.
Proof.
  revert st. induction l1 as [|line l1 IH]; intros st; simpl; [reflexivity|].
  destruct (read_line st line) as [st1|e]; simpl; [apply IH | reflexivity].
Qed.

Lemma admissible_after_header (P Q : Prop) (line : string) (rest : list string) :
  is_header (rstrip line) = true -> is_record_line line = false -> Q ->
  admissible Q rest <-> admissible P (line :: rest).
Proof.
  intros Hh Hr HQ. split; intros H i l Hi Hl.
  - destruct i as [|i]; simpl in Hi.
    + injection Hi as ->. congruence.
    + destruct (H i l Hi Hl) as [_ Ht]. split; [|exact Ht].
      right. exists 0%nat, line. split; [lia | split; [reflexivity | exact Hh]].
  - destruct (H (S i) l Hi Hl) as [_ Ht]. split; [now left | exact Ht].
Qed.

Lemma admissible_after_blank (P : Prop) (line : string) (rest : list string) :
  is_header (rstrip line) = false -> is_record_line line = false ->
  admissible P rest <-> admissible P (line :: rest).
Proof.
  intros Hh Hr. split; intros H i l Hi Hl.
  - destruct i as [|i]; simpl in Hi.
    + injection Hi as ->. congruence.
    + destruct (H i l Hi Hl) as [[HP|(j & h & Hj & Hjh & Hhh)] Ht];
        (split; [|exact Ht]); [now left|].
      right. exists (S j), h. split; [lia | split; [exact Hjh | exact Hhh]].
  - destruct (H (S i) l Hi Hl) as [[HP|(j & h & Hj & Hjh & Hhh)] Ht];
      (split; [|exact Ht]); [now left|].
    destruct j as [|j]; simpl in Hjh.
    + injection Hjh as ->. congruence.
    + right. exists j, h. split; [lia | split; [exact Hjh | exact Hhh]].
Qed.

Lemma admissible_after_record (P Q : Prop) (line : string) (rest : list string) :
  is_header (rstrip line) = false -> is_record_line line = true -> Q ->
  (P /\ Forall (fun t => count_char "=" t = 1%nat) (tail (tokens line))
   /\ admissible Q rest)
  <-> admissible P (line :: rest).
Proof.
  intros Hh Hr HQ. split.
  - intros (HP & Ht0 & H) i l Hi Hl.
    destruct i as [|i]; simpl in Hi.
    + injection Hi as ->. split; [now left | exact Ht0].
    + destruct (H i l Hi Hl) as [_ Ht]. split; [now left | exact Ht].
  - intros H. destruct (H 0%nat line eq_refl Hr) as [[HP|(j & _ & Hj & _)] Ht0];
      [|lia].
    split; [exact HP | split; [exact Ht0 |]].
    intros i l Hi Hl. destruct (H (S i) l Hi Hl) as [_ Ht].
    split; [now left | exact Ht].
Qed.

(** The loop returns exactly on the admissible sequences of lines. *)
Lemma read_lines_returns (lines : list string) :
  forall st : loop_state,
    returns (read_lines lines st) = true <-> admissible (known st) lines.
Proof.
  induction lines as [|line rest IH]; intros st.
  - split; [|reflexivity]. intros _ i l Hi. discriminate Hi.
  - simpl.
    destruct (line_kind line)
      as [(name & Hn & Hh & Hr) | [(Hn & Hh & He & Hr) | (Hn & Hh & Hr)]].
    + rewrite (read_line_header st line name Hn). simpl.
      rewrite IH. apply admissible_after_header; auto.
      unfold known; simpl. rewrite lookup_insert_eq. eauto.
    + rewrite (read_line_blank st line Hh He). simpl.
      rewrite IH. now apply admissible_after_blank.
    + rewrite (read_line_record st line Hr).
      pose proof (read_record_returns line) as Hrec.
      destruct (read_record (rstrip line)) as [data|e]; simpl in *.
      * destruct (_groups st !! section_name st) as [records|] eqn:Hk; simpl.
        -- rewrite IH.
           match goal with
           | |- admissible ?Q rest <-> _ =>
               rewrite <- (admissible_after_record (known st) Q line rest Hh Hr)
           end.
           ++ unfold known at 2. rewrite Hk. intuition eauto.
           ++ unfold known; simpl. rewrite lookup_insert_eq. eauto.
        -- split; [discriminate|]. intros H.
           destruct (H 0%nat line eq_refl Hr) as [[[x Hx]|(j & _ & Hj & _)] _];
             [|lia].
           unfold known in *. congruence.
      * split; [discriminate|]. intros H.
        destruct (H 0%nat line eq_refl Hr) as [_ Ht].
        apply Hrec in Ht. discriminate Ht.
Qed.

Lemma admissible_initially (lines : list string) :
  admissible (known initial_state) lines <-> well_formed lines.
Proof.
  unfold admissible, well_formed.
  split; intros H i l Hi Hl; destruct (H i l Hi Hl) as [Hb Ht];
    (split; [|exact Ht]).
  - destruct Hb as [[x Hx]|Hb]; [|exact Hb].
    unfold initial_state in Hx; simpl in Hx. now rewrite lookup_empty in Hx.
  - now right.
Qed.

(** When the reader returns: the parse by [configparser] did not raise and
    the lines are well formed. *)
Lemma read_inventory_returns (text : string) :
  returns (read_inventory_file_to_dict config_read text) = true
  <-> returns (config_read text) = true /\ well_formed (readlines text).
Proof.
  unfold read_inventory_file_to_dict.
  rewrite <- admissible_initially, <- read_lines_returns.
  destruct (config_read text) as [[]|e]; simpl; [|intuition discriminate].
  destruct (read_lines (readlines text) initial_state); simpl; intuition.
Qed.

(** Lines without a header for [name], read while another section is
    current, leave the entry of [name] alone. *)
Lemma other_section_untouched (name : string) (lines : list string) :
  forall st st' : loop_state,
    read_lines lines st = Returns st' ->
    section_name st <> name ->
    Forall (fun l => header_name l <> Some name) lines ->
    _groups st' !! name = _groups st !! name.
Proof.
  induction lines as [|line rest IH]; intros st st' Hrun Hsec Hno; simpl in Hrun.
  - now injection Hrun as <-.
  - inversion Hno as [|? ? Hline Hrest]; subst.
    destruct (line_kind line)
      as [(n & Hn & Hh & Hr) | [(Hn & Hh & He & Hr) | (Hn & Hh & Hr)]].
    + rewrite (read_line_header st line n Hn) in Hrun. simpl in Hrun.
      assert (n <> name) by congruence.
      rewrite (IH _ _ Hrun); simpl; [|assumption|assumption].
      now rewrite lookup_insert_ne.
    + rewrite (read_line_blank st line Hh He) in Hrun. simpl in Hrun. eauto.
    + rewrite (read_line_record st line Hr) in Hrun.
      destruct (read_record (rstrip line)) as [data|e]; [|discriminate].
      simpl in Hrun.
      destruct (_groups st !! section_name st) as [records|]; [|discriminate].
      simpl in Hrun.
      rewrite (IH _ _ Hrun); simpl; [|assumption|assumption].
      now rewrite lookup_insert_ne.
Qed.

(** Lines read while [name] is current append the records listed under
    it, up to the next header, to the entry of [name]. *)
Lemma listed_under_collected (name : string) (lines : list string) :
  forall (st st' : loop_state) (acc : list (gmap string string)),
    read_lines lines st = Returns st' ->
    section_name st = name ->
    _groups st !! name = Some acc ->
    Forall (fun l => header_name l <> Some name) lines ->
    exists records,
      Forall2 (fun l r => read_record l = Returns r) (listed_under lines) records
      /\ _groups st' !! name = Some (acc ++ records)%list.
Proof.
  induction lines as [|line rest IH]; intros st st' acc Hrun Hsec Hacc Hno;
    simpl in Hrun.
  - injection Hrun as <-. exists []. rewrite app_nil_r. split; [constructor|easy].
  - inversion Hno as [|? ? Hline Hrest]; subst. simpl.
    destruct (line_kind line)
      as [(n & Hn & Hh & Hr) | [(Hn & Hh & He & Hr) | (Hn & Hh & Hr)]].
    + rewrite Hh.
      rewrite (read_line_header st line n Hn) in Hrun. simpl in Hrun.
      assert (n <> section_name st) by congruence.
      exists []. rewrite app_nil_r. split; [constructor|].
      rewrite (other_section_untouched _ _ _ _ Hrun); simpl; auto.
      now rewrite lookup_insert_ne.
    + rewrite Hh, He.
      rewrite (read_line_blank st line Hh He) in Hrun. simpl in Hrun. eauto.
    + rewrite Hh.
      assert (is_empty (rstrip line) = false) as ->.
      { unfold is_record_line in Hr. rewrite Hh in Hr.
        now destruct (is_empty (rstrip line)). }
      rewrite (read_line_record st line Hr) in Hrun.
      destruct (read_record (rstrip line)) as [data|e] eqn:Hdata; [|discriminate].
      simpl in Hrun. rewrite Hacc in Hrun. simpl in Hrun.
      destruct (IH _ _ (acc ++ [data])%list Hrun) as (records & HF & Hlook);
        simpl; auto.
      { now rewrite lookup_insert_eq. }
      exists (data :: records). split; [now constructor|].
      now rewrite Hlook, <- app_assoc.
Qed.

End InventoryFacts.

(** C8.  The reader returns a mapping only for well-formed lines: when it
    returns, every record line of the file comes after some section header
    and every token after the first token of a record line contains exactly
    one equals sign.  On a file whose only fault is a record line before any
    header, and on a file whose only fault is an attribute token without an
    equals sign, it raises, whatever [configparser] makes of the file. *)
Theorem read_inventory_total_only_if_well_formed
    (config_read : string -> outcome unit) :
  (forall text : string,
      returns (Inventory.read_inventory_file_to_dict config_read text) = true ->
      Inventory.well_formed (readlines text))
  /\ returns (Inventory.read_inventory_file_to_dict config_read
                (Inventory.unlines ["host1"; "[web]"])) = false
  /\ returns (Inventory.read_inventory_file_to_dict config_read
                (Inventory.unlines ["[web]"; "host1 fast"])) = false.
Proof.
  split; [|split].
  - intros text H. now apply (read_inventory_returns config_read) in H.
  - unfold Inventory.read_inventory_file_to_dict.
    destruct (config_read _); reflexivity.
  - unfold Inventory.read_inventory_file_to_dict.
    destruct (config_read _); reflexivity.
Qed.

Lemma read_inventory_total_only_if_well_formed_witness :
  Inventory.well_formed
    (readlines (Inventory.unlines ["[web]"; "host1 zone=a rack=7"; "host2"])).
Proof.
  apply (proj1 (read_inventory_total_only_if_well_formed (fun _ => Returns tt))).
  vm_compute. reflexivity.
Defined.




(** The parser tells the headers [[web]] and [[[web]]] apart, and the loop
    strips both to the name [web]: the reader returns the record of the
    last one. *)
Example read_inventory_bracketed_header :
  Inventory.read_inventory_file_to_dict Examples.strict_read
    (Inventory.unlines ["[web]"; "old1"; "[[web]]"; "new1"])
  = Returns {[ "web" := [ ({[ "addr" := "new1" ]} : gmap string string) ] ]}.
Proof. vm_compute. reflexivity. Qed.

(** C6.  On a file with a capitalised section and a section that includes
    it, the reader returns the section names as they are written and the
    including section with a record for the name of the included one: the
    keys are not put in lower case and the inclusion is not resolved. *)
Theorem read_inventory_keeps_case_and_inclusions
    (config_read : string -> outcome unit) :
  let text := Inventory.unlines ["[Web]"; "host1"; "[all:children]"; "Web"] in
  Inventory.read_inventory_file_to_dict config_read text =
    (_ ← config_read text;
     Returns {[ "Web" := [ ({[ "addr" := "host1" ]} : gmap string string) ];
                "all:children" := [ {[ "addr" := "Web" ]} ] ]}).
Proof.
  intros text. unfold Inventory.read_inventory_file_to_dict.
  destruct (config_read text) as [[]|e]; [|reflexivity].
  vm_compute. reflexivity.
Qed.

(** ** The remote executor *)

Section RemoteExecutorFacts.

Import RemoteExecutor.

Variable World : Type.
Variable shell_run : params -> list string -> World -> outcome output * World.
Variable decode : list Byte.byte -> outcome string.

Local Abbreviation chained := (RemoteExecutor.chained World shell_run).
Local Abbreviation entry_of := (RemoteExecutor.entry_of decode).
Local Abbreviation record_entry := (RemoteExecutor.record_entry decode).

Lemma collect_returns (s : session) :
  collect decode (session_end s) = Returns (entry_of s).
Proof.
  unfold collect, RemoteExecutor.entry_of.
  destruct (session_end s) as [out|e]; simpl; [|reflexivity].
  destruct (decode (stdout_bytes out)); simpl; [|reflexivity].
  destruct (decode (stderr_bytes out)); reflexivity.
Qed.

Lemma chained_app (w w1 w2 : World) (l1 l2 : list session) :
  chained w l1 w1 -> chained w1 l2 w2 -> chained w (l1 ++ l2) w2.
Proof.
  induction 1; simpl; [auto|]. intros. econstructor; eauto.
Qed.

(** The loop never raises; it opens one session per target, in order,
    and records the entry of each. *)
Lemma execute_nodes_returns (self : t) (cmd_full : list string)
    (targets : list Node) :
  forall fr0 : frame World,
  exists (new : list session) (w : World),
    execute_nodes World shell_run decode self cmd_full targets fr0
    = Returns (Frame World (foldl record_entry (results World fr0) new)
                 (sessions World fr0 ++ new) w)
    /\ chained (world World fr0) new w
    /\ map session_params new = map (shell_params self) targets
    /\ Forall (fun s => session_cmd s = cmd_full) new.
Proof.
  induction targets as [|node rest IH]; intros fr0; simpl.
  - exists [], (world World fr0). rewrite app_nil_r. destruct fr0; simpl.
    repeat split; constructor.
  - destruct (shell_run (shell_params self node) cmd_full (world World fr0))
      as [ended w1] eqn:Hrun.
    set (s := {| session_params := shell_params self node;
                 session_cmd := cmd_full; session_end := ended |}).
    change ended with (session_end s) at 1.
    rewrite collect_returns. simpl.
    destruct (IH (Frame World (<[ip node := entry_of s]> (results World fr0))
                    (sessions World fr0 ++ [s]) w1))
      as (new & w & Heq & Hch & Hpar & Hcmd).
    exists (s :: new), w. simpl in *. rewrite Heq, <- app_assoc. simpl.
    repeat split.
    + econstructor; eauto.
    + now rewrite Hpar.
    + constructor; [reflexivity | assumption].
Qed.

Lemma record_entries_lookup_fresh (new : list session) :
  forall (m : gmap string ExecutionResult) (k : string),
    ~ In k (map (fun s => hostname (session_params s)) new) ->
    foldl record_entry m new !! k = m !! k.
Proof.
  induction new as [|s new IH]; intros m k Hk; simpl in *; [reflexivity|].
  rewrite IH by tauto. unfold RemoteExecutor.record_entry.
  apply lookup_insert_ne. tauto.
Qed.

Lemma record_entries_lookup (new : list session) :
  forall (m : gmap string ExecutionResult) (i : nat) (s : session),
    NoDup (map (fun s => hostname (session_params s)) new) ->
    new !! i = Some s ->
    foldl record_entry m new !! hostname (session_params s) = Some (entry_of s).
Proof.
  induction new as [|s0 new IH]; intros m i s Hnd Hi; [discriminate Hi|].
  simpl in Hnd. apply NoDup_cons in Hnd as [Hfresh Hnd].
  destruct i as [|i]; simpl in *.
  - injection Hi as ->.
    rewrite record_entries_lookup_fresh.
    + apply lookup_insert_eq.
    + now rewrite <- list_elem_of_In.
  - eauto.
Qed.

Lemma record_entries_size (new : list session) :
  forall m : gmap string ExecutionResult,
    NoDup (map (fun s => hostname (session_params s)) new) ->
    (forall k, In k (map (fun s => hostname (session_params s)) new) ->
               m !! k = None) ->
    size (foldl record_entry m new) = (size m + length new)%nat.
Proof.
  induction new as [|s new IH]; intros m Hnd Hm; simpl; [lia|].
  simpl in Hnd. apply NoDup_cons in Hnd as [Hfresh Hnd].
  rewrite IH; [|assumption|].
  - unfold RemoteExecutor.record_entry. rewrite map_size_insert_None; [lia|].
    apply Hm. now left.
  - intros k Hk. unfold RemoteExecutor.record_entry. rewrite lookup_insert_ne.
    + apply Hm. now right.
    + intros <-. apply Hfresh. now rewrite list_elem_of_In.
Qed.

Lemma hostnames_of_targets (self : t) (targets : list Node)
    (new : list session) :
  map session_params new = map (shell_params self) targets ->
  map (fun s => hostname (session_params s)) new = map ip targets.
Proof.
  intros H.
  rewrite <- (map_map session_params hostname), H, map_map. reflexivity.
Qed.

End RemoteExecutorFacts.

(** C1, amended.  For a command and a non-empty sequence of N targets with
    pairwise distinct addresses, [execute] returns (it does not raise) a
    mapping with exactly N entries.  It opens one session per target, in
    the order of the sequence and each with the command wrapped as
    [sh -c], whatever happened to the targets before; a target whose
    session raises has return code 1 and the text of the exception, and so
    has one whose output cannot be decoded; a target whose session returns
    has the remote return code and the decoded output and error streams. *)
Theorem execute_one_entry_per_address
    (World : Type)
    (shell_run : RemoteExecutor.params -> list string -> World ->
                 outcome RemoteExecutor.output * World)
    (decode : list Byte.byte -> outcome string)
    (self : RemoteExecutor.t) (cmd : string)
    (targets : list RemoteExecutor.Node) (w : World) :
  targets <> [] ->
  NoDup (map RemoteExecutor.ip targets) ->
  exists fr,
    RemoteExecutor.execute World shell_run decode self cmd (Some targets) w
    = Returns fr
    /\ size (RemoteExecutor.results World fr) = length targets
    /\ length (RemoteExecutor.sessions World fr) = length targets
    /\ RemoteExecutor.chained World shell_run w (RemoteExecutor.sessions World fr)
         (RemoteExecutor.world World fr)
    /\ forall (i : nat) (node : RemoteExecutor.Node),
         targets !! i = Some node ->
         exists s,
           RemoteExecutor.sessions World fr !! i = Some s
           /\ RemoteExecutor.session_params s = RemoteExecutor.shell_params self node
           /\ RemoteExecutor.session_cmd s = ["sh"; "-c"; cmd]
           /\ (forall e,
                  RemoteExecutor.session_end s = Raises e ->
                  RemoteExecutor.results World fr !! RemoteExecutor.ip node
                  = Some (RemoteExecutor.Failed 1 (str e)))
           /\ (forall out e,
                  RemoteExecutor.session_end s = Returns out ->
                  (decode (RemoteExecutor.stdout_bytes out) = Raises e
                   \/ (returns (decode (RemoteExecutor.stdout_bytes out)) = true
                       /\ decode (RemoteExecutor.stderr_bytes out) = Raises e)) ->
                  RemoteExecutor.results World fr !! RemoteExecutor.ip node
                  = Some (RemoteExecutor.Failed 1 (str e)))
           /\ (forall out so se,
                  RemoteExecutor.session_end s = Returns out ->
                  decode (RemoteExecutor.stdout_bytes out) = Returns so ->
                  decode (RemoteExecutor.stderr_bytes out) = Returns se ->
                  RemoteExecutor.results World fr !! RemoteExecutor.ip node
                  = Some (RemoteExecutor.Completed
                            (RemoteExecutor.return_code out) so se)).
Proof.
  intros Hne Hnd. unfold RemoteExecutor.execute.
  assert (RemoteExecutor.py_or (Some targets) (RemoteExecutor.nodes self) = targets)
    as -> by (destruct targets; [contradiction | reflexivity]).
  destruct (execute_nodes_returns World shell_run decode self
              (RemoteExecutor.PREFIX ++ [cmd])%list targets
              (RemoteExecutor.Frame World ∅ [] w))
    as (new & w' & Heq & Hch & Hpar & Hcmd).
  simpl in *. eexists. split; [exact Heq|]. simpl.
  pose proof (hostnames_of_targets self targets new Hpar) as Hhosts.
  assert (length new = length targets) as Hlen.
  { rewrite <- (length_map RemoteExecutor.session_params new), Hpar.
    apply length_map. }
  split; [|split; [exact Hlen | split; [exact Hch|]]].
  - rewrite record_entries_size.
    + rewrite map_size_empty. simpl. exact Hlen.
    + now rewrite Hhosts.
    + intros k _. apply lookup_empty.
  - intros i node Hi.
    destruct (lookup_lt_is_Some_2 new i) as [s Hs].
    { rewrite Hlen. now apply lookup_lt_Some in Hi. }
    assert (RemoteExecutor.session_params s = RemoteExecutor.shell_params self node)
      as Hp.
    { pose proof (f_equal (fun l => l !! i) Hpar) as Hpi. simpl in Hpi.
      rewrite !list_lookup_fmap, Hs, Hi in Hpi. simpl in Hpi. congruence. }
    assert (RemoteExecutor.results World
              (RemoteExecutor.Frame World
                 (foldl (RemoteExecutor.record_entry decode) ∅ new) new w')
            !! RemoteExecutor.ip node = Some (RemoteExecutor.entry_of decode s))
      as Hlook.
    { simpl.
      replace (RemoteExecutor.ip node)
        with (RemoteExecutor.hostname (RemoteExecutor.session_params s))
        by (now rewrite Hp).
      apply (record_entries_lookup decode new ∅ i s); [|exact Hs].
      now rewrite Hhosts. }
    exists s. split; [exact Hs|]. split; [exact Hp|]. split.
    { rewrite Forall_forall in Hcmd. apply Hcmd.
      eapply list_elem_of_lookup_2; eauto. }
    simpl in Hlook. rewrite Hlook. unfold RemoteExecutor.entry_of.
    split; [|split].
    + intros e ->. reflexivity.
    + intros out e -> [Hso|[Hso Hse]].
      * now rewrite Hso.
      * destruct (decode (RemoteExecutor.stdout_bytes out)); [|discriminate].
        now rewrite Hse.
    + intros out so se -> Hso Hse. now rewrite Hso, Hse.
Qed.


Lemma execute_one_entry_per_address_witness :
  exists fr,
    RemoteExecutor.execute nat Examples.shell_run Examples.decode Examples.plain
      "uptime" (Some [Examples.alpha; Examples.beta]) 0%nat = Returns fr
    /\ size (RemoteExecutor.results nat fr) = 2%nat
    /\ RemoteExecutor.results nat fr !! "10.0.0.1"
       = Some (RemoteExecutor.Completed 0 EmptyString EmptyString)
    /\ RemoteExecutor.results nat fr !! "10.0.0.2"
       = Some (RemoteExecutor.Failed 1 "connection refused").
Proof.
  destruct (execute_one_entry_per_address nat Examples.shell_run Examples.decode
              Examples.plain "uptime" [Examples.alpha; Examples.beta] 0%nat)
    as (fr & Heq & Hsize & _ & _ & Hper).
  - discriminate.
  - apply (bool_decide_unpack _). vm_compute. exact I.
  - exists fr. split; [exact Heq|]. split; [exact Hsize|].
    destruct (Hper 0%nat Examples.alpha eq_refl) as (s0 & Hs0 & _ & _ & _ & _ & H0).
    destruct (Hper 1%nat Examples.beta eq_refl) as (s1 & Hs1 & _ & _ & H1 & _).
    vm_compute in Heq. injection Heq as <-.
    injection Hs0 as <-. injection Hs1 as <-.
    split.
    + apply (H0 _ EmptyString EmptyString eq_refl eq_refl eq_refl).
    + apply (H1 _ eq_refl).
Defined.

(** Two targets that share an address leave one entry, not two; and an
    executor constructed with a node answers an empty sequence of targets
    with one entry, not none. *)
Lemma execute_entry_per_target_counterexample :
  (exists fr,
      RemoteExecutor.execute nat Examples.shell_run Examples.decode
        Examples.plain "uptime" (Some [Examples.alpha; Examples.gamma]) 0%nat
      = Returns fr
      /\ size (RemoteExecutor.results nat fr) = 1%nat
      /\ length [Examples.alpha; Examples.gamma] = 2%nat)
  /\ (exists fr,
        RemoteExecutor.execute nat Examples.shell_run Examples.decode
          Examples.preset "uptime" (Some []) 0%nat
        = Returns fr
        /\ size (RemoteExecutor.results nat fr) = 1%nat
        /\ length (@nil RemoteExecutor.Node) = 0%nat).
Proof.
  split; eexists; (split; [vm_compute; reflexivity|]); split; reflexivity.
Qed.

(** C3, amended.  Given an empty sequence of targets, [execute] does what
    it does given none: it runs the command on the executor's own nodes.
    On an executor whose own list of nodes is empty (it was constructed
    with no nodes) this is a no-op: it returns the empty mapping, opens no
    session and leaves the world as it was. *)
Theorem execute_no_targets_no_op
    (World : Type)
    (shell_run : RemoteExecutor.params -> list string -> World ->
                 outcome RemoteExecutor.output * World)
    (decode : list Byte.byte -> outcome string)
    (self : RemoteExecutor.t) (cmd : string) (w : World) :
  RemoteExecutor.execute World shell_run decode self cmd (Some []) w
  = RemoteExecutor.execute World shell_run decode self cmd None w
  /\ RemoteExecutor.execute World shell_run decode self cmd (Some []) w
     = RemoteExecutor.execute World shell_run decode self cmd
         (Some (RemoteExecutor.nodes self)) w
  /\ (RemoteExecutor.nodes self = [] ->
      RemoteExecutor.execute World shell_run decode self cmd (Some []) w
      = Returns (RemoteExecutor.Frame World ∅ [] w)).
Proof.
  unfold RemoteExecutor.execute. simpl. split; [reflexivity|]. split.
  - now destruct (RemoteExecutor.nodes self).
  - intros ->. reflexivity.
Qed.

Lemma execute_no_targets_no_op_witness :
  RemoteExecutor.execute nat Examples.shell_run Examples.decode Examples.plain
    "uptime" (Some []) 0%nat
  = Returns (RemoteExecutor.Frame nat ∅ [] 0%nat).
Proof.
  apply (proj2 (proj2 (execute_no_targets_no_op nat Examples.shell_run
                         Examples.decode Examples.plain "uptime" 0%nat))).
  reflexivity.
Defined.

(** An executor constructed with a node runs the command on that node when
    it is given an empty sequence of targets. *)
Lemma execute_no_targets_counterexample :
  exists fr,
    RemoteExecutor.execute nat Examples.shell_run Examples.decode Examples.preset
      "uptime" (Some []) 0%nat = Returns fr
    /\ RemoteExecutor.results nat fr
       = {[ "10.0.0.1" := RemoteExecutor.Completed 0 EmptyString EmptyString ]}
    /\ length (RemoteExecutor.sessions nat fr) = 1%nat
    /\ RemoteExecutor.world nat fr = 1%nat
    /\ fr <> RemoteExecutor.Frame nat ∅ [] 0%nat.
Proof.
  eexists. split; [vm_compute; reflexivity|].
  repeat split. discriminate.
Qed.

(** ** The schema validator *)

Section ValidatorFacts.

Import PolicyRunner.

Lemma oand_true (a b : option bool) :
  oand a b = Some true <-> a = Some true /\ b = Some true.
Proof.
  destruct a as [[]|], b as [[]|]; simpl; intuition congruence.
Qed.

Lemma oall_true {A : Type} (f : A -> option bool) (l : list A) :
  oall f l = Some true <-> forall x, In x l -> f x = Some true.
Proof.
  induction l as [|x l IH]; simpl.
  - intuition.
  - rewrite oand_true, IH. split.
    + intros [Hx Hl] y [<-|Hy]; auto.
    + intros H. split; auto.
Qed.

Lemma has_key_get (k : string) (fields : list (string * json)) :
  has_key k fields = true <-> exists v, get k fields = Some v.
Proof.
  unfold has_key. destruct (get k fields); split; eauto; try discriminate.
  intros [v Hv]. discriminate Hv.
Qed.

Lemma get_In (k : string) (fields : list (string * json)) (v : json) :
  get k fields = Some v -> In (k, v) fields.
Proof.
  induction fields as [|[k' v'] rest IH]; simpl; [discriminate|].
  destruct (String.eqb_spec k' k) as [->|_].
  - intros [= ->]. now left.
  - intros H. right. auto.
Qed.

Lemma has_key_In (k : string) (fields : list (string * json)) :
  has_key k fields = true <-> In k (map fst fields).
Proof.
  unfold has_key. induction fields as [|[k' v'] rest IH]; simpl.
  - intuition discriminate.
  - destruct (String.eqb_spec k' k) as [->|Hne]; [intuition|].
    rewrite IH. intuition congruence.
Qed.

Lemma oall_ext_in {A : Type} (f g : A -> option bool) (l : list A) :
  (forall x, In x l -> f x = g x) -> oall f l = oall g l.
Proof.
  induction l as [|x l IH]; intros H; simpl; [reflexivity|].
  rewrite (H x (or_introl eq_refl)), IH; [reflexivity|].
  intros y Hy. apply H. now right.
Qed.

(** A schema that does not set [additionalProperties] does not see a key
    that it does not name. *)
Lemma unnamed_key_unseen (root : json) (fuel fuel' : nat) (schema : json)
    (kw props : list (string * json)) (k : string) (v : json)
    (fields : list (string * json)) :
  fuel = S fuel' ->
  schema = JObj kw ->
  get "$ref" kw = None ->
  get "additionalProperties" kw = None ->
  get "required" kw = None ->
  get "enum" kw = None ->
  get "oneOf" kw = None ->
  schema_properties kw = Some props ->
  ~ In k (map fst props) ->
  is_valid root fuel schema (JObj ((k, v) :: fields))
  = is_valid root fuel schema (JObj fields).
Proof.
  intros -> -> Hnoref Hadd Hreq Henum Hone Hprops Hk. simpl.
  rewrite Hnoref.
  assert (check_type kw (JObj ((k, v) :: fields)) = check_type kw (JObj fields))
    as -> by reflexivity.
  unfold check_enum, check_required, check_additionalProperties, check_oneOf,
    check_items, check_properties.
  rewrite Henum, Hreq, Hadd, Hone, Hprops.
  do 5 f_equal. f_equal.
  apply oall_ext_in. intros [p sub] Hin. simpl.
  destruct (String.eqb_spec k p) as [->|_]; [|reflexivity].
  exfalso. apply Hk. change p with (fst (p, sub)). now apply in_map.
Qed.

Variable root : json.
Variables fuel fuel' : nat.
Variable schema : json.
Variable kw : list (string * json).
Variable instance : json.

Hypothesis Hfuel : fuel = S fuel'.
Hypothesis Hschema : schema = JObj kw.
Hypothesis Hvalid : is_valid root fuel schema instance = Some true.

(** A schema that is a reference is the schema it refers to. *)
Lemma valid_ref (ref : string) (target : json) :
  get "$ref" kw = Some (JStr ref) ->
  resolve root ref = Some target ->
  is_valid root fuel' target instance = Some true.
Proof.
  intros Href Hres. pose proof Hvalid as H. rewrite Hfuel, Hschema in H.
  simpl in H. rewrite Href in H. simpl in H. rewrite Hres in H. exact H.
Qed.

Hypothesis Hnoref : get "$ref" kw = None.

Lemma valid_keywords :
  check_type kw instance = Some true
  /\ check_enum kw instance = Some true
  /\ check_required kw instance = Some true
  /\ check_additionalProperties kw instance = Some true
  /\ check_properties (is_valid root fuel') kw instance = Some true
  /\ check_items (is_valid root fuel') kw instance = Some true
  /\ check_oneOf (is_valid root fuel') kw instance = Some true.
Proof.
  pose proof Hvalid as H. rewrite Hfuel, Hschema in H.
  simpl in H. rewrite Hnoref in H.
  repeat (apply oand_true in H; destruct H as [? H]).
  repeat split; assumption.
Qed.

Lemma valid_type (name : string) :
  get "type" kw = Some (JStr name) -> is_type name instance = Some true.
Proof.
  intros Ht. destruct valid_keywords as (H & _).
  unfold check_type in H. now rewrite Ht in H.
Qed.

Lemma valid_object :
  get "type" kw = Some (JStr "object") -> exists fields, instance = JObj fields.
Proof.
  intros Ht. apply valid_type in Ht. destruct instance; try discriminate Ht.
  eauto.
Qed.

Lemma valid_array :
  get "type" kw = Some (JStr "array") -> exists items, instance = JArr items.
Proof.
  intros Ht. apply valid_type in Ht. destruct instance; try discriminate Ht.
  eauto.
Qed.

Lemma valid_number :
  get "type" kw = Some (JStr "number") -> exists q, instance = JNum q.
Proof.
  intros Ht. apply valid_type in Ht. destruct instance; try discriminate Ht.
  eauto.
Qed.

Lemma valid_required (names : list json) (k : string)
    (fields : list (string * json)) :
  get "required" kw = Some (JArr names) ->
  In (JStr k) names ->
  instance = JObj fields ->
  has_key k fields = true.
Proof.
  intros Hreq Hk Hobj. destruct valid_keywords as (_ & _ & H & _).
  unfold check_required in H. rewrite Hreq, Hobj in H.
  destruct (forallb _ names); [|discriminate].
  injection H as H. rewrite forallb_forall in H. exact (H _ Hk).
Qed.

Lemma valid_closed (props fields : list (string * json)) (k : string) :
  get "additionalProperties" kw = Some (JBool false) ->
  schema_properties kw = Some props ->
  instance = JObj fields ->
  In k (map fst fields) ->
  has_key k props = true.
Proof.
  intros Hadd Hprops Hobj Hk. destruct valid_keywords as (_ & _ & _ & H & _).
  unfold check_additionalProperties in H. rewrite Hadd, Hprops, Hobj in H.
  injection H as H. simpl in H. rewrite forallb_forall in H. exact (H _ Hk).
Qed.

Lemma valid_property (props fields : list (string * json)) (k : string)
    (sub v : json) :
  schema_properties kw = Some props ->
  In (k, sub) props ->
  instance = JObj fields ->
  get k fields = Some v ->
  is_valid root fuel' sub v = Some true.
Proof.
  intros Hprops Hin Hobj Hget.
  destruct valid_keywords as (_ & _ & _ & _ & H & _).
  unfold check_properties in H. rewrite Hprops, Hobj in H.
  rewrite oall_true in H. specialize (H _ Hin). simpl in H.
  now rewrite Hget in H.
Qed.

Lemma valid_item (sub : list (string * json)) (items : list json) (e : json) :
  get "items" kw = Some (JObj sub) ->
  instance = JArr items ->
  In e items ->
  is_valid root fuel' (JObj sub) e = Some true.
Proof.
  intros Hitems Harr He.
  destruct valid_keywords as (_ & _ & _ & _ & _ & H & _).
  unfold check_items in H. rewrite Hitems, Harr in H.
  rewrite oall_true in H. auto.
Qed.

End ValidatorFacts.

(** ** Fuel *)

Section FuelFacts.

Variable root : json.

Lemma oall_mono {A : Type} (f g : A -> option bool) (l : list A) (b : bool) :
  (forall x y, f x = Some y -> g x = Some y) ->
  oall f l = Some b -> oall g l = Some b.
Proof.
  intros Hfg. revert b. induction l as [|x l IH]; intros b; simpl; [auto|].
  destruct (f x) as [y|] eqn:Hx; [|discriminate].
  destruct (oall f l) as [z|]; [|destruct y; discriminate].
  rewrite (Hfg _ _ Hx), (IH z eq_refl). auto.
Qed.

Lemma ocount_mono {A : Type} (f g : A -> option bool) (l : list A) (n : nat) :
  (forall x y, f x = Some y -> g x = Some y) ->
  ocount f l = Some n -> ocount g l = Some n.
Proof.
  intros Hfg. revert n. induction l as [|x l IH]; intros n; simpl; [auto|].
  destruct (f x) as [y|] eqn:Hx; [|discriminate].
  destruct (ocount f l) as [m|]; [|discriminate].
  rewrite (Hfg _ _ Hx), (IH m eq_refl). auto.
Qed.

(** A verdict does not change when more fuel is given. *)
Lemma is_valid_more_fuel (fuel : nat) :
  forall (schema instance : json) (b : bool),
    is_valid root fuel schema instance = Some b ->
    is_valid root (S fuel) schema instance = Some b.
Proof.
  induction fuel as [|fuel IH]; intros schema instance b H; [discriminate H|].
  remember (S fuel) as f eqn:Hf. rewrite Hf in H at 1.
  simpl in H. simpl.
  destruct schema as [| | | | |kw]; try discriminate H.
  destruct (get "$ref" kw) as [[| | |ref| |]|]; try discriminate H.
  - simpl in *. destruct (resolve root ref) as [target|]; [|discriminate H].
    simpl in *. auto.
  - destruct (known_keywords kw) as [b0|]; [|discriminate H].
    destruct (check_type kw instance) as [b1|]; [|discriminate H].
    destruct (check_enum kw instance) as [b2|]; [|discriminate H].
    destruct (check_required kw instance) as [b3|]; [|discriminate H].
    destruct (check_additionalProperties kw instance) as [b4|]; [|discriminate H].
    destruct (check_properties (is_valid root fuel) kw instance) as [b5|] eqn:H5;
      [|discriminate H].
    destruct (check_items (is_valid root fuel) kw instance) as [b6|] eqn:H6;
      [|discriminate H].
    destruct (check_oneOf (is_valid root fuel) kw instance) as [b7|] eqn:H7;
      [|discriminate H].
    assert (check_properties (is_valid root f) kw instance = Some b5) as ->.
    { unfold check_properties in *.
      destruct (schema_properties kw) as [props|]; [|discriminate H5].
      revert H5. apply oall_mono. intros [p sub] y.
      destruct instance as [| | | | |fields]; try (intros H'; exact H').
      destruct (get p fields) as [v|]; [|intros H'; exact H'].
      apply IH. }
    assert (check_items (is_valid root f) kw instance = Some b6) as ->.
    { unfold check_items in *.
      destruct (get "items" kw) as [[| | | | |sub]|];
        try discriminate H6; try exact H6.
      destruct instance as [| | | |elements|]; try exact H6.
      revert H6. apply oall_mono. intros x y. apply IH. }
    assert (check_oneOf (is_valid root f) kw instance = Some b7) as ->.
    { unfold check_oneOf in *.
      destruct (get "oneOf" kw) as [[| | | |subs|]|];
        try discriminate H7; try exact H7.
      destruct (ocount (fun sub => is_valid root fuel sub instance) subs)
        as [n|] eqn:Hn; [|discriminate H7].
      rewrite (ocount_mono (fun sub => is_valid root fuel sub instance)
                 (fun sub => is_valid root f sub instance) subs n);
        [exact H7 | | exact Hn].
      intros x y. apply IH. }
    exact H.
Qed.

Lemma is_valid_enough_fuel (fuel extra : nat) (schema instance : json) (b : bool) :
  is_valid root fuel schema instance = Some b ->
  is_valid root (extra + fuel) schema instance = Some b.
Proof.
  intros H. induction extra as [|extra IH]; [exact H|].
  now apply is_valid_more_fuel.
Qed.

End FuelFacts.

(** ** The policy schema *)

Section Coverage.

Import PolicyRunner.

Lemma is_type_defined (name : string) (i j : json) :
  defined (is_type name i) = true -> defined (is_type name j) = true.
Proof.
  unfold is_type.
  repeat match goal with
         | |- context [String.eqb ?a ?b] => destruct (String.eqb a b)
         end; auto.
Qed.

Lemma oany_defined {A : Type} (f g : A -> option bool) (l : list A) :
  (forall x, defined (f x) = true -> defined (g x) = true) ->
  defined (oany f l) = true -> defined (oany g l) = true.
Proof.
  intros Hfg. induction l as [|x l IH]; simpl; [auto|].
  specialize (Hfg x).
  destruct (f x); [|discriminate]. destruct (oany f l); [|discriminate].
  intros _. destruct (g x); [|now specialize (Hfg eq_refl)].
  destruct (oany g l); [reflexivity | now specialize (IH eq_refl)].
Qed.

Lemma check_type_defined (kw : list (string * json)) (i j : json) :
  defined (check_type kw i) = true -> defined (check_type kw j) = true.
Proof.
  unfold check_type. destruct (get "type" kw) as [[]|]; auto.
  - apply is_type_defined.
  - apply oany_defined. intros [] ; auto. apply is_type_defined.
Qed.

Lemma check_enum_defined (kw : list (string * json)) (i j : json) :
  defined (check_enum kw i) = true -> defined (check_enum kw j) = true.
Proof.
  unfold check_enum. destruct (get "enum" kw) as [[]|]; auto.
  destruct (forallb _ items); auto.
Qed.

Lemma check_required_defined (kw : list (string * json)) (i j : json) :
  defined (check_required kw i) = true -> defined (check_required kw j) = true.
Proof.
  unfold check_required. destruct (get "required" kw) as [[]|]; auto.
  destruct (forallb _ items); auto.
Qed.

Lemma check_additionalProperties_defined (kw : list (string * json))
    (i j : json) :
  defined (check_additionalProperties kw i) = true ->
  defined (check_additionalProperties kw j) = true.
Proof.
  unfold check_additionalProperties.
  destruct (get "additionalProperties" kw) as [[]|]; auto.
  destruct (schema_properties kw); auto.
Qed.

Lemma oand_defined (a b : option bool) :
  defined (oand a b) = defined a && defined b.
Proof. destruct a, b; reflexivity. Qed.

Lemma oall_defined {A : Type} (f : A -> option bool) (l : list A) :
  (forall x, In x l -> defined (f x) = true) -> defined (oall f l) = true.
Proof.
  induction l as [|x l IH]; simpl; [reflexivity|]. intros H.
  rewrite oand_defined, H, IH; auto.
Qed.

Lemma ocount_defined {A : Type} (f : A -> option bool) (l : list A) :
  (forall x, In x l -> defined (f x) = true) -> defined (ocount f l) = true.
Proof.
  induction l as [|x l IH]; simpl; [reflexivity|]. intros H.
  pose proof (H x (or_introl eq_refl)) as Hx.
  destruct (f x); [|discriminate].
  destruct (ocount f l); [reflexivity|]. apply IH. auto.
Qed.

(** A covered schema decides every instance. *)
Lemma covered_decides (root : json) (fuel : nat) :
  forall schema instance : json,
    covered root fuel schema = true ->
    defined (is_valid root fuel schema instance) = true.
Proof.
  induction fuel as [|fuel IH]; intros schema instance Hc; [discriminate Hc|].
  simpl in Hc. destruct schema as [| | | | |kw]; try discriminate Hc. simpl.
  destruct (get "$ref" kw) as [[| | |ref| |]|]; try discriminate Hc.
  - simpl. destruct (resolve root ref) as [target|]; [|discriminate Hc].
    simpl. auto.
  - repeat (apply andb_prop in Hc; destruct Hc as [Hc ?]).
    rewrite !oand_defined.
    repeat (apply andb_true_intro; split); auto.
    + now apply (check_type_defined kw JNull).
    + now apply (check_enum_defined kw JNull).
    + now apply (check_required_defined kw JNull).
    + now apply (check_additionalProperties_defined kw JNull).
    + unfold check_properties.
      destruct (schema_properties kw) as [props|]; [|discriminate].
      apply oall_defined. intros [property subschema] Hin.
      match goal with
      | H : forallb _ props = true |- _ => rewrite forallb_forall in H;
          specialize (H _ Hin); simpl in H
      end.
      destruct instance; auto.
      destruct (get property fields); auto.
    + unfold check_items.
      destruct (get "items" kw) as [[| | | | |sub]|]; try discriminate; auto.
      destruct instance; auto. apply oall_defined. auto.
    + unfold check_oneOf.
      destruct (get "oneOf" kw) as [[| | | |subs|]|]; try discriminate; auto.
      match goal with
      | H : forallb _ subs = true |- _ => rewrite forallb_forall in H
      end.
      assert (defined (ocount (fun sub => is_valid root fuel sub instance) subs)
              = true) as Hn by (apply ocount_defined; auto).
      destruct (ocount _ subs); [reflexivity | discriminate Hn].
Qed.

Lemma validate_unfold (policy : json) :
  validate policy = is_valid get_schema depth get_schema policy.
Proof. exact (eq_refl (is_valid get_schema depth get_schema policy)). Qed.

(** The validation of a policy always comes to a verdict. *)
Lemma validate_decides (policy : json) :
  validate policy = Some true \/ validate policy = Some false.
Proof.
  assert (covered get_schema depth get_schema = true) as Hc
    by (vm_compute; reflexivity).
  pose proof (covered_decides _ _ _ policy Hc) as H.
  rewrite validate_unfold.
  destruct (is_valid get_schema depth get_schema policy) as [[]|];
    [now left | now right | discriminate H].
Qed.

(** The verdict is the one of every greater depth: the bound [depth] is
    not felt. *)
Lemma validate_any_depth (extra : nat) (policy : json) :
  is_valid get_schema (extra + depth) get_schema policy = validate policy.
Proof.
  destruct (validate_decides policy) as [H|H]; rewrite H;
    rewrite validate_unfold in H; apply is_valid_enough_fuel; exact H.
Qed.

End Coverage.

Section SchemaFacts.

Local Ltac by_schema := vm_compute; reflexivity.

Lemma validate_file_unfold (policy : json) :
  validate_file policy =
    match validate policy with
    | Some true => Returns policy
    | Some false =>
        Raises (ValidationError "the policy does not match the schema")
    | None =>
        Raises (ValidationError "the schema is outside the modelled fragment")
    end.
Proof.
  exact (eq_refl
           match validate policy with
           | Some true => Returns policy
           | Some false =>
               Raises (ValidationError "the policy does not match the schema")
           | None =>
               Raises (ValidationError "the schema is outside the modelled fragment")
           end).
Qed.

Lemma validate_file_returns (policy : json) :
  returns (validate_file policy) = true <-> validate policy = Some true.
Proof.
  rewrite validate_file_unfold.
  destruct (validate policy) as [[]|]; simpl; intuition discriminate.
Qed.

Lemma validate_file_raises (policy : json) :
  returns (validate_file policy) = false <-> validate policy = Some false.
Proof.
  rewrite validate_file_unfold.
  destruct (validate_decides policy) as [H|H]; rewrite H; simpl;
    intuition discriminate.
Qed.

Lemma fuel_levels :
  exists f1 f2 f3 f4 f5 : nat,
    depth = S f1 /\ f1 = S f2 /\ f2 = S f3 /\ f3 = S f4 /\ f4 = S f5.
Proof. exists 15%nat, 14%nat, 13%nat, 12%nat, 11%nat. repeat split. Qed.

Lemma valid_policy_object (policy : json) :
  validate policy = Some true -> exists fields, policy = JObj fields.
Proof.
  intros H. rewrite validate_unfold in H.
  destruct fuel_levels as (f1 & _ & _ & _ & _ & Hf1 & _).
  eapply (valid_object get_schema depth f1 get_schema _ policy Hf1 eq_refl H);
    by_schema.
Qed.

(** The top level of the schema does not set [additionalProperties]: a key
    that it does not name changes nothing to the verdict. *)
Lemma unknown_top_level_key_unseen (k : string) (v : json)
    (fields : list (string * json)) :
  ~ In k ["config"; "nodeScenarios"; "podScenarios"] ->
  validate (JObj ((k, v) :: fields)) = validate (JObj fields).
Proof.
  intros Hk.
  rewrite (validate_unfold (JObj ((k, v) :: fields))),
    (validate_unfold (JObj fields)).
  destruct fuel_levels as (f1 & _ & _ & _ & _ & Hf1 & _).
  eapply (unnamed_key_unseen get_schema depth f1 get_schema _ _ k v fields Hf1
            eq_refl); try (vm_compute; reflexivity).
  exact Hk.
Qed.

Lemma valid_scenario_shape (f f' : nat) (def scenario : json) :
  f = S f' ->
  def = def_nodeScenario \/ def = def_podScenario ->
  is_valid get_schema f def scenario = Some true ->
  scenario_shape scenario.
Proof.
  intros Hf Hdef H.
  assert (exists kw, def = JObj kw /\ get "$ref" kw = None
            /\ get "type" kw = Some (JStr "object")
            /\ get "required" kw
               = Some (JArr [JStr "name"; JStr "match"; JStr "filters";
                             JStr "actions"])
            /\ get "additionalProperties" kw = Some (JBool false)
            /\ exists props, schema_properties kw = Some props
                 /\ map fst props
                    = ["name"; "description"; "match"; "filters"; "actions"])
    as (kw & Hkw & Hnoref & Htype & Hreq & Hadd & props & Hprops & Hnames).
  { destruct Hdef as [-> | ->]; eexists; (split; [reflexivity|]);
      repeat split; try by_schema; eexists; split; by_schema. }
  destruct (valid_object _ _ _ _ _ _ Hf Hkw H Hnoref Htype) as [fields ->].
  exists fields. split; [reflexivity|]. split.
  - intros k Hk.
    apply (valid_required _ _ _ _ _ _ Hf Hkw H Hnoref _ k fields Hreq);
      [|reflexivity].
    simpl in Hk. simpl. intuition (subst; auto).
  - intros k Hk. rewrite <- Hnames. apply has_key_In.
    exact (valid_closed _ _ _ _ _ _ Hf Hkw H Hnoref props fields k Hadd Hprops
             eq_refl Hk).
Qed.

Lemma valid_scenarios (fields : list (string * json)) (key : string) (v : json) :
  validate (JObj fields) = Some true ->
  key = "nodeScenarios" \/ key = "podScenarios" ->
  get key fields = Some v ->
  exists scenarios,
    v = JArr scenarios /\ forall e, In e scenarios -> scenario_shape e.
Proof.
  intros H Hkey Hget. rewrite validate_unfold in H.
  destruct fuel_levels as (f1 & f2 & f3 & f4 & f5 & Hf1 & Hf2 & Hf3 & Hf4 & Hf5).
  assert (exists sub def,
             is_valid get_schema f1
               (JObj [("type", JStr "array"); ("items", JObj sub)]) v = Some true
             /\ get "$ref" sub = Some (JStr def)
             /\ exists target, resolve get_schema def = Some target
                  /\ (target = def_nodeScenario \/ target = def_podScenario))
    as (sub & def & Hv & Href & target & Hres & Htarget).
  { destruct Hkey as [-> | ->]; do 2 eexists; (split; [|split]).
    - eapply (valid_property get_schema depth f1 get_schema _ _ Hf1 eq_refl H);
        [by_schema | by_schema | right; left; reflexivity | reflexivity
        | exact Hget].
    - by_schema.
    - eexists. split; [by_schema | left; reflexivity].
    - eapply (valid_property get_schema depth f1 get_schema _ _ Hf1 eq_refl H);
        [by_schema | by_schema | right; right; left; reflexivity | reflexivity
        | exact Hget].
    - by_schema.
    - eexists. split; [by_schema | right; reflexivity]. }
  destruct (valid_array _ _ _ _ _ _ Hf2 eq_refl Hv) as [scenarios ->];
    [reflexivity | reflexivity |].
  exists scenarios. split; [reflexivity|]. intros e He.
  pose proof (valid_item _ _ _ _ _ _ Hf2 eq_refl Hv eq_refl sub scenarios e
                eq_refl eq_refl He) as Hitem.
  pose proof (valid_ref _ _ _ _ _ _ Hf3 eq_refl Hitem def target Href Hres)
    as Hscenario.
  exact (valid_scenario_shape f3 f4 target e Hf4 Htarget Hscenario).
Qed.

Lemma valid_config (fields : list (string * json)) (config : json) :
  validate (JObj fields) = Some true ->
  get "config" fields = Some config ->
  config_shape config.
Proof.
  intros H Hget. rewrite validate_unfold in H.
  destruct fuel_levels as (f1 & f2 & f3 & f4 & f5 & Hf1 & Hf2 & Hf3 & Hf4 & Hf5).
  assert (is_valid get_schema f1
            (JObj [("type", JStr "object");
                   ("$ref", JStr "#/definitions/config")]) config = Some true)
    as Hc.
  { eapply (valid_property get_schema depth f1 get_schema _ _ Hf1 eq_refl H);
      [by_schema | by_schema | left; reflexivity | reflexivity | exact Hget]. }
  assert (is_valid get_schema f2 def_config config = Some true) as Hd.
  { eapply (valid_ref _ _ _ _ _ _ Hf2 eq_refl Hc); by_schema. }
  assert (get "$ref"
            [("type", JStr "object"); ("additionalProperties", JBool false);
             ("properties",
              JObj [("minSecondsBetweenRuns", JObj [("type", JStr "number")]);
                    ("maxSecondsBetweenRuns", JObj [("type", JStr "number")])]);
             ("required", JArr [JStr "minSecondsBetweenRuns"])] = None)
    as Hnoref by reflexivity.
  destruct (valid_object _ _ _ _ _ _ Hf3 eq_refl Hd Hnoref eq_refl)
    as [cf ->].
  pose proof (valid_required _ _ _ _ _ _ Hf3 eq_refl Hd Hnoref _
                "minSecondsBetweenRuns" cf eq_refl (or_introl eq_refl) eq_refl)
    as Hmin.
  apply has_key_get in Hmin. destruct Hmin as [vmin Hmin].
  assert (forall k v, In k ["minSecondsBetweenRuns"; "maxSecondsBetweenRuns"] ->
                      get k cf = Some v -> exists q, v = JNum q) as Hnum.
  { intros k v Hk Hv.
    assert (is_valid get_schema f3 (JObj [("type", JStr "number")]) v = Some true)
      as Hn.
    { eapply (valid_property _ _ _ _ _ _ Hf3 eq_refl Hd Hnoref _ cf k);
        [reflexivity | | reflexivity | exact Hv].
      simpl in Hk. simpl. intuition (subst; auto). }
    eapply (valid_number _ _ _ _ _ _ Hf4 eq_refl Hn); reflexivity. }
  destruct (Hnum _ _ (or_introl eq_refl) Hmin) as [q ->].
  exists cf, q. split; [reflexivity|]. split; [exact Hmin|]. split.
  - intros v Hv. apply (Hnum "maxSecondsBetweenRuns"); simpl; auto.
  - intros k Hk.
    pose proof (valid_closed _ _ _ _ _ _ Hf3 eq_refl Hd Hnoref _ cf k eq_refl
                  eq_refl eq_refl Hk) as Hclosed.
    apply has_key_In in Hclosed. exact Hclosed.
Qed.

End SchemaFacts.

(** C7.  In a policy that passes validation every node scenario and every
    pod scenario is an object with the fields name, match, filters and
    actions; a policy with a scenario that lacks one of the four is
    rejected; and a scenario whose filters and actions are empty sequences
    passes. *)
Theorem scenario_required_fields :
  (forall (policy : json) (key : string) (scenario : json),
      returns (validate_file policy) = true ->
      key = "nodeScenarios" \/ key = "podScenarios" ->
      In scenario (scenarios_of key policy) ->
      exists fields,
        scenario = JObj fields
        /\ forall k, In k ["name"; "match"; "filters"; "actions"] ->
                     has_key k fields = true)
  /\ (forall (policy : json) (key : string) (fields : list (string * json))
        (k : string),
        key = "nodeScenarios" \/ key = "podScenarios" ->
        In (JObj fields) (scenarios_of key policy) ->
        In k ["name"; "match"; "filters"; "actions"] ->
        has_key k fields = false ->
        returns (validate_file policy) = false)
  /\ (forall name : string,
        validate_file (Examples.bare_node_policy name)
        = Returns (Examples.bare_node_policy name)
        /\ validate_file (Examples.bare_pod_policy name)
           = Returns (Examples.bare_pod_policy name)).
Proof.
  assert (forall (policy : json) (key : string) (scenario : json),
             validate policy = Some true ->
             key = "nodeScenarios" \/ key = "podScenarios" ->
             In scenario (scenarios_of key policy) ->
             exists fields,
               scenario = JObj fields
               /\ forall k, In k ["name"; "match"; "filters"; "actions"] ->
                            has_key k fields = true) as Hshape.
  { intros policy key scenario Hvalid Hkey Hin.
    destruct (valid_policy_object policy Hvalid) as [fields ->].
    unfold scenarios_of in Hin.
    destruct (get key fields) as [v|] eqn:Hget; [|contradiction].
    destruct (valid_scenarios fields key v Hvalid Hkey Hget)
      as (scenarios & -> & Hall).
    destruct (Hall scenario Hin) as (sf & -> & Hreq & _). eauto. }
  split; [|split].
  - intros policy key scenario Hret. apply Hshape.
    now apply validate_file_returns.
  - intros policy key fields k Hkey Hin Hk Hmissing.
    apply validate_file_raises.
    destruct (validate_decides policy) as [Hvalid|Hinvalid]; [|exact Hinvalid].
    destruct (Hshape policy key (JObj fields) Hvalid Hkey Hin)
      as (fields' & [= <-] & Hreq).
    rewrite (Hreq k Hk) in Hmissing. discriminate Hmissing.
  - intros name. split; vm_compute; reflexivity.
Qed.

Lemma scenario_required_fields_witness :
  exists fields,
    JObj [("name", JStr "drain"); ("match", JArr []); ("filters", JArr []);
          ("actions", JArr [])] = JObj fields
    /\ forall k, In k ["name"; "match"; "filters"; "actions"] ->
                 has_key k fields = true.
Proof.
  apply (proj1 scenario_required_fields
           (JObj [("nodeScenarios",
                   JArr [JObj [("name", JStr "drain"); ("match", JArr []);
                               ("filters", JArr []); ("actions", JArr [])]])])
           "nodeScenarios").
  - vm_compute. reflexivity.
  - left. reflexivity.
  - left. reflexivity.
Defined.

(** C2.  A document with a key that the schema does not name at its top
    level passes validation, while the same slip inside [config] or inside
    a scenario is refused. *)
Theorem validate_file_accepts_unknown_top_level_key :
  let policy :=
    JObj [("config", JObj [("minSecondsBetweenRuns", JNum 1)]);
          ("nodeScenarioz", JArr [JObj [("name", JStr "typo")]])] in
  validate_file policy = Returns policy
  /\ returns (validate_file
                (JObj [("config", JObj [("minSecondsBetweenRuns", JNum 1);
                                        ("maxSecondBetweenRuns", JNum 5)])]))
     = false
  /\ returns (validate_file
                (JObj [("nodeScenarios",
                        JArr [JObj [("name", JStr "drain"); ("match", JArr []);
                                    ("filters", JArr []); ("actions", JArr []);
                                    ("action", JArr [])]])]))
     = false.
Proof.
  repeat split; vm_compute; reflexivity.
Qed.

(** ** Arithmetic of the sleep time *)

Section SleepFacts.

Local Open Scope Q_scope.

Lemma int_floor (x : Q) : 0 <= x -> int x = Qfloor x.
Proof.
  destruct x as [n d]. unfold int, Qfloor, Qle. simpl. intros H.
  apply Z.quot_div_nonneg; lia.
Qed.

Lemma int_opp (x : Q) : int (- x) = (- int x)%Z.
Proof.
  destruct x as [n d]. unfold int. simpl. apply Z.quot_opp_l. lia.
Qed.

Lemma int_truncates_nonneg (x : Q) :
  0 <= x -> inject_Z (int x) <= x /\ x < inject_Z (int x) + 1.
Proof.
  intros H. rewrite (int_floor x H). split.
  - apply Qfloor_le.
  - pose proof (Qlt_floor x) as Hlt. rewrite inject_Z_plus in Hlt. exact Hlt.
Qed.

Lemma int_truncates_nonpos (x : Q) :
  x <= 0 -> x <= inject_Z (int x) /\ inject_Z (int x) - 1 < x.
Proof.
  intros H.
  destruct (int_truncates_nonneg (- x)) as [H1 H2]; [lra|].
  rewrite int_opp, inject_Z_opp in H1, H2. split; lra.
Qed.

Lemma int_nonneg (x : Q) : 0 <= x -> (0 <= int x)%Z.
Proof.
  intros H. rewrite (int_floor x H).
  change 0%Z with (Qfloor 0). now apply Qfloor_resp_le.
Qed.

Lemma int_below (x : Q) :
  0 <= x -> (forall z : Z, ~ x == inject_Z z) -> inject_Z (int x) < x.
Proof.
  intros H Hni. destruct (int_truncates_nonneg x H) as [Hle _].
  apply Qle_lteq in Hle. destruct Hle as [Hlt|Heq]; [exact Hlt|].
  exfalso. apply (Hni (int x)). now symmetry.
Qed.

Lemma int_monotone (x y : Q) : 0 <= x -> x <= y -> (int x <= int y)%Z.
Proof.
  intros Hx Hxy. rewrite (int_floor x Hx), (int_floor y) by lra.
  now apply Qfloor_resp_le.
Qed.

(** Truncation never goes beyond a whole number on the far side of
    zero. *)
Lemma int_at_most (x : Q) (n : Z) : 0 <= x -> x <= inject_Z n -> (int x <= n)%Z.
Proof.
  intros H0 Hx. destruct (int_truncates_nonneg x H0) as [Hle _].
  rewrite Zle_Qle. lra.
Qed.

Lemma int_at_least (x : Q) (n : Z) : x <= 0 -> inject_Z n <= x -> (n <= int x)%Z.
Proof.
  intros H0 Hx. destruct (int_truncates_nonpos x H0) as [Hle _].
  rewrite Zle_Qle. lra.
Qed.

Lemma int_negative (x : Q) : x <= -1 -> (int x < 0)%Z.
Proof.
  intros Hx.
  destruct (int_truncates_nonpos x) as [_ H]; [lra|].
  assert (inject_Z (int x) < inject_Z 0) as Hlt.
  { change (inject_Z 0) with 0. lra. }
  now rewrite <- Zlt_Qlt in Hlt.
Qed.

(** Truncation towards zero never goes below a bound that is not positive. *)
Lemma int_not_below (a x : Q) :
  a <= 0 -> a <= x -> a <= inject_Z (int x).
Proof.
  intros Ha Hx. destruct (Qlt_le_dec x 0) as [Hneg|Hpos].
  - destruct (int_truncates_nonpos x) as [H _]; lra.
  - pose proof (int_nonneg x Hpos) as H.
    assert (0 <= inject_Z (int x)).
    { change 0 with (inject_Z 0). now rewrite <- Zle_Qle. }
    lra.
Qed.

(** A number between two bounds that are not negative is not negative,
    and is at most a whole number that both bounds are at most. *)
Lemma between_nonneg (a b x : Q) : 0 <= a -> 0 <= b -> between a b x -> 0 <= x.
Proof. intros Ha Hb [[H1 H2]|[H1 H2]]; lra. Qed.

Lemma between_at_most (a b x c : Q) :
  a <= c -> b <= c -> between a b x -> x <= c.
Proof. intros Ha Hb [[H1 H2]|[H1 H2]]; lra. Qed.

Lemma between_at_least (a b x c : Q) :
  c <= a -> c <= b -> between a b x -> c <= x.
Proof. intros Ha Hb [[H1 H2]|[H1 H2]]; lra. Qed.

End SleepFacts.

(** ** The scheduling loop *)

Section ExecuteFacts.

Context {T : Type}.
Variable execute : T -> state -> outcome unit.
Variable executed : T -> event.

Lemma execute_all_returns (l : list T) :
  (forall x st, execute x st = Returns tt) ->
  forall st,
    execute_all execute executed l st
    = (Returns tt, State (trace st ++ map executed l) (draws st)).
Proof.
  intros Hex. induction l as [|x l IH]; intros st; simpl.
  - rewrite app_nil_r. now destruct st.
  - rewrite Hex, IH. simpl. now rewrite <- app_assoc.
Qed.

(** The scenarios executed are the first ones of the list, all of them
    when no call raises. *)
Lemma execute_all_inv (l : list T) :
  forall (st : state) (r : outcome unit) (st' : state),
    execute_all execute executed l st = (r, st') ->
    exists done rest,
      l = done ++ rest
      /\ st' = State (trace st ++ map executed done) (draws st)
      /\ (returns r = true -> rest = []).
Proof.
  induction l as [|x l IH]; intros st r st' H; simpl in H.
  - injection H as <- <-. exists [], []. simpl. rewrite app_nil_r.
    split; [reflexivity|]. split; [now destruct st | reflexivity].
  - destruct (execute x st) as [[]|e] eqn:Hx.
    + destruct (IH _ _ _ H) as (done & rest & -> & -> & Hr).
      exists (x :: done), rest. simpl. rewrite <- app_assoc.
      split; [reflexivity|]. split; [reflexivity | exact Hr].
    + injection H as <- <-. exists [], (x :: l). simpl. rewrite app_nil_r.
      split; [reflexivity|]. split; [now destruct st | discriminate].
Qed.

End ExecuteFacts.

Section RoundFacts.

Variable env : outside.
Variables wait_min wait_max : json.
Variables a b : Q.
Variable ns : list NodeScenario.
Variable ps : list PodScenario.

Hypothesis Hmin : as_number wait_min = Returns a.
Hypothesis Hmax : as_number wait_max = Returns b.

Lemma sleep_time_returns (k : nat) (x : Q) :
  uniform env a b k = Returns (Finite x) ->
  sleep_time env a b k = Returns (int x) /\ seconds env a b k = int x.
Proof.
  intros H. unfold seconds, sleep_time. rewrite H. split; reflexivity.
Qed.

Lemma sleep_time_inv (k : nat) (s : Z) :
  sleep_time env a b k = Returns s ->
  seconds env a b k = s
  /\ exists x, uniform env a b k = Returns (Finite x) /\ s = int x.
Proof.
  intros H. unfold seconds. rewrite H. split; [reflexivity|].
  unfold sleep_time in H.
  destruct (uniform env a b k) as [[x| |]|e]; try discriminate H.
  injection H as <-. eauto.
Qed.

(** [time.sleep] returns for the durations of its range only. *)
Lemma time_sleep_inv (secs : Z) (st st' : state) :
  time_sleep env secs st = (Returns tt, st') ->
  (0 <= secs <= time_t_max)%Z /\ st' = emit (TimeSleep secs) st.
Proof.
  unfold time_sleep.
  destruct (Z.ltb_spec secs (- time_t_max)); simpl; [discriminate|].
  destruct (Z.ltb_spec time_t_max secs); simpl; [discriminate|].
  destruct (Z.ltb_spec secs 0); [discriminate|].
  destruct (os_sleep env secs st); [|discriminate].
  intros [= <-]. split; [lia | reflexivity].
Qed.

Lemma time_sleep_raises (secs : Z) (st st' : state) (e : exn) :
  time_sleep env secs st = (Raises e, st') -> st' = st.
Proof.
  unfold time_sleep.
  destruct (_ || _); [now intros [= <- <-]|].
  destruct (_ <? _)%Z; [now intros [= <- <-]|].
  destruct (os_sleep env secs st); [discriminate | now intros [= <- <-]].
Qed.

Lemma time_sleep_returns (longest secs : Z) (st : state) :
  obliging env longest -> (longest <= time_t_max)%Z ->
  (0 <= secs <= longest)%Z ->
  time_sleep env secs st = (Returns tt, emit (TimeSleep secs) st).
Proof.
  intros (_ & _ & Hsleep & _) Hl Hs. unfold time_sleep.
  destruct (Z.ltb_spec secs (- time_t_max)); [unfold time_t_max in *; lia|].
  destruct (Z.ltb_spec time_t_max secs); [lia|]. simpl.
  destruct (Z.ltb_spec secs 0); [lia|].
  now rewrite Hsleep.
Qed.

Lemma time_sleep_negative (secs : Z) (st : state) :
  (- time_t_max <= secs < 0)%Z ->
  time_sleep env secs st
  = (Raises (ValueError "sleep length must be non-negative"), st).
Proof.
  intros Hs. unfold time_sleep.
  destruct (Z.ltb_spec secs (- time_t_max)); [lia|].
  destruct (Z.ltb_spec time_t_max secs); [unfold time_t_max in *; lia|]. simpl.
  destruct (Z.ltb_spec secs 0); [reflexivity | lia].
Qed.

Lemma time_sleep_overflow (secs : Z) (st : state) :
  (secs < - time_t_max \/ time_t_max < secs)%Z ->
  time_sleep env secs st
  = (Raises (OverflowError "timestamp too large to convert to C _PyTime_t"),
     st).
Proof.
  intros Hs. unfold time_sleep.
  destruct (Z.ltb_spec secs (- time_t_max));
    destruct (Z.ltb_spec time_t_max secs); simpl; try reflexivity; lia.
Qed.

Lemma no_sleep_in_scenarios (s : Z) (l : list NodeScenario)
    (l' : list PodScenario) :
  ~ In (TimeSleep s) (map NodeScenarioExecute l ++ map PodScenarioExecute l').
Proof.
  rewrite in_app_iff, !in_map_iff.
  intros [(x & Hx & _)|(x & Hx & _)]; discriminate Hx.
Qed.

Lemma no_sync_in_scenarios (l : list NodeScenario) (l' : list PodScenario) :
  ~ In InventorySync (map NodeScenarioExecute l ++ map PodScenarioExecute l').
Proof.
  rewrite in_app_iff, !in_map_iff.
  intros [(x & Hx & _)|(x & Hx & _)]; discriminate Hx.
Qed.

(** What a round has done, however it ends: the first steps of the
    order, all of them when it returns and not the refresh of the
    inventory when it raises; a sleep among them is that of the whole
    seconds of the draw, and [time.sleep] has accepted it. *)
Lemma round_inv (st : state) (r : outcome unit) (st' : state) :
  round env wait_min wait_max ns ps st = (r, st') ->
  exists done,
    done `prefix_of` round_events (seconds env a b (draws st)) ns ps
    /\ trace st' = trace st ++ done
    /\ (forall s, In (TimeSleep s) done ->
                  sleep_time env a b (draws st) = Returns s
                  /\ (0 <= s <= time_t_max)%Z)
    /\ match r with
       | Returns _ =>
           done = round_events (seconds env a b (draws st)) ns ps
           /\ draws st' = S (draws st)
       | Raises _ => ~ In InventorySync done
       end.
Proof.
  unfold round, round_events. intros H.
  destruct (execute_all (node_execute env) NodeScenarioExecute ns st)
    as [[[]|e] st1] eqn:Hn.
  2:{ injection H as <- <-.
      destruct (execute_all_inv _ _ _ _ _ _ Hn) as (done & rest & -> & -> & _).
      exists (map NodeScenarioExecute done). simpl.
      split; [|split; [reflexivity|split]].
      - rewrite map_app, <- app_assoc. apply prefix_app_r. reflexivity.
      - intros s Hs. exfalso.
        apply (no_sleep_in_scenarios s done []). rewrite app_nil_r. exact Hs.
      - intros Hs. apply (no_sync_in_scenarios done []).
        rewrite app_nil_r. exact Hs. }
  destruct (execute_all_inv _ _ _ _ _ _ Hn) as (dn & rn & En & -> & Hrn).
  rewrite (Hrn eq_refl), app_nil_r in En. subst dn. clear Hrn Hn rn.
  destruct (execute_all (pod_execute env) PodScenarioExecute ps _)
    as [[[]|e] st2] eqn:Hp.
  2:{ injection H as <- <-.
      destruct (execute_all_inv _ _ _ _ _ _ Hp) as (done & rest & -> & -> & _).
      exists (map NodeScenarioExecute ns ++ map PodScenarioExecute done).
      simpl. rewrite <- app_assoc.
      split; [|split; [reflexivity|split]].
      - apply prefix_app. rewrite map_app, <- app_assoc.
        apply prefix_app_r. reflexivity.
      - intros s Hs. exfalso. exact (no_sleep_in_scenarios _ _ _ Hs).
      - apply no_sync_in_scenarios. }
  destruct (execute_all_inv _ _ _ _ _ _ Hp) as (dp & rp & Ep & -> & Hrp).
  rewrite (Hrp eq_refl), app_nil_r in Ep. subst dp. clear Hrp Hp rp.
  simpl in H. rewrite Hmin, Hmax in H. simpl in H.
  rewrite <- app_assoc in H.
  destruct (sleep_time env a b (draws st)) as [secs|e] eqn:Hd.
  2:{ injection H as <- <-.
      exists (map NodeScenarioExecute ns ++ map PodScenarioExecute ps).
      simpl. split; [|split; [reflexivity|split]].
      - apply prefix_app, prefix_app_r. reflexivity.
      - intros s Hs. exfalso. exact (no_sleep_in_scenarios _ _ _ Hs).
      - apply no_sync_in_scenarios. }
  destruct (sleep_time_inv _ _ Hd) as [-> _].
  destruct (time_sleep env secs _) as [[[]|e] st3] eqn:Ht.
  2:{ injection H as <- <-. apply time_sleep_raises in Ht. subst st3.
      exists (map NodeScenarioExecute ns ++ map PodScenarioExecute ps).
      simpl. split; [|split; [reflexivity|split]].
      - apply prefix_app, prefix_app_r. reflexivity.
      - intros s Hs. exfalso. exact (no_sleep_in_scenarios _ _ _ Hs).
      - apply no_sync_in_scenarios. }
  apply time_sleep_inv in Ht as [Hrange ->].
  assert (forall l s,
             In (TimeSleep s)
               (map NodeScenarioExecute ns ++ map PodScenarioExecute ps
                ++ TimeSleep secs :: l) ->
             ~ In (TimeSleep s) l ->
             sleep_time env a b (draws st) = Returns s
             /\ (0 <= s <= time_t_max)%Z) as Hsleeps.
  { intros l s Hs Hl. rewrite app_assoc in Hs.
    apply in_app_iff in Hs as [Hs|[[= <-]|Hs]].
    - exfalso. exact (no_sleep_in_scenarios _ _ _ Hs).
    - split; assumption.
    - contradiction. }
  rewrite Hd in Hsleeps.
  destruct (inventory_sync env _) as [[]|e]; injection H as <- <-.
  - eexists. split; [reflexivity|]. simpl.
    rewrite <- !app_assoc. simpl.
    split; [reflexivity|]. split; [|split; reflexivity].
    intros s Hs. apply (Hsleeps _ _ Hs).
    intros [Hx|[]]. discriminate Hx.
  - exists (map NodeScenarioExecute ns ++ map PodScenarioExecute ps
            ++ [TimeSleep secs]).
    simpl. rewrite <- !app_assoc.
    split; [|split; [reflexivity|split]].
    + do 2 apply prefix_app. now apply prefix_cons, prefix_nil.
    + intros s Hs. apply (Hsleeps _ _ Hs). intros [].
    + rewrite app_assoc, in_app_iff.
      intros [Hs|[Hs|[]]]; [exact (no_sync_in_scenarios _ _ Hs)|discriminate Hs].
Qed.

(** A round returns when the outside obliges and the whole seconds of
    the draw are a duration that it sleeps. *)
Lemma round_returns (longest : Z) (x : Q) (st : state) :
  obliging env longest -> (longest <= time_t_max)%Z ->
  uniform env a b (draws st) = Returns (Finite x) ->
  (0 <= int x <= longest)%Z ->
  round env wait_min wait_max ns ps st
  = (Returns tt,
     State (trace st ++ round_events (int x) ns ps) (S (draws st))).
Proof.
  intros Hob Hl Hx Hs. pose proof Hob as (Hn & Hp & _ & Hsync).
  unfold round.
  rewrite (execute_all_returns _ _ _ Hn), (execute_all_returns _ _ _ Hp).
  rewrite Hmin, Hmax. simpl.
  destruct (sleep_time_returns _ _ Hx) as [-> _].
  rewrite (time_sleep_returns longest) by assumption.
  rewrite Hsync. unfold round_events, emit. simpl.
  now rewrite <- !app_assoc.
Qed.

(** A round ends at a sleep that [time.sleep] refuses. *)
Lemma round_refused (longest : Z) (x : Q) (st : state) (e : exn) :
  obliging env longest ->
  uniform env a b (draws st) = Returns (Finite x) ->
  (forall st', time_sleep env (int x) st' = (Raises e, st')) ->
  round env wait_min wait_max ns ps st
  = (Raises e,
     State (trace st ++ map NodeScenarioExecute ns ++ map PodScenarioExecute ps)
           (S (draws st))).
Proof.
  intros (Hn & Hp & _ & _) Hx Ht. unfold round.
  rewrite (execute_all_returns _ _ _ Hn), (execute_all_returns _ _ _ Hp).
  rewrite Hmin, Hmax. simpl.
  destruct (sleep_time_returns _ _ Hx) as [-> _].
  rewrite Ht. now rewrite <- app_assoc.
Qed.

Lemma run_loop_unfold (fuel : nat) (loops : option Z) (st : state) :
  keep_going loops = true ->
  run_loop env (S fuel) wait_min wait_max ns ps loops st
  = match round env wait_min wait_max ns ps st with
    | (Returns _, st) =>
        run_loop env fuel wait_min wait_max ns ps (decrement loops) st
    | (Raises e, st) => Done (Raises e) st
    end.
Proof. intros Hk. simpl. now rewrite Hk. Qed.

End RoundFacts.

Section LoopFacts.

Variable env : outside.
Variables wait_min wait_max : json.
Variables a b : Q.
Variable ns : list NodeScenario.
Variable ps : list PodScenario.

Local Abbreviation after_round :=
  (PolicyRunner.after_round (seconds env a b) ns ps).
Local Abbreviation after_rounds :=
  (PolicyRunner.after_rounds (seconds env a b) ns ps).

Hypothesis Hmin : as_number wait_min = Returns a.
Hypothesis Hmax : as_number wait_max = Returns b.

(** Every round returns when the outside obliges and every draw is a
    duration that it sleeps. *)
Lemma rounds_return (longest : Z) :
  obliging env longest -> (longest <= time_t_max)%Z ->
  (forall k, exists x,
      uniform env a b k = Returns (Finite x) /\ (0 <= int x <= longest)%Z) ->
  forall st,
    round env wait_min wait_max ns ps st = (Returns tt, after_round st).
Proof.
  intros Hob Hl Hdraws st. destruct (Hdraws (draws st)) as (x & Hx & Hs).
  rewrite (round_returns env wait_min wait_max a b ns ps Hmin Hmax longest x st)
    by assumption.
  unfold PolicyRunner.after_round.
  now destruct (sleep_time_returns env a b _ _ Hx) as [_ ->].
Qed.

Hypothesis Hround :
  forall st, round env wait_min wait_max ns ps st = (Returns tt, after_round st).

Lemma run_loop_step (fuel : nat) (loops : option Z) (st : state) :
  keep_going loops = true ->
  run_loop env (S fuel) wait_min wait_max ns ps loops st
  = run_loop env fuel wait_min wait_max ns ps (decrement loops)
      (after_round st).
Proof. intros Hk. now rewrite run_loop_unfold, Hround. Qed.

Lemma after_rounds_O (st : state) : after_rounds 0 st = st.
Proof.
  unfold PolicyRunner.after_rounds. simpl.
  rewrite app_nil_r, Nat.add_0_r. now destruct st.
Qed.

Lemma after_rounds_S (n : nat) (st : state) :
  after_rounds n (after_round st) = after_rounds (S n) st.
Proof.
  unfold PolicyRunner.after_rounds, PolicyRunner.after_round. simpl.
  rewrite <- app_assoc. f_equal; lia.
Qed.

Lemma run_loop_bounded (n : nat) :
  forall (fuel : nat) (st : state),
    (n <= fuel)%nat ->
    run_loop env fuel wait_min wait_max ns ps (Some (Z.of_nat n)) st
    = Done (Returns tt) (after_rounds n st).
Proof.
  induction n as [|n IH]; intros fuel st Hfuel.
  - rewrite after_rounds_O. now destruct fuel.
  - destruct fuel as [|fuel]; [lia|].
    rewrite run_loop_step.
    + simpl decrement.
      replace (Z.of_nat (S n) - 1)%Z with (Z.of_nat n) by lia.
      rewrite IH by lia. now rewrite after_rounds_S.
    + simpl. apply Z.ltb_lt. lia.
Qed.

Lemma run_loop_starved (n : nat) :
  forall (fuel : nat) (st : state),
    (fuel < n)%nat ->
    run_loop env fuel wait_min wait_max ns ps (Some (Z.of_nat n)) st
    = Running (Some (Z.of_nat (n - fuel))) (after_rounds fuel st).
Proof.
  intros fuel. revert n. induction fuel as [|fuel IH]; intros n st Hfuel.
  - destruct n; [lia|]. rewrite Nat.sub_0_r, after_rounds_O. reflexivity.
  - destruct n as [|n]; [lia|].
    rewrite run_loop_step.
    + simpl decrement.
      replace (Z.of_nat (S n) - 1)%Z with (Z.of_nat n) by lia.
      rewrite IH by lia. rewrite after_rounds_S.
      now replace (S n - S fuel)%nat with (n - fuel)%nat by lia.
    + simpl. apply Z.ltb_lt. lia.
Qed.

Lemma run_loop_unbounded (fuel : nat) :
  forall st : state,
    run_loop env fuel wait_min wait_max ns ps None st
    = Running None (after_rounds fuel st).
Proof.
  induction fuel as [|fuel IH]; intros st.
  - now rewrite after_rounds_O.
  - rewrite run_loop_step by reflexivity.
    simpl decrement. now rewrite IH, after_rounds_S.
Qed.

End LoopFacts.

Lemma completed_rounds_after (secs : nat -> Z) (ns : list NodeScenario)
    (ps : list PodScenario) (n : nat) (st : state) :
  completed_rounds (after_rounds secs ns ps n st)
  = (completed_rounds st + n)%nat.
Proof.
  unfold completed_rounds, after_rounds. simpl.
  rewrite filter_app, length_app. f_equal.
  generalize (draws st). induction n as [|n IH]; intros first; simpl; [reflexivity|].
  unfold round_events. rewrite !filter_app, !length_app, IH.
  assert (forall {S} (ev : S -> event) (l : list S),
             (forall x, is_sync (ev x) = false) ->
             length (filter (fun e => is_sync e = true) (map ev l)) = 0%nat) as Hnone.
  { intros S ev l Hev. induction l as [|x l IHl]; simpl; [reflexivity|].
    rewrite filter_cons. destruct (decide _) as [Hd|_]; [|exact IHl].
    rewrite Hev in Hd. discriminate Hd. }
  rewrite !Hnone by reflexivity. reflexivity.
Qed.

Section SetupFacts.

Lemma mapM_returns {A B : Type} (f : A -> outcome B) (l : list A) :
  (forall x, In x l -> exists y, f x = Returns y) ->
  exists ys, mapM f l = Returns ys /\ length ys = length l.
Proof.
  induction l as [|x l IH]; intros H; simpl.
  - exists []. split; reflexivity.
  - destruct (H x (or_introl eq_refl)) as [y Hy].
    destruct IH as (ys & Hys & Hlen); [intros; apply H; now right|].
    exists (y :: ys). unfold mbind, outcome_bind. rewrite Hy. simpl.
    unfold mbind, outcome_bind in Hys. rewrite Hys. simpl.
    split; [reflexivity | now rewrite Hlen].
Qed.

Lemma valid_wait_bounds (policy : json) :
  validate policy = Some true ->
  exists a b, wait_bounds policy = Returns (JNum a, JNum b).
Proof.
  intros H. destruct (valid_policy_object policy H) as [fields ->].
  unfold wait_bounds. simpl.
  destruct (get "config" fields) as [config|] eqn:Hc; simpl.
  - destruct (valid_config fields config H Hc) as (cf & q & -> & Hmin & Hmax & _).
    simpl. rewrite Hmin. simpl.
    destruct (get "maxSecondsBetweenRuns" cf) as [v|]; simpl; [|eauto].
    destruct (Hmax v eq_refl) as [q' ->]. eauto.
  - eauto.
Qed.

Lemma valid_node_scenarios_of (policy : json) :
  validate policy = Some true ->
  exists ns, node_scenarios_of policy = Returns ns
    /\ length ns = length (scenarios_of "nodeScenarios" policy).
Proof.
  intros H. destruct (valid_policy_object policy H) as [fields ->].
  unfold node_scenarios_of, scenarios_of. simpl.
  destruct (get "nodeScenarios" fields) as [v|] eqn:Hv; simpl.
  - destruct (valid_scenarios fields "nodeScenarios" v H (or_introl eq_refl) Hv)
      as (scenarios & -> & Hall).
    simpl. apply mapM_returns. intros e He.
    destruct (Hall e He) as (sf & -> & _). simpl. eauto.
  - exists []. split; reflexivity.
Qed.

Lemma valid_pod_scenarios_of (policy : json) :
  validate policy = Some true ->
  exists ps, pod_scenarios_of policy = Returns ps
    /\ length ps = length (scenarios_of "podScenarios" policy).
Proof.
  intros H. destruct (valid_policy_object policy H) as [fields ->].
  unfold pod_scenarios_of, scenarios_of. simpl.
  destruct (get "podScenarios" fields) as [v|] eqn:Hv; simpl.
  - destruct (valid_scenarios fields "podScenarios" v H (or_intror eq_refl) Hv)
      as (scenarios & -> & Hall).
    simpl. apply mapM_returns. intros e He.
    destruct (Hall e He) as (sf & -> & _). simpl. eauto.
  - exists []. split; reflexivity.
Qed.

Lemma run_with_setup (env : outside) (policy wait_min wait_max : json)
    (ns : list NodeScenario) (ps : list PodScenario)
    (loops : option Z) (fuel : nat) (st : state) :
  wait_bounds policy = Returns (wait_min, wait_max) ->
  node_scenarios_of policy = Returns ns ->
  pod_scenarios_of policy = Returns ps ->
  run env policy loops fuel st
  = match run_loop env fuel wait_min wait_max ns ps loops st with
    | Running l st => Running l st
    | Done (Returns _) st => Done (Returns (ns, ps)) st
    | Done (Raises e) st => Done (Raises e) st
    end.
Proof. intros Hb Hn Hp. unfold run. now rewrite Hb, Hn, Hp. Qed.

(** With bounds that are not negative and that the outside sleeps, a
    draw between them is a duration that it sleeps. *)
Lemma draws_slept (env : outside) (a b : Q) (longest : Z) :
  (0 <= a)%Q -> (0 <= b)%Q ->
  (a <= inject_Z longest)%Q -> (b <= inject_Z longest)%Q ->
  draws_between env a b ->
  forall k, exists x,
    uniform env a b k = Returns (Finite x) /\ (0 <= int x <= longest)%Z.
Proof.
  intros Ha Hb Hal Hbl Hdraws k. destruct (Hdraws k) as (x & Hx & Hbetween).
  exists x. split; [exact Hx|].
  pose proof (between_nonneg a b x Ha Hb Hbetween) as H0.
  split; [now apply int_nonneg|].
  apply int_at_most; [exact H0|].
  now apply (between_at_most a b).
Qed.

End SetupFacts.

(** C4, amended.  A round of the loop does its steps in this order: it
    executes every node scenario in the order of the policy, then every pod
    scenario in the order of the policy, then calls
    [random.uniform(minSecondsBetweenRuns, maxSecondsBetweenRuns)] and
    sleeps the whole seconds of the draw (its truncation, not the draw),
    then asks the inventory to synchronise; after that the remaining count
    of loops is one less when it is bounded, and the loop goes on from
    there.  Whatever happens, what the round has done is a first part of
    these steps, in this order, and all of them when the round returns.
    The round returns when no call raises: when the scenario engines and
    the inventory return, the draw is finite, its whole seconds are not
    negative and at most a duration that [time.sleep] and the operating
    system accept.  Otherwise the round, and the run with it, end with the
    exception of the call: after the scenarios and before any refresh of
    the inventory, [time.sleep] refuses whole seconds beyond 9223372036
    either way with OverflowError and, within that range, negative ones
    with ValueError. *)
Theorem round_order
    (env : outside) (wait_min wait_max : json) (a b : Q)
    (ns : list NodeScenario) (ps : list PodScenario)
    (loops : option Z) (fuel : nat) (st : state) :
  as_number wait_min = Returns a ->
  as_number wait_max = Returns b ->
  keep_going loops = true ->
  let result := round env wait_min wait_max ns ps st in
  let steps := round_events (seconds env a b (draws st)) ns ps in
  let scenarios_done :=
    {| trace := trace st ++ map NodeScenarioExecute ns
                ++ map PodScenarioExecute ps;
       draws := S (draws st) |} in
  (exists done,
      done `prefix_of` steps
      /\ trace (snd result) = trace st ++ done
      /\ (forall s, In (TimeSleep s) done ->
            exists x, uniform env a b (draws st) = Returns (Finite x)
                      /\ s = int x)
      /\ (returns (fst result) = true -> done = steps)
      /\ (returns (fst result) = false -> ~ In InventorySync done))
  /\ run_loop env (S fuel) wait_min wait_max ns ps loops st
     = match fst result with
       | Returns _ =>
           run_loop env fuel wait_min wait_max ns ps (decrement loops)
             (snd result)
       | Raises e => Done (Raises e) (snd result)
       end
  /\ (forall (longest : Z) (x : Q),
        obliging env longest -> (longest <= time_t_max)%Z ->
        uniform env a b (draws st) = Returns (Finite x) ->
        (0 <= int x <= longest)%Z ->
        result
        = (Returns tt,
           {| trace := trace st ++ map NodeScenarioExecute ns
                       ++ map PodScenarioExecute ps
                       ++ [TimeSleep (int x); InventorySync];
              draws := S (draws st) |}))
  /\ (forall (longest : Z) (x : Q),
        obliging env longest ->
        uniform env a b (draws st) = Returns (Finite x) ->
        ((- time_t_max <= int x < 0)%Z ->
         result
         = (Raises (ValueError "sleep length must be non-negative"),
            scenarios_done))
        /\ ((int x < - time_t_max \/ time_t_max < int x)%Z ->
            result
            = (Raises
                 (OverflowError "timestamp too large to convert to C _PyTime_t"),
               scenarios_done))).
Proof.
  intros Hmin Hmax Hk result steps scenarios_done.
  split; [|split; [|split]].
  - destruct result as [r st'] eqn:Hr.
    destruct (round_inv env wait_min wait_max a b ns ps Hmin Hmax st r st' Hr)
      as (done & Hprefix & Htrace & Hsleep & Hend).
    exists done. simpl.
    split; [exact Hprefix|]. split; [exact Htrace|]. split; [|split].
    + intros s Hs. destruct (Hsleep s Hs) as [Hd _].
      now destruct (sleep_time_inv env a b _ _ Hd) as [_ Hx].
    + intros Hret. destruct r; [apply Hend | discriminate Hret].
    + intros Hret. destruct r; [discriminate Hret | exact Hend].
  - rewrite (run_loop_unfold env wait_min wait_max ns ps fuel loops st Hk).
    fold result. now destruct result as [[[]|e] st'].
  - intros longest x Hob Hl Hx Hs.
    apply (round_returns env wait_min wait_max a b ns ps Hmin Hmax longest);
      assumption.
  - intros longest x Hob Hx. split; intros Hs.
    + apply (round_refused env wait_min wait_max a b ns ps Hmin Hmax longest x);
        [assumption | assumption |].
      intros st'. now apply time_sleep_negative.
    + apply (round_refused env wait_min wait_max a b ns ps Hmin Hmax longest x);
        [assumption | assumption |].
      intros st'. now apply time_sleep_overflow.
Qed.

Lemma round_order_witness :
  round Examples.calm (JNum 1) (JNum 1) [Examples.drain] [] (State [] 0)
  = (Returns tt,
     State [NodeScenarioExecute Examples.drain; TimeSleep 1; InventorySync] 1)
  /\ run_loop Examples.calm 3 (JNum 1) (JNum 1) [Examples.drain] []
       (Some 3%Z) (State [] 0)
     = run_loop Examples.calm 2 (JNum 1) (JNum 1) [Examples.drain] []
         (Some 2%Z)
         (State [NodeScenarioExecute Examples.drain; TimeSleep 1; InventorySync]
            1).
Proof.
  destruct (round_order Examples.calm (JNum 1) (JNum 1) 1 1 [Examples.drain] []
              (Some 3%Z) 2 (State [] 0) eq_refl eq_refl eq_refl)
    as (_ & Hloop & Hreturns & _).
  assert (round Examples.calm (JNum 1) (JNum 1) [Examples.drain] [] (State [] 0)
          = (Returns tt,
             State [NodeScenarioExecute Examples.drain; TimeSleep 1;
                    InventorySync] 1)) as Hround.
  { apply (Hreturns 1%Z 1%Q).
    - repeat split; reflexivity.
    - vm_compute. discriminate.
    - reflexivity.
    - vm_compute. split; discriminate. }
  split; [exact Hround|].
  rewrite Hloop, Hround. reflexivity.
Defined.

(** With both bounds at a second and a half the draw is a second and a
    half and the round sleeps one second, which is not a duration between
    the bounds. *)
Lemma round_sleep_counterexample :
  uniform Examples.calm (3 # 2) (3 # 2) 0 = Returns (Finite (3 # 2))
  /\ round Examples.calm (JNum (3 # 2)) (JNum (3 # 2)) [Examples.drain] []
       (State [] 0)
     = (Returns tt,
        State [NodeScenarioExecute Examples.drain; TimeSleep 1; InventorySync]
          1)
  /\ ~ ((3 # 2) <= inject_Z 1)%Q.
Proof.
  split; [|split]; [vm_compute; reflexivity | vm_compute; reflexivity |].
  unfold Qle. simpl. lia.
Qed.

(** A refresh of the inventory that raises ends the round, and the run,
    after the sleep. *)
Example round_with_stale_inventory :
  round Examples.stale (JNum 1) (JNum 1) [Examples.drain] [] (State [] 0)
  = (Raises (OSError "connection refused"),
     State [NodeScenarioExecute Examples.drain; TimeSleep 1] 1)
  /\ run Examples.stale Examples.paced_policy (Some 3%Z) 3 (State [] 0)
     = Done (Raises (OSError "connection refused"))
         (State [NodeScenarioExecute Examples.drain; TimeSleep 1] 1).
Proof. split; vm_compute; reflexivity. Qed.

(** C5, amended.  For a policy that passes validation and whose bounds are
    not negative and at most a duration that [time.sleep] and the operating
    system accept (9223372036 seconds at the most), when every draw of
    [random.uniform] is a finite number between the bounds and every call
    to a scenario engine and to the inventory returns, and for a count
    N >= 0 of loops, [run] builds one engine per scenario of the policy,
    executes exactly N rounds (with less fuel than N rounds it is still
    running, with a positive count left) and then returns the node and pod
    scenario engines; with no count it never returns: whatever the fuel,
    it is still running and has completed that many rounds. *)
Theorem run_executes_loops_rounds
    (env : outside) (policy : json) (a b : Q) (longest N : Z) (st : state) :
  validate_file policy = Returns policy ->
  wait_bounds policy = Returns (JNum a, JNum b) ->
  (0 <= a)%Q -> (0 <= b)%Q ->
  (a <= inject_Z longest)%Q -> (b <= inject_Z longest)%Q ->
  (longest <= time_t_max)%Z ->
  obliging env longest ->
  draws_between env a b ->
  (0 <= N)%Z ->
  exists ns ps,
    node_scenarios_of policy = Returns ns
    /\ pod_scenarios_of policy = Returns ps
    /\ length ns = length (scenarios_of "nodeScenarios" policy)
    /\ length ps = length (scenarios_of "podScenarios" policy)
    /\ (forall fuel : nat,
           (Z.to_nat N <= fuel)%nat ->
           exists st',
             run env policy (Some N) fuel st = Done (Returns (ns, ps)) st'
             /\ completed_rounds st' = (completed_rounds st + Z.to_nat N)%nat)
    /\ (forall fuel : nat,
           (fuel < Z.to_nat N)%nat ->
           exists left st',
             run env policy (Some N) fuel st = Running (Some left) st'
             /\ (0 < left)%Z
             /\ completed_rounds st' = (completed_rounds st + fuel)%nat)
    /\ (forall fuel : nat,
           exists st',
             run env policy None fuel st = Running None st'
             /\ completed_rounds st' = (completed_rounds st + fuel)%nat).
Proof.
  intros Hfile Hbounds Ha Hb Hal Hbl Hl Hob Hdraws HN.
  assert (validate policy = Some true) as Hvalid.
  { apply validate_file_returns. now rewrite Hfile. }
  destruct (valid_node_scenarios_of policy Hvalid) as (ns & Hns & Hnlen).
  destruct (valid_pod_scenarios_of policy Hvalid) as (ps & Hps & Hplen).
  exists ns, ps. repeat (split; [assumption|]).
  pose proof (rounds_return env (JNum a) (JNum b) a b ns ps eq_refl eq_refl
                longest Hob Hl (draws_slept env a b longest Ha Hb Hal Hbl Hdraws))
    as Hround.
  assert (exists n : nat, N = Z.of_nat n) as [n ->]
    by (exists (Z.to_nat N); lia).
  rewrite Nat2Z.id.
  split; [|split].
  - intros fuel Hfuel.
    rewrite (run_with_setup env policy _ _ ns ps _ _ _ Hbounds Hns Hps).
    rewrite (run_loop_bounded env (JNum a) (JNum b) a b ns ps Hround n fuel st
               Hfuel).
    eexists. split; [reflexivity|]. apply completed_rounds_after.
  - intros fuel Hfuel.
    rewrite (run_with_setup env policy _ _ ns ps _ _ _ Hbounds Hns Hps).
    rewrite (run_loop_starved env (JNum a) (JNum b) a b ns ps Hround n fuel st
               Hfuel).
    do 2 eexists. split; [reflexivity|]. split; [lia|].
    apply completed_rounds_after.
  - intros fuel.
    rewrite (run_with_setup env policy _ _ ns ps _ _ _ Hbounds Hns Hps).
    rewrite (run_loop_unbounded env (JNum a) (JNum b) a b ns ps Hround fuel st).
    eexists. split; [reflexivity|]. apply completed_rounds_after.
Qed.

(** The outside of the examples obliges, and its draws are between the
    bounds. *)
Lemma calm_obliging (longest : Z) : obliging Examples.calm longest.
Proof. repeat split. Qed.

Lemma calm_draws_between (a b : Q) : draws_between Examples.calm a b.
Proof.
  intros k. eexists. split; [reflexivity|]. unfold between.
  rewrite Qred_correct.
  destruct (Qlt_le_dec b a) as [H|H]; [right | left]; split; lra.
Qed.

Lemma run_executes_loops_rounds_witness :
  exists st',
    run Examples.calm Examples.paced_policy (Some 3%Z) 3 (State [] 0)
    = Done (Returns ([Examples.drain], [])) st'
    /\ completed_rounds st' = 3%nat.
Proof.
  destruct (run_executes_loops_rounds Examples.calm Examples.paced_policy 1 1 1 3
              (State [] 0))
    as (ns & ps & Hns & Hps & _ & _ & Hdone & _ & _).
  - vm_compute. reflexivity.
  - reflexivity.
  - unfold Qle. simpl. lia.
  - unfold Qle. simpl. lia.
  - unfold Qle. simpl. lia.
  - unfold Qle. simpl. lia.
  - vm_compute. discriminate.
  - repeat split.
  - intros k. exists 1%Q. split; [reflexivity|].
    left. unfold Qle. simpl. lia.
  - lia.
  - destruct (Hdone 3%nat) as (st' & Hrun & Hcount); [simpl; lia|].
    vm_compute in Hns. injection Hns as <-.
    vm_compute in Hps. injection Hps as <-.
    exists st'. split; [exact Hrun | exact Hcount].
Defined.

(** Two policies that pass validation, run in an outside in which every
    call returns and every draw is between the bounds.  With bounds of
    minus five and minus three seconds the first sleep is refused for its
    sign; with bounds of 2 ** 70 seconds it is refused for its size.  [run]
    raises in its first round, with a count of loops and without one. *)
Lemma run_negative_bounds_counterexample :
  (validate_file Examples.hasty_policy = Returns Examples.hasty_policy
   /\ run Examples.calm Examples.hasty_policy (Some 1%Z) 1 (State [] 0)
      = Done (Raises (ValueError "sleep length must be non-negative"))
          (State [NodeScenarioExecute Examples.drain] 1)
   /\ run Examples.calm Examples.hasty_policy None 1 (State [] 0)
      = Done (Raises (ValueError "sleep length must be non-negative"))
          (State [NodeScenarioExecute Examples.drain] 1))
  /\ (validate_file Examples.endless_policy = Returns Examples.endless_policy
      /\ run Examples.calm Examples.endless_policy (Some 1%Z) 1 (State [] 0)
         = Done (Raises (OverflowError
                           "timestamp too large to convert to C _PyTime_t"))
             (State [NodeScenarioExecute Examples.drain] 1)
      /\ run Examples.calm Examples.endless_policy None 1 (State [] 0)
         = Done (Raises (OverflowError
                           "timestamp too large to convert to C _PyTime_t"))
             (State [NodeScenarioExecute Examples.drain] 1)).
Proof.
  repeat split; vm_compute; reflexivity.
Qed.

(** C9, amended.  Whenever a round sleeps, the duration is the truncation
    towards zero of the value that [random.uniform] has drawn for the
    bounds: the whole number next to the draw on the side of zero.  The
    round sleeps it when no call raises (the outside obliges, the whole
    seconds are not negative and a duration that [time.sleep] and the
    operating system accept).  When [minSecondsBetweenRuns] is not an
    integer, not negative and a duration that can be slept, the sleep can
    be strictly shorter than it: a draw at the bound itself, which is
    between the bounds (and is what [a + (b - a) * random()] gives when
    [random()] is zero), is slept as its whole seconds. *)
Theorem sleep_time_truncates
    (env : outside) (wait_min wait_max : json) (a b : Q)
    (ns : list NodeScenario) (ps : list PodScenario) (st : state) :
  as_number wait_min = Returns a ->
  as_number wait_max = Returns b ->
  (forall s : Z,
      In (TimeSleep s) (trace (snd (round env wait_min wait_max ns ps st))) ->
      In (TimeSleep s) (trace st)
      \/ exists x : Q,
           uniform env a b (draws st) = Returns (Finite x)
           /\ s = int x
           /\ ((0 <= x)%Q ->
               (inject_Z s <= x)%Q /\ (x < inject_Z s + 1)%Q)
           /\ ((x <= 0)%Q ->
               (x <= inject_Z s)%Q /\ (inject_Z s - 1 < x)%Q))
  /\ (forall (longest : Z) (x : Q),
         obliging env longest -> (longest <= time_t_max)%Z ->
         uniform env a b (draws st) = Returns (Finite x) ->
         (0 <= int x <= longest)%Z ->
         round env wait_min wait_max ns ps st
         = (Returns tt,
            {| trace := trace st ++ map NodeScenarioExecute ns
                        ++ map PodScenarioExecute ps
                        ++ [TimeSleep (int x); InventorySync];
               draws := S (draws st) |}))
  /\ ((0 <= a)%Q -> (forall z : Z, ~ (a == inject_Z z)%Q) ->
      (a <= inject_Z time_t_max)%Q ->
      exists (outside_at_min : outside) (s : Z),
        draws_between outside_at_min a b
        /\ obliging outside_at_min (int a)
        /\ round outside_at_min wait_min wait_max ns ps st
           = (Returns tt,
              {| trace := trace st ++ map NodeScenarioExecute ns
                          ++ map PodScenarioExecute ps
                          ++ [TimeSleep s; InventorySync];
                 draws := S (draws st) |})
        /\ (inject_Z s < a)%Q).
Proof.
  intros Hmin Hmax. split; [|split].
  - intros s Hs.
    destruct (round env wait_min wait_max ns ps st) as [r st'] eqn:Hr.
    destruct (round_inv env wait_min wait_max a b ns ps Hmin Hmax st r st' Hr)
      as (done & _ & Htrace & Hsleep & _).
    simpl in Hs. rewrite Htrace in Hs.
    apply in_app_iff in Hs as [Hs|Hs]; [now left | right].
    destruct (Hsleep s Hs) as [Hd _].
    destruct (sleep_time_inv env a b _ _ Hd) as [_ (x & Hx & ->)].
    exists x. split; [exact Hx|]. split; [reflexivity|].
    split; [apply int_truncates_nonneg | apply int_truncates_nonpos].
  - intros longest x Hob Hl Hx Hs.
    apply (round_returns env wait_min wait_max a b ns ps Hmin Hmax longest);
      assumption.
  - intros Ha Hni Hle.
    exists {| uniform := fun _ _ _ => Returns (Finite a);
              node_execute := fun _ _ => Returns tt;
              pod_execute := fun _ _ => Returns tt;
              os_sleep := fun _ _ => Returns tt;
              inventory_sync := fun _ => Returns tt |}, (int a).
    split; [|split; [|split]].
    + intros k. exists a. split; [reflexivity|].
      unfold between.
      destruct (Qlt_le_dec b a) as [H|H]; [right | left]; split; lra.
    + repeat split.
    + apply (round_returns _ wait_min wait_max a b ns ps Hmin Hmax (int a)).
      * repeat split.
      * now apply int_at_most.
      * reflexivity.
      * pose proof (int_nonneg a Ha). lia.
    + now apply int_below.
Qed.

Lemma sleep_time_truncates_witness :
  round Examples.calm (JNum (3 # 2)) (JNum (7 # 2)) [Examples.drain] []
    (State [] 0)
  = (Returns tt,
     State [NodeScenarioExecute Examples.drain; TimeSleep 2; InventorySync] 1)
  /\ exists (outside_at_min : outside) (s : Z),
       draws_between outside_at_min (3 # 2) (7 # 2)
       /\ obliging outside_at_min (int (3 # 2))
       /\ round outside_at_min (JNum (3 # 2)) (JNum (7 # 2)) [Examples.drain]
            [] (State [] 0)
          = (Returns tt,
             State [NodeScenarioExecute Examples.drain; TimeSleep s;
                    InventorySync] 1)
       /\ (inject_Z s < 3 # 2)%Q.
Proof.
  destruct (sleep_time_truncates Examples.calm (JNum (3 # 2)) (JNum (7 # 2))
              (3 # 2) (7 # 2) [Examples.drain] [] (State [] 0) eq_refl eq_refl)
    as (_ & Hround & Hbelow).
  split.
  - apply (Hround 2%Z (5 # 2)%Q).
    + repeat split.
    + vm_compute. discriminate.
    + reflexivity.
    + vm_compute. split; discriminate.
  - apply Hbelow.
    + unfold Qle. simpl. lia.
    + intros z. unfold Qeq. simpl. lia.
    + vm_compute. discriminate.
Defined.

(** A bound of minus a second and a half is not an integer, and no draw
    between the bounds has whole seconds below it: truncation goes towards
    zero. *)
Lemma sleep_below_min_counterexample :
  ~ (forall a b : Q,
        (a <= b)%Q ->
        (forall z : Z, ~ (a == inject_Z z)%Q) ->
        exists (env : outside) (k : nat) (s : Z),
          draws_between env a b
          /\ sleep_time env a b k = Returns s
          /\ (inject_Z s < a)%Q).
Proof.
  intros H.
  destruct (H (- (3 # 2))%Q 5%Q) as (env & k & s & Hdraws & Hs & Hlt).
  - unfold Qle. simpl. lia.
  - intros z. unfold Qeq. simpl. lia.
  - destruct (Hdraws k) as (x & Hx & Hbetween).
    unfold sleep_time in Hs. rewrite Hx in Hs. injection Hs as <-.
    assert (- (3 # 2) <= 0)%Q as Hneg by (unfold Qle; simpl; lia).
    assert (- (3 # 2) <= x)%Q as Hlo.
    { apply (between_at_least (- (3 # 2)) 5); [lra | | exact Hbetween].
      unfold Qle. simpl. lia. }
    pose proof (int_not_below (- (3 # 2)) x Hneg Hlo). lra.
Qed.

(** * Further properties *)

Ltac by_schema := vm_compute; reflexivity.

(** ** The inventory reader: what the mapping holds *)

Section InventoryContents.

Import Inventory.

(** The sections that have an entry after some lines: those that had one
    and those that a header in the lines announces. *)
Lemma read_lines_keys (lines : list string) :
  forall st st' : loop_state,
    read_lines lines st = Returns st' ->
    forall name : string,
      is_Some (_groups st' !! name) <->
      is_Some (_groups st !! name)
      \/ exists line, In line lines /\ header_name line = Some name.
Proof.
  induction lines as [|line rest IH]; intros st st' Hrun name; simpl in Hrun.
  - injection Hrun as <-. split; [auto | intros [H|(l & [] & _)]; exact H].
  - destruct (line_kind line)
      as [(n & Hn & Hh & Hr) | [(Hn & Hh & He & Hr) | (Hn & Hh & Hr)]].
    + rewrite (read_line_header st line n Hn) in Hrun. simpl in Hrun.
      rewrite (IH _ _ Hrun name). simpl. rewrite lookup_insert_is_Some. split.
      * intros [[<-|[_ H]]|(l & Hl & Hname)].
        -- right. exists line. split; [now left | exact Hn].
        -- now left.
        -- right. exists l. split; [now right | exact Hname].
      * intros [H|(l & [<-|Hl] & Hname)].
        -- destruct (decide (n = name)); auto.
        -- left. left. congruence.
        -- right. eauto.
    + rewrite (read_line_blank st line Hh He) in Hrun. simpl in Hrun.
      rewrite (IH _ _ Hrun name). split.
      * intros [H|(l & Hl & Hname)]; [now left|].
        right. exists l. split; [now right | exact Hname].
      * intros [H|(l & [<-|Hl] & Hname)]; [now left | congruence | eauto].
    + rewrite (read_line_record st line Hr) in Hrun.
      destruct (read_record (rstrip line)) as [data|e]; [|discriminate].
      simpl in Hrun.
      destruct (_groups st !! section_name st) as [records|] eqn:Hsec;
        [|discriminate].
      simpl in Hrun. rewrite (IH _ _ Hrun name). simpl.
      rewrite lookup_insert_is_Some. split.
      * intros [[<-|[_ H]]|(l & Hl & Hname)].
        -- left. rewrite Hsec. eauto.
        -- now left.
        -- right. exists l. split; [now right | exact Hname].
      * intros [H|(l & [<-|Hl] & Hname)].
        -- left. destruct (decide (section_name st = name)); auto.
        -- congruence.
        -- right. eauto.
Qed.

(** What the loop over the tokens leaves under a key. *)
Lemma read_pieces_lookup (pieces : list string) :
  forall (data r : gmap string string) (key : string),
    read_pieces pieces data = Returns r ->
    r !! key = match attribute key pieces with
               | Some v => Some v
               | None => data !! key
               end.
Proof.
  induction pieces as [|piece rest IH]; intros data r key Hrun; simpl in Hrun.
  - injection Hrun as <-. reflexivity.
  - simpl. destruct (String.eqb_spec piece " ") as [->|Hne].
    + rewrite (IH _ _ key Hrun). now destruct (attribute key rest).
    + destruct (split "=" piece) as [|k [|v [|x l]]]; try discriminate Hrun.
      rewrite (IH _ _ key Hrun). destruct (attribute key rest); [reflexivity|].
      destruct (String.eqb_spec k key) as [->|Hk].
      * apply lookup_insert_eq.
      * now apply lookup_insert_ne.
Qed.

Lemma read_pieces_raises (pieces : list string) :
  forall (data : gmap string string) (e : exn),
    read_pieces pieces data = Raises e ->
    e = ValueError "wrong number of values to unpack".
Proof.
  induction pieces as [|piece rest IH]; intros data e Hrun; simpl in Hrun.
  - discriminate Hrun.
  - destruct (String.eqb piece " "); [eauto|].
    destruct (split "=" piece) as [|k [|v [|x l]]]; try (now injection Hrun);
      eauto.
Qed.

Lemma rstrip_with_app (p : ascii -> bool) (s pad : string) :
  rstrip_with p pad = EmptyString ->
  rstrip_with p (String.append s pad) = rstrip_with p s.
Proof.
  intros Hpad. induction s as [|c r IH]; simpl; [exact Hpad|].
  now rewrite IH.
Qed.

Lemma rstrip_blank (pad : string) :
  is_blank pad = true -> rstrip pad = EmptyString.
Proof.
  unfold rstrip. induction pad as [|c r IH]; simpl; [reflexivity|].
  intros H. apply andb_prop in H as [Hc Hr]. now rewrite (IH Hr), Hc.
Qed.

(** Two separators in a row leave an empty piece after the first one. *)
Lemma split_doubled (c : ascii) (a b : string) :
  In EmptyString
    (tail (split c (String.append a (String c (String c b))))).
Proof.
  induction a as [|d r IH]; simpl.
  - rewrite !Ascii.eqb_refl. simpl. now left.
  - destruct (Ascii.eqb d c).
    + simpl. destruct (split c (String.append r (String c (String c b))))
        as [|p ps];
        [destruct IH|]. simpl in IH. now right.
    + destruct (split c (String.append r (String c (String c b))))
        as [|p ps];
        [destruct IH|]. exact IH.
Qed.

Lemma lstrip_with_head (p : ascii -> bool) (s : string) :
  match lstrip_with p s with
  | EmptyString => True
  | String c _ => p c = false
  end.
Proof.
  induction s as [|c r IH]; simpl; [exact I|].
  destruct (p c) eqn:E; [exact IH | exact E].
Qed.

Lemma rstrip_with_head (p : ascii -> bool) (s : string) :
  match rstrip_with p s with
  | EmptyString => True
  | String c _ => exists r, s = String c r
  end.
Proof.
  destruct s as [|c r]; simpl; [exact I|].
  destruct (is_empty (rstrip_with p r) && p c); [exact I | eauto].
Qed.

Lemma rstrip_with_last (p : ascii -> bool) (c : ascii) (s : string) :
  (forall d, Ascii.eqb d c = true -> p d = true) ->
  endswith c (rstrip_with p s) = false.
Proof.
  intros Hp. induction s as [|d r IH]; simpl; [reflexivity|].
  destruct (rstrip_with p r) as [|e r'] eqn:Hr; simpl.
  - destruct (p d) eqn:Hd; simpl; [reflexivity|].
    destruct (Ascii.eqb d c) eqn:E; [|reflexivity].
    rewrite (Hp d E) in Hd. discriminate Hd.
  - exact IH.
Qed.

Lemma header_name_bare (line name : string) :
  header_name line = Some name ->
  startswith "[" name = false /\ endswith "]" name = false.
Proof.
  unfold header_name. destruct (is_header (rstrip line)); [|discriminate].
  intros [= <-]. unfold rstrip_char, lstrip_char. split.
  - pose proof (rstrip_with_head (Ascii.eqb "]")
                  (lstrip_with (Ascii.eqb "[") (rstrip line))) as H1.
    pose proof (lstrip_with_head (Ascii.eqb "[") (rstrip line)) as H2.
    destruct (rstrip_with _ _) as [|c r]; [reflexivity|].
    destruct H1 as [r' Hr']. rewrite Hr' in H2. simpl.
    rewrite Ascii.eqb_sym. exact H2.
  - apply rstrip_with_last. intros d Hd. now rewrite Ascii.eqb_sym.
Qed.

Lemma read_lines_blank (lines : list string) (st : loop_state) :
  Forall (fun l => is_blank l = true) lines ->
  read_lines lines st = Returns st.
Proof.
  induction 1 as [|line rest Hb _ IH]; simpl; [reflexivity|].
  rewrite (read_line_blank st line).
  - exact IH.
  - now rewrite (rstrip_blank line Hb).
  - now rewrite (rstrip_blank line Hb).
Qed.

End InventoryContents.

(** X1.  The sections of the mapping that the reader returns are the
    sections that the file announces: a name has an entry exactly when some
    line of the file is a header for it. *)
Theorem read_inventory_sections_are_headers
    (config_read : string -> outcome unit) (text : string)
    (groups : gmap string (list (gmap string string))) :
  Inventory.read_inventory_file_to_dict config_read text = Returns groups ->
  forall name : string,
    is_Some (groups !! name) <->
    exists line,
      In line (readlines text) /\ Inventory.header_name line = Some name.
Proof.
  unfold Inventory.read_inventory_file_to_dict. intros Hrun name.
  destruct (config_read text) as [[]|e]; [|discriminate]. simpl in Hrun.
  destruct (Inventory.read_lines (readlines text) Inventory.initial_state)
    as [st'|e] eqn:Hlines; [|discriminate].
  injection Hrun as <-.
  rewrite (read_lines_keys _ _ _ Hlines name). simpl. rewrite lookup_empty.
  split; [intros [[x Hx]|H]; [discriminate Hx | exact H] | auto].
Qed.

Lemma read_inventory_sections_are_headers_witness :
  exists line,
    In line (readlines (Inventory.unlines ["[web]"; "host1"; "[db]"]))
    /\ Inventory.header_name line = Some "db".
Proof.
  apply (read_inventory_sections_are_headers (fun _ => Returns tt)
           (Inventory.unlines ["[web]"; "host1"; "[db]"])
           {[ "web" := [ ({[ "addr" := "host1" ]} : gmap string string) ];
              "db" := [] ]}).
  - vm_compute. reflexivity.
  - eexists. vm_compute. reflexivity.
Defined.

(** X2.  The entry of a section holds the records of the lines listed
    under the last header of the section, up to the next header or the end
    of the file, in the order of the file; blank lines are passed over, and
    a header with no line under it gives the empty list. *)
Theorem read_inventory_section_records
    (config_read : string -> outcome unit) (text : string)
    (before after : list string) (header name : string)
    (groups : gmap string (list (gmap string string))) :
  Inventory.read_inventory_file_to_dict config_read text = Returns groups ->
  readlines text = (before ++ header :: after)%list ->
  Inventory.header_name header = Some name ->
  Forall (fun l => Inventory.header_name l <> Some name) after ->
  exists records,
    groups !! name = Some records
    /\ Forall2 (fun l r => Inventory.read_record l = Returns r)
         (Inventory.listed_under after) records.
Proof.
  unfold Inventory.read_inventory_file_to_dict. intros Hrun Hlines Hname Hafter.
  destruct (config_read text) as [[]|e]; [|discriminate]. simpl in Hrun.
  destruct (Inventory.read_lines (readlines text) Inventory.initial_state)
    as [st'|e] eqn:Hread; [|discriminate].
  injection Hrun as <-.
  rewrite Hlines, read_lines_app in Hread.
  destruct (Inventory.read_lines before Inventory.initial_state) as [st1|e];
    [|discriminate].
  simpl in Hread.
  rewrite (read_line_header st1 header name Hname) in Hread. simpl in Hread.
  destruct (listed_under_collected name after _ _ [] Hread)
    as (records & HF & Hl); simpl; auto.
  { now rewrite lookup_insert_eq. }
  exists records. auto.
Qed.

Lemma read_inventory_section_records_witness :
  exists records,
    ({[ "web" := [ ({[ "addr" := "host1" ]} : gmap string string);
                   {[ "addr" := "host2" ]} ];
        "db" := [] ]} : gmap string (list (gmap string string))) !! "web"
    = Some records
    /\ Forall2 (fun l r => Inventory.read_record l = Returns r)
         (Inventory.listed_under
            [String.append "host1" (String "010" EmptyString);
             String "010" EmptyString;
             String.append "host2" (String "010" EmptyString);
             String.append "[db]" (String "010" EmptyString)])
         records.
Proof.
  apply (read_inventory_section_records (fun _ => Returns tt)
           (Inventory.unlines ["[web]"; "host1"; EmptyString; "host2"; "[db]"])
           []
           [String.append "host1" (String "010" EmptyString);
            String "010" EmptyString;
            String.append "host2" (String "010" EmptyString);
            String.append "[db]" (String "010" EmptyString)]
           (String.append "[web]" (String "010" EmptyString))
           "web").
  - vm_compute. reflexivity.
  - vm_compute. reflexivity.
  - vm_compute. reflexivity.
  - repeat constructor; vm_compute; discriminate.
Defined.

(** X3.  The fields of a record: a key has the value of the last token
    [key=value] of the line for it; when no token names it, [addr] has the
    first token of the line and any other key is absent.  So a repeated
    key keeps its last value, and a token [addr=...] replaces the
    address. *)
Theorem read_record_attributes (line : string) (r : gmap string string) :
  Inventory.read_record line = Returns r ->
  forall key : string,
    r !! key =
      match Inventory.attribute key (tail (split " " line)) with
      | Some v => Some v
      | None =>
          if String.eqb key "addr" then Some (hd EmptyString (split " " line))
          else None
      end.
Proof.
  unfold Inventory.read_record. intros Hrun key.
  rewrite (read_pieces_lookup _ _ _ key Hrun).
  destruct (Inventory.attribute key (tail (split " " line))); [reflexivity|].
  destruct (String.eqb_spec key "addr") as [->|Hne].
  - apply lookup_singleton_eq.
  - apply lookup_singleton_ne. congruence.
Qed.

Lemma read_record_attributes_witness :
  ({[ "addr" := "10.0.0.9"; "zone" := "b" ]} : gmap string string) !! "addr"
  = Some "10.0.0.9".
Proof.
  apply (read_record_attributes "host1 zone=a addr=10.0.0.9 zone=b"
           {[ "addr" := "10.0.0.9"; "zone" := "b" ]}).
  vm_compute. reflexivity.
Defined.

(** X4.  White space at the end of a line is not seen: a line followed by
    blanks, tabs, a carriage return or a line feed is read as the line
    itself. *)
Theorem read_line_ignores_trailing_space
    (st : Inventory.loop_state) (line pad : string) :
  Inventory.is_blank pad = true ->
  Inventory.read_line st (String.append line pad)
  = Inventory.read_line st line.
Proof.
  intros Hpad. unfold Inventory.read_line, rstrip.
  now rewrite (rstrip_with_app isspace line pad (rstrip_blank pad Hpad)).
Qed.

Lemma read_line_ignores_trailing_space_witness :
  Inventory.read_line Inventory.initial_state
    (String.append "[web]"
       (String " " (String "013" (String "010" EmptyString))))
  = Inventory.read_line Inventory.initial_state "[web]".
Proof.
  apply (read_line_ignores_trailing_space Inventory.initial_state "[web]"
           (String " " (String "013" (String "010" EmptyString)))).
  reflexivity.
Defined.

(** X5.  The tokens of a record line are separated by single spaces: a
    line that is not a header and has two spaces in a row makes the reader
    raise, whatever the section; the test [piece == " "] of the loop never
    holds for a piece of [line.split(" ")] and does not pass over the
    empty piece. *)
Theorem read_line_doubled_space
    (st : Inventory.loop_state) (line a b : string) :
  rstrip line = String.append a (String " " (String " " b)) ->
  Inventory.is_header (rstrip line) = false ->
  Inventory.read_line st line
  = Raises (ValueError "wrong number of values to unpack").
Proof.
  intros Hline Hh. unfold Inventory.read_line. rewrite Hh.
  assert ((String.length (rstrip line) =? 0)%nat = false) as ->.
  { rewrite Hline. destruct a; reflexivity. }
  unfold Inventory.read_record.
  pose proof (split_doubled " " a b) as Hin. rewrite <- Hline in Hin.
  pose proof (split_pieces_without_separator " " (rstrip line)) as Hsp.
  assert (Forall (fun p => count_char " " p = 0%nat)
            (tail (split " " (rstrip line)))) as Hsp'.
  { destruct (split " " (rstrip line)); [constructor | now inversion Hsp]. }
  pose proof (read_pieces_returns _ Hsp'
                {[ "addr" := hd EmptyString (split " " (rstrip line)) ]}) as Hret.
  destruct (Inventory.read_pieces _ _) as [r|e] eqn:Hrun.
  - exfalso. destruct Hret as [Hret _]. specialize (Hret eq_refl).
    rewrite Forall_forall in Hret. apply list_elem_of_In in Hin.
    specialize (Hret _ Hin). discriminate Hret.
  - simpl. now rewrite (read_pieces_raises _ _ _ Hrun).
Qed.

Lemma read_line_doubled_space_witness :
  Inventory.read_line
    (Inventory.LoopState "web" {[ "web" := [] ]}) "host1  zone=a"
  = Raises (ValueError "wrong number of values to unpack").
Proof.
  apply (read_line_doubled_space _ "host1  zone=a" "host1" "zone=a");
    reflexivity.
Defined.

(** X6.  No section name of the result begins with an opening bracket or
    ends with a closing one: the brackets of a header are stripped as
    often as they occur, so that [[web]] announces the section web. *)
Theorem read_inventory_names_without_brackets
    (config_read : string -> outcome unit) (text : string)
    (groups : gmap string (list (gmap string string))) (name : string) :
  Inventory.read_inventory_file_to_dict config_read text = Returns groups ->
  is_Some (groups !! name) ->
  startswith "[" name = false /\ endswith "]" name = false.
Proof.
  unfold Inventory.read_inventory_file_to_dict. intros Hrun Hname.
  destruct (config_read text) as [[]|e]; [|discriminate]. simpl in Hrun.
  destruct (Inventory.read_lines (readlines text) Inventory.initial_state)
    as [st'|e] eqn:Hlines; [|discriminate].
  injection Hrun as <-.
  apply (read_lines_keys _ _ _ Hlines name) in Hname. simpl in Hname.
  destruct Hname as [[x Hx]|(line & _ & Hline)].
  - rewrite lookup_empty in Hx. discriminate Hx.
  - exact (header_name_bare line name Hline).
Qed.

Lemma read_inventory_names_without_brackets_witness :
  startswith "[" "web" = false /\ endswith "]" "web" = false.
Proof.
  apply (read_inventory_names_without_brackets (fun _ => Returns tt)
           (Inventory.unlines ["[[web]]"; "host1"])
           {[ "web" := [ ({[ "addr" := "host1" ]} : gmap string string) ] ]}
           "web").
  - vm_compute. reflexivity.
  - eexists. vm_compute. reflexivity.
Defined.

(** X7.  A file with nothing but white space, the empty file among them,
    gives the empty mapping (when [configparser] accepts it). *)
Theorem read_inventory_blank_file
    (config_read : string -> outcome unit) (text : string) :
  Forall (fun l => Inventory.is_blank l = true) (readlines text) ->
  Inventory.read_inventory_file_to_dict config_read text
  = (_ ← config_read text; Returns ∅).
Proof.
  intros Hblank. unfold Inventory.read_inventory_file_to_dict.
  now rewrite (read_lines_blank _ Inventory.initial_state Hblank).
Qed.

Lemma read_inventory_blank_file_witness :
  Inventory.read_inventory_file_to_dict (fun _ => Returns tt)
    (Inventory.unlines [EmptyString; "   "; EmptyString])
  = Returns ∅.
Proof.
  apply (read_inventory_blank_file (fun _ => Returns tt)
           (Inventory.unlines [EmptyString; "   "; EmptyString])).
  repeat constructor.
Defined.

(** ** The remote executor: targets and credentials *)

Section ExecutorCalls.

Import RemoteExecutor.

Variable World : Type.
Variable shell_run : params -> list string -> World -> outcome output * World.
Variable decode : list Byte.byte -> outcome string.

Local Abbreviation execute_nodes :=
  (RemoteExecutor.execute_nodes World shell_run decode).
Local Abbreviation entry_of := (RemoteExecutor.entry_of decode).
Local Abbreviation record_entry := (RemoteExecutor.record_entry decode).

Lemma record_entries_keys (new : list session) :
  forall (m : gmap string ExecutionResult) (k : string),
    is_Some (foldl record_entry m new !! k) <->
    is_Some (m !! k) \/ In k (map (fun s => hostname (session_params s)) new).
Proof.
  induction new as [|s new IH]; intros m k; simpl; [tauto|].
  rewrite IH. unfold RemoteExecutor.record_entry.
  rewrite lookup_insert_is_Some.
  destruct (decide (hostname (session_params s) = k)); intuition.
Qed.

Lemma record_entries_last (l1 l2 : list session) (s : session)
    (m : gmap string ExecutionResult) :
  ~ In (hostname (session_params s))
      (map (fun s => hostname (session_params s)) l2) ->
  foldl record_entry m (l1 ++ s :: l2) !! hostname (session_params s)
  = Some (entry_of s).
Proof.
  intros Hfresh. rewrite foldl_app. simpl.
  rewrite (record_entries_lookup_fresh decode l2 _ _ Hfresh).
  apply lookup_insert_eq.
Qed.

Lemma record_entries_size_le (new : list session) :
  forall m : gmap string ExecutionResult,
    (size (foldl record_entry m new) <= size m + length new)%nat.
Proof.
  induction new as [|s new IH]; intros m; simpl; [lia|].
  specialize (IH (record_entry m s)).
  assert (size (record_entry m s) <= S (size m))%nat.
  { unfold RemoteExecutor.record_entry. rewrite map_size_insert.
    destruct (m !! hostname (session_params s)); simpl; lia. }
  lia.
Qed.

(** The executor enters the loop only through the arguments of the
    sessions. *)
Lemma execute_nodes_ext (self self' : t) (cmd_full : list string)
    (targets : list Node) :
  Forall (fun n => shell_params self n = shell_params self' n) targets ->
  forall fr : frame World,
    execute_nodes self cmd_full targets fr
    = execute_nodes self' cmd_full targets fr.
Proof.
  induction 1 as [|node rest Hp _ IH]; intros fr; simpl; [reflexivity|].
  rewrite Hp.
  destruct (shell_run (shell_params self' node) cmd_full (world World fr))
    as [ended w1].
  destruct (collect decode ended) as [entry|e]; simpl; [apply IH | reflexivity].
Qed.

Lemma execute_nodes_app (self : t) (cmd_full : list string)
    (l1 l2 : list Node) :
  forall fr : frame World,
    execute_nodes self cmd_full (l1 ++ l2) fr
    = fr1 ← execute_nodes self cmd_full l1 fr;
      execute_nodes self cmd_full l2 fr1.
Proof.
  induction l1 as [|node rest IH]; intros fr; simpl; [reflexivity|].
  destruct (shell_run (shell_params self node) cmd_full (world World fr))
    as [ended w1].
  destruct (collect decode ended) as [entry|e]; simpl; [apply IH | reflexivity].
Qed.

(** The loop started with entries and sessions at hand adds to them what
    it gives when started with none. *)
Lemma execute_nodes_frame (self : t) (cmd_full : list string)
    (targets : list Node) :
  forall (m0 : gmap string ExecutionResult) (s0 : list session) (w : World)
         (fr : frame World),
    execute_nodes self cmd_full targets (Frame World ∅ [] w) = Returns fr ->
    execute_nodes self cmd_full targets (Frame World m0 s0 w)
    = Returns (Frame World (results World fr ∪ m0) (s0 ++ sessions World fr)
                 (world World fr)).
Proof.
  induction targets as [|node rest IH]; intros m0 s0 w fr Hrun; simpl in *.
  - injection Hrun as <-. simpl.
    now rewrite (left_id_L ∅ (∪)), app_nil_r.
  - destruct (shell_run (shell_params self node) cmd_full w) as [ended w1].
    destruct (collect decode ended) as [entry|e]; [|discriminate Hrun].
    simpl in *.
    destruct (execute_nodes_returns World shell_run decode self cmd_full rest
                (Frame World ∅ [] w1)) as (new & w' & Heq & _).
    rewrite (IH _ _ _ _ Heq) in Hrun. injection Hrun as <-.
    rewrite (IH _ _ _ _ Heq). simpl. f_equal. f_equal.
    + rewrite insert_empty, (insert_union_singleton_l m0).
      now rewrite (assoc_L (∪)).
    + now rewrite <- app_assoc.
Qed.

End ExecutorCalls.

(** X8.  Whatever the targets and whatever happens to them, [execute]
    returns: it opens one session per target, in order, and the keys of the
    mapping it returns are the addresses of the targets, so that the
    mapping has at most as many entries as there are targets; the
    executor's own nodes stand in for targets that are missing or empty. *)
Theorem execute_entries_are_addresses
    (World : Type)
    (shell_run : RemoteExecutor.params -> list string -> World ->
                 outcome RemoteExecutor.output * World)
    (decode : list Byte.byte -> outcome string)
    (self : RemoteExecutor.t) (cmd : string)
    (nodes_arg : option (list RemoteExecutor.Node)) (w : World) :
  let targets := RemoteExecutor.py_or nodes_arg (RemoteExecutor.nodes self) in
  exists fr,
    RemoteExecutor.execute World shell_run decode self cmd nodes_arg w
    = Returns fr
    /\ (forall k : string,
           is_Some (RemoteExecutor.results World fr !! k) <->
           In k (map RemoteExecutor.ip targets))
    /\ map RemoteExecutor.session_params (RemoteExecutor.sessions World fr)
       = map (RemoteExecutor.shell_params self) targets
    /\ (size (RemoteExecutor.results World fr) <= length targets)%nat.
Proof.
  intros targets. unfold RemoteExecutor.execute. fold targets.
  destruct (execute_nodes_returns World shell_run decode self
              (RemoteExecutor.PREFIX ++ [cmd]) targets
              (RemoteExecutor.Frame World ∅ [] w))
    as (new & w' & Heq & _ & Hpar & _).
  simpl in *. eexists. split; [exact Heq|]. simpl.
  pose proof (hostnames_of_targets self targets new Hpar) as Hhosts.
  split; [|split; [exact Hpar|]].
  - intros k. rewrite record_entries_keys, Hhosts, lookup_empty.
    split; [intros [[x Hx]|H]; [discriminate Hx | exact H] | auto].
  - pose proof (record_entries_size_le decode new ∅) as Hle.
    rewrite map_size_empty in Hle.
    rewrite <- (length_map RemoteExecutor.ip targets), <- Hhosts, length_map.
    exact Hle.
Qed.

(** X9.  When several targets have the same address, the entry of the
    address is that of the last of them: every target is contacted, and the
    result of an earlier one is overwritten. *)
Theorem execute_last_target_wins
    (World : Type)
    (shell_run : RemoteExecutor.params -> list string -> World ->
                 outcome RemoteExecutor.output * World)
    (decode : list Byte.byte -> outcome string)
    (self : RemoteExecutor.t) (cmd : string)
    (before after : list RemoteExecutor.Node) (node : RemoteExecutor.Node)
    (w : World) :
  ~ In (RemoteExecutor.ip node) (map RemoteExecutor.ip after) ->
  exists fr s,
    RemoteExecutor.execute World shell_run decode self cmd
      (Some (before ++ node :: after)) w = Returns fr
    /\ RemoteExecutor.sessions World fr !! length before = Some s
    /\ length (RemoteExecutor.sessions World fr)
       = length (before ++ node :: after)
    /\ RemoteExecutor.session_params s = RemoteExecutor.shell_params self node
    /\ RemoteExecutor.results World fr !! RemoteExecutor.ip node
       = Some (RemoteExecutor.entry_of decode s).
Proof.
  intros Hlast. unfold RemoteExecutor.execute.
  assert (RemoteExecutor.py_or (Some (before ++ node :: after))
            (RemoteExecutor.nodes self) = before ++ node :: after) as ->
    by (destruct before; reflexivity).
  destruct (execute_nodes_returns World shell_run decode self
              (RemoteExecutor.PREFIX ++ [cmd]) (before ++ node :: after)
              (RemoteExecutor.Frame World ∅ [] w))
    as (new & w' & Heq & _ & Hpar & _).
  simpl in *. rewrite Heq.
  assert (length new = length (before ++ node :: after)) as Hlen.
  { rewrite <- (length_map RemoteExecutor.session_params new), Hpar.
    apply length_map. }
  rewrite map_app in Hpar. simpl in Hpar.
  apply fmap_app_inv in Hpar as (n1 & rest & Hn1 & Hrest & ->).
  symmetry in Hrest.
  apply fmap_cons_inv in Hrest as (s & n2 & Hs & Hn2 & ->).
  exists (RemoteExecutor.Frame World
            (foldl (RemoteExecutor.record_entry decode) ∅ (n1 ++ s :: n2))
            (n1 ++ s :: n2) w'), s.
  split; [reflexivity|]. simpl.
  assert (length n1 = length before) as Hl1.
  { rewrite <- (length_map (RemoteExecutor.shell_params self) before), Hn1.
    symmetry. apply length_map. }
  split; [|split; [exact Hlen | split; [now symmetry|]]].
  - rewrite <- Hl1. rewrite lookup_app_r by lia.
    now rewrite Nat.sub_diag.
  - replace (RemoteExecutor.ip node)
      with (RemoteExecutor.hostname (RemoteExecutor.session_params s))
      by (now rewrite <- Hs).
    apply record_entries_last.
    rewrite (hostnames_of_targets self after n2); [|now symmetry].
    now rewrite <- Hs.
Qed.

Lemma execute_last_target_wins_witness :
  exists fr s,
    RemoteExecutor.execute nat Examples.shell_run Examples.decode
      Examples.plain "whoami" (Some [Examples.alpha; Examples.gamma]) 0%nat
    = Returns fr
    /\ RemoteExecutor.sessions nat fr !! 1%nat = Some s
    /\ length (RemoteExecutor.sessions nat fr) = 2%nat
    /\ RemoteExecutor.session_params s
       = RemoteExecutor.shell_params Examples.plain Examples.gamma
    /\ RemoteExecutor.results nat fr !! "10.0.0.1"
       = Some (RemoteExecutor.entry_of Examples.decode s).
Proof.
  apply (execute_last_target_wins nat Examples.shell_run Examples.decode
           Examples.plain "whoami" [Examples.alpha] [] Examples.gamma 0%nat).
  simpl. tauto.
Defined.

(** X10.  The user given to the constructor plays no part in [execute]:
    every session is opened under the user of its node. *)
Theorem execute_ignores_user
    (World : Type)
    (shell_run : RemoteExecutor.params -> list string -> World ->
                 outcome RemoteExecutor.output * World)
    (decode : list Byte.byte -> outcome string)
    (nodes : option (list RemoteExecutor.Node)) (user user' : string)
    (ssh_allow_missing_host_keys : bool)
    (ssh_path_to_private_key : option string)
    (cmd : string) (nodes_arg : option (list RemoteExecutor.Node)) (w : World) :
  RemoteExecutor.execute World shell_run decode
    (RemoteExecutor.__init__ nodes user ssh_allow_missing_host_keys
       ssh_path_to_private_key) cmd nodes_arg w
  = RemoteExecutor.execute World shell_run decode
      (RemoteExecutor.__init__ nodes user' ssh_allow_missing_host_keys
         ssh_path_to_private_key) cmd nodes_arg w
  /\ forall fr s,
       RemoteExecutor.execute World shell_run decode
         (RemoteExecutor.__init__ nodes user ssh_allow_missing_host_keys
            ssh_path_to_private_key) cmd nodes_arg w = Returns fr ->
       In s (RemoteExecutor.sessions World fr) ->
       exists node,
         In node (RemoteExecutor.py_or nodes_arg (RemoteExecutor.py_or nodes []))
         /\ RemoteExecutor.username (RemoteExecutor.session_params s)
            = RemoteExecutor.sshuser node.
Proof.
  split.
  - unfold RemoteExecutor.execute. simpl.
    apply execute_nodes_ext. apply Forall_forall. reflexivity.
  - intros fr s Hrun Hs.
    unfold RemoteExecutor.execute in Hrun.
    destruct (execute_nodes_returns World shell_run decode
                (RemoteExecutor.__init__ nodes user ssh_allow_missing_host_keys
                   ssh_path_to_private_key)
                (RemoteExecutor.PREFIX ++ [cmd])
                (RemoteExecutor.py_or nodes_arg (RemoteExecutor.py_or nodes []))
                (RemoteExecutor.Frame World ∅ [] w))
      as (new & w' & Heq & _ & Hpar & _).
    simpl in *. rewrite Heq in Hrun. injection Hrun as <-. simpl in Hs.
    apply (in_map RemoteExecutor.session_params) in Hs.
    rewrite Hpar in Hs. apply in_map_iff in Hs as (node & Hnode & Hin).
    exists node. split; [exact Hin|]. now rewrite <- Hnode.
Qed.

(** X11.  A node that has a password is contacted with the password, and
    the executor's private key is used for the nodes without one only:
    when every target has a password, the path to the private key makes no
    difference to what [execute] does. *)
Theorem execute_password_before_key
    (World : Type)
    (shell_run : RemoteExecutor.params -> list string -> World ->
                 outcome RemoteExecutor.output * World)
    (decode : list Byte.byte -> outcome string)
    (nodes : option (list RemoteExecutor.Node)) (user : string)
    (ssh_allow_missing_host_keys : bool) (key key' : option string)
    (cmd : string) (nodes_arg : option (list RemoteExecutor.Node)) (w : World) :
  Forall (fun n => is_Some (RemoteExecutor.sshpass n))
    (RemoteExecutor.py_or nodes_arg (RemoteExecutor.py_or nodes [])) ->
  RemoteExecutor.execute World shell_run decode
    (RemoteExecutor.__init__ nodes user ssh_allow_missing_host_keys key)
    cmd nodes_arg w
  = RemoteExecutor.execute World shell_run decode
      (RemoteExecutor.__init__ nodes user ssh_allow_missing_host_keys key')
      cmd nodes_arg w
  /\ exists fr,
       RemoteExecutor.execute World shell_run decode
         (RemoteExecutor.__init__ nodes user ssh_allow_missing_host_keys key)
         cmd nodes_arg w = Returns fr
       /\ Forall (fun s =>
                    exists p,
                      RemoteExecutor.auth (RemoteExecutor.session_params s)
                      = RemoteExecutor.password p)
            (RemoteExecutor.sessions World fr).
Proof.
  intros Hpass. split.
  - unfold RemoteExecutor.execute. simpl.
    apply execute_nodes_ext.
    eapply Forall_impl; [exact Hpass|].
    intros n [p Hp]. unfold RemoteExecutor.shell_params. simpl. now rewrite Hp.
  - unfold RemoteExecutor.execute.
    destruct (execute_nodes_returns World shell_run decode
                (RemoteExecutor.__init__ nodes user ssh_allow_missing_host_keys
                   key)
                (RemoteExecutor.PREFIX ++ [cmd])
                (RemoteExecutor.py_or nodes_arg (RemoteExecutor.py_or nodes []))
                (RemoteExecutor.Frame World ∅ [] w))
      as (new & w' & Heq & _ & Hpar & _).
    simpl in *. rewrite Heq. eexists. split; [reflexivity|]. simpl.
    apply Forall_forall. intros s Hs. apply list_elem_of_In in Hs.
    apply (in_map RemoteExecutor.session_params) in Hs.
    rewrite Hpar in Hs. apply in_map_iff in Hs as (node & Hnode & Hin).
    rewrite Forall_forall in Hpass. apply list_elem_of_In in Hin.
    destruct (Hpass node Hin) as [p Hp]. exists p.
    rewrite <- Hnode. unfold RemoteExecutor.shell_params. simpl. now rewrite Hp.
Qed.

Lemma execute_password_before_key_witness :
  RemoteExecutor.execute nat Examples.shell_run Examples.decode
    (RemoteExecutor.__init__ None "cloud-user" false None)
    "uptime" (Some [Examples.beta]) 0%nat
  = RemoteExecutor.execute nat Examples.shell_run Examples.decode
      (RemoteExecutor.__init__ None "cloud-user" false
         (Some "/root/.ssh/id_rsa"))
      "uptime" (Some [Examples.beta]) 0%nat.
Proof.
  apply (proj1 (execute_password_before_key nat Examples.shell_run
                  Examples.decode None "cloud-user" false None
                  (Some "/root/.ssh/id_rsa") "uptime" (Some [Examples.beta])
                  0%nat
                  ltac:(repeat constructor; eexists; reflexivity))).
Defined.

(** X12.  Running a command on one sequence of targets and then on
    another comes to the same as running it on the two in a row: the
    sessions follow one another, and the entries of the second run go
    before those of the first where the two share an address. *)
Theorem execute_concatenation
    (World : Type)
    (shell_run : RemoteExecutor.params -> list string -> World ->
                 outcome RemoteExecutor.output * World)
    (decode : list Byte.byte -> outcome string)
    (self : RemoteExecutor.t) (cmd : string)
    (first second : list RemoteExecutor.Node) (w : World)
    (fr1 fr2 : RemoteExecutor.frame World) :
  first <> [] ->
  second <> [] ->
  RemoteExecutor.execute World shell_run decode self cmd (Some first) w
  = Returns fr1 ->
  RemoteExecutor.execute World shell_run decode self cmd (Some second)
    (RemoteExecutor.world World fr1) = Returns fr2 ->
  RemoteExecutor.execute World shell_run decode self cmd
    (Some (first ++ second)) w
  = Returns (RemoteExecutor.Frame World
               (RemoteExecutor.results World fr2
                ∪ RemoteExecutor.results World fr1)
               (RemoteExecutor.sessions World fr1
                ++ RemoteExecutor.sessions World fr2)
               (RemoteExecutor.world World fr2)).
Proof.
  intros H1 H2. unfold RemoteExecutor.execute.
  assert (forall l : list RemoteExecutor.Node,
             l <> [] ->
             RemoteExecutor.py_or (Some l) (RemoteExecutor.nodes self) = l)
    as Hor by (intros [|n l] Hl; [contradiction | reflexivity]).
  rewrite (Hor first H1), (Hor second H2), (Hor (first ++ second)).
  - intros Hrun1 Hrun2. rewrite execute_nodes_app, Hrun1. simpl.
    destruct fr1 as [m1 s1 w1]. simpl in *.
    exact (execute_nodes_frame World shell_run decode self _ second m1 s1 w1
             fr2 Hrun2).
  - destruct first; [contradiction | discriminate].
Qed.

Lemma execute_concatenation_witness :
  exists fr1 fr2,
    RemoteExecutor.execute nat Examples.shell_run Examples.decode
      Examples.plain "uptime" (Some [Examples.alpha]) 0%nat = Returns fr1
    /\ RemoteExecutor.execute nat Examples.shell_run Examples.decode
         Examples.plain "uptime" (Some [Examples.gamma; Examples.beta])
         (RemoteExecutor.world nat fr1) = Returns fr2
    /\ RemoteExecutor.execute nat Examples.shell_run Examples.decode
         Examples.plain "uptime"
         (Some ([Examples.alpha] ++ [Examples.gamma; Examples.beta])) 0%nat
       = Returns (RemoteExecutor.Frame nat
                    (RemoteExecutor.results nat fr2
                     ∪ RemoteExecutor.results nat fr1)
                    (RemoteExecutor.sessions nat fr1
                     ++ RemoteExecutor.sessions nat fr2)
                    (RemoteExecutor.world nat fr2)).
Proof.
  do 2 eexists.
  split; [vm_compute; reflexivity|].
  split; [vm_compute; reflexivity|].
  apply (execute_concatenation nat Examples.shell_run Examples.decode
           Examples.plain "uptime" [Examples.alpha]
           [Examples.gamma; Examples.beta] 0%nat).
  - discriminate.
  - discriminate.
  - vm_compute. reflexivity.
  - vm_compute. reflexivity.
Defined.

(** ** The policy schema: clauses and their parameters *)

Section AlternativeFacts.

Variable root : json.

Lemma ocount_positive {A : Type} (f : A -> option bool) (l : list A) :
  forall n : nat,
    ocount f l = Some n -> (0 < n)%nat ->
    exists x, In x l /\ f x = Some true.
Proof.
  induction l as [|x l IH]; intros n H Hn; simpl in H.
  - injection H as <-. lia.
  - destruct (f x) as [b|] eqn:Hx; [|discriminate H].
    destruct (ocount f l) as [m|] eqn:Hm; [|discriminate H].
    destruct b.
    + exists x. split; [now left | exact Hx].
    + injection H as <-.
      destruct (IH m eq_refl) as (y & Hy & Hfy); [simpl in Hn; lia|].
      exists y. split; [now right | exact Hfy].
Qed.

(** An instance that passes a [oneOf] passes one of its alternatives. *)
Lemma valid_oneOf (fuel fuel' : nat) (schema : json)
    (kw : list (string * json)) (instance : json) (subs : list json) :
  fuel = S fuel' ->
  schema = JObj kw ->
  is_valid root fuel schema instance = Some true ->
  get "$ref" kw = None ->
  get "oneOf" kw = Some (JArr subs) ->
  exists sub, In sub subs /\ is_valid root fuel' sub instance = Some true.
Proof.
  intros Hfuel Hschema Hvalid Hnoref Hone.
  destruct (valid_keywords root fuel fuel' schema kw instance Hfuel Hschema
              Hvalid Hnoref) as (_ & _ & _ & _ & _ & _ & H).
  unfold check_oneOf in H. rewrite Hone in H.
  destruct (ocount (fun sub => is_valid root fuel' sub instance) subs)
    as [n|] eqn:Hn; [|discriminate H].
  simpl in H. injection H as H. apply Nat.eqb_eq in H. subst n.
  apply (ocount_positive _ _ 1%nat Hn). lia.
Qed.

Lemma mapM_option_In {A B : Type} (f : A -> option B) (l : list A) :
  forall (ys : list B) (x : A),
    mapM f l = Some ys -> In x l -> exists y, f x = Some y /\ In y ys.
Proof.
  induction l as [|a l IH]; intros ys x H Hx; [destruct Hx|].
  simpl in H. destruct (f a) as [y|] eqn:Hy; [|discriminate H].
  simpl in H. destruct (mapM f l) as [ys'|] eqn:Hys; [|discriminate H].
  simpl in H. injection H as <-.
  destruct Hx as [->|Hx].
  - exists y. split; [exact Hy | now left].
  - destruct (IH ys' x eq_refl Hx) as (y' & Hy' & Hin).
    exists y'. split; [exact Hy' | now right].
Qed.

(** A clause that passes the definition of a kind has the key of the
    kind and no other, and its parameters pass the schema of the kind. *)
Lemma valid_kind (f f' : nat) (def : json) (kind : string) (sub clause : json) :
  f = S f' ->
  kind_of_definition def = Some (kind, sub) ->
  is_valid root f def clause = Some true ->
  exists fields v,
    clause = JObj fields
    /\ get kind fields = Some v
    /\ (forall k, In k (map fst fields) -> k = kind)
    /\ is_valid root f' sub v = Some true.
Proof.
  intros Hf Hkind Hvalid.
  destruct def as [| | | | |kw]; try discriminate Hkind.
  unfold kind_of_definition in Hkind.
  destruct (get "$ref" kw) eqn:Hnoref; [discriminate Hkind|].
  destruct (get "type" kw) as [[| | |t| |]|] eqn:Htype; try discriminate Hkind.
  destruct (get "required" kw) as [[| | | |[|[| | |kind'| |] [|]]|]|] eqn:Hreq;
    try discriminate Hkind.
  destruct (get "additionalProperties" kw) as [[|[]| | | |]|] eqn:Hadd;
    try discriminate Hkind.
  destruct (schema_properties kw) as [[|[k sub'] [|]]|] eqn:Hprops;
    try discriminate Hkind.
  destruct (String.eqb_spec t "object") as [->|]; [|discriminate Hkind].
  destruct (String.eqb_spec k kind') as [->|]; [|discriminate Hkind].
  simpl in Hkind. injection Hkind as -> ->.
  destruct (valid_object root f f' _ kw clause Hf eq_refl Hvalid Hnoref Htype)
    as [fields ->].
  pose proof (valid_required root f f' _ kw _ Hf eq_refl Hvalid Hnoref _ kind
                fields Hreq (or_introl eq_refl) eq_refl) as Hhas.
  apply has_key_get in Hhas. destruct Hhas as [v Hv].
  exists fields, v. split; [reflexivity|]. split; [exact Hv|]. split.
  - intros k Hk.
    pose proof (valid_closed root f f' _ kw _ Hf eq_refl Hvalid Hnoref _ fields
                  k Hadd Hprops eq_refl Hk) as Hclosed.
    apply has_key_In in Hclosed. simpl in Hclosed. intuition.
  - exact (valid_property root f f' _ kw _ Hf eq_refl Hvalid Hnoref _ fields
             kind sub v Hprops (or_introl eq_refl) eq_refl Hv).
Qed.

(** An item that passes a [oneOf] of kinds is a clause of one of them. *)
Lemma valid_kinds (f f1 f2 f3 : nat) (items : json)
    (table : list (string * json)) (clause : json) :
  f = S f1 -> f1 = S f2 -> f2 = S f3 ->
  kinds_of_items root items = Some table ->
  is_valid root f items clause = Some true ->
  exists fields kind sub v,
    clause = JObj fields
    /\ In (kind, sub) table
    /\ get kind fields = Some v
    /\ (forall k, In k (map fst fields) -> k = kind)
    /\ is_valid root f3 sub v = Some true.
Proof.
  intros Hf Hf1 Hf2 Htable Hvalid.
  destruct items as [| | | | |kw]; try discriminate Htable.
  unfold kinds_of_items in Htable.
  destruct (get "$ref" kw) eqn:Hnoref; [discriminate Htable|].
  destruct (get "oneOf" kw) as [[| | | |alts|]|] eqn:Hone;
    try discriminate Htable.
  destruct (valid_oneOf f f1 _ kw clause alts Hf eq_refl Hvalid Hnoref Hone)
    as (alt & Halt & Hv).
  destruct (mapM_option_In _ _ _ _ Htable Halt) as ([kind sub] & Hk & Hin).
  destruct alt as [| | | | |akw]; try discriminate Hk.
  unfold kind_of_alternative in Hk.
  destruct (get "$ref" akw) as [[| | |ref| |]|] eqn:Href; try discriminate Hk.
  destruct (resolve root ref) as [def|] eqn:Hres; [|discriminate Hk].
  simpl in Hk.
  pose proof (valid_ref root f1 f2 _ akw clause Hf1 eq_refl Hv ref def Href Hres)
    as Hdef.
  destruct (valid_kind f2 f3 def kind sub clause Hf2 Hk Hdef)
    as (fields & v & -> & Hget & Hkeys & Hsub).
  exists fields, kind, sub, v. auto.
Qed.

(** The clauses that a valid scenario lists under a field. *)
Lemma valid_field (f f1 f2 f3 f4 f5 : nat) (def : json) (field : string)
    (table : list (string * json)) (scenario clause : json) :
  f = S f1 -> f1 = S f2 -> f2 = S f3 -> f3 = S f4 -> f4 = S f5 ->
  kinds_of_field root def field = Some table ->
  is_valid root f def scenario = Some true ->
  In clause (clauses_of field scenario) ->
  exists fields kind sub v,
    clause = JObj fields
    /\ In (kind, sub) table
    /\ get kind fields = Some v
    /\ (forall k, In k (map fst fields) -> k = kind)
    /\ is_valid root f5 sub v = Some true.
Proof.
  intros Hf Hf1 Hf2 Hf3 Hf4 Htable Hvalid Hin.
  destruct def as [| | | | |kw]; try discriminate Htable.
  unfold kinds_of_field in Htable.
  destruct (get "$ref" kw) eqn:Hnoref; [discriminate Htable|].
  destruct (schema_properties kw) as [props|] eqn:Hprops; [|discriminate Htable].
  destruct (get field props) as [[| | | | |pkw]|] eqn:Hfield;
    try discriminate Htable.
  destruct (get "$ref" pkw) eqn:Hpnoref; [discriminate Htable|].
  destruct (get "type" pkw) as [[| | |t| |]|] eqn:Hptype; try discriminate Htable.
  destruct (get "items" pkw) as [[| | | | |ikw]|] eqn:Hitems;
    try discriminate Htable.
  destruct (String.eqb_spec t "array") as [->|]; [|discriminate Htable].
  unfold clauses_of in Hin.
  destruct scenario as [| | | | |sf]; try destruct Hin.
  destruct (get field sf) as [[| | | |clauses|]|] eqn:Hget; try destruct Hin.
  pose proof (valid_property root f f1 _ kw _ Hf eq_refl Hvalid Hnoref props sf
                field (JObj pkw) (JArr clauses) Hprops (get_In _ _ _ Hfield)
                eq_refl Hget) as Harr.
  pose proof (valid_item root f1 f2 _ pkw _ Hf1 eq_refl Harr Hpnoref ikw clauses
                clause Hitems eq_refl Hin) as Hitem.
  exact (valid_kinds f2 f3 f4 f5 (JObj ikw) table clause Hf2 Hf3 Hf4 Htable
           Hitem).
Qed.

Lemma valid_fuel (f : nat) (schema instance : json) :
  is_valid root f schema instance = Some true -> exists f', f = S f'.
Proof. destruct f; [discriminate | eauto]. Qed.

(** An instance that passes a schema has the type that the schema asks. *)
Lemma valid_type_of_schema (f : nat) (sub : json) (t : string) (v : json) :
  type_of_schema root sub = Some t ->
  is_valid root f sub v = Some true ->
  is_type t v = Some true.
Proof.
  intros Ht Hvalid. destruct (valid_fuel _ _ _ Hvalid) as [f' Hf].
  destruct sub as [| | | | |kw]; try discriminate Ht.
  unfold type_of_schema in Ht.
  destruct (get "$ref" kw) as [[| | |ref| |]|] eqn:Href; try discriminate Ht.
  - destruct (resolve root ref) as [[| | | | |target]|] eqn:Hres;
      try discriminate Ht.
    destruct (get "$ref" target) eqn:Hnoref; [discriminate Ht|].
    destruct (get "type" target) as [[| | |t'| |]|] eqn:Htype;
      try discriminate Ht.
    injection Ht as ->.
    pose proof (valid_ref root f f' _ kw v Hf eq_refl Hvalid ref _ Href Hres)
      as Htarget.
    destruct (valid_fuel _ _ _ Htarget) as [f'' Hf'].
    exact (valid_type root f' f'' _ target v Hf' eq_refl Htarget Hnoref t Htype).
  - destruct (get "type" kw) as [[| | |t'| |]|] eqn:Htype; try discriminate Ht.
    injection Ht as ->.
    exact (valid_type root f f' _ kw v Hf eq_refl Hvalid Href t Htype).
Qed.

Lemma mapM_option_In_inv {A B : Type} (f : A -> option B) (l : list A) :
  forall (ys : list B) (y : B),
    mapM f l = Some ys -> In y ys -> exists x, In x l /\ f x = Some y.
Proof.
  induction l as [|a l IH]; intros ys y H Hy; simpl in H.
  - injection H as <-. destruct Hy.
  - destruct (f a) as [b|] eqn:Hb; [|discriminate H].
    simpl in H. destruct (mapM f l) as [ys'|] eqn:Hys; [|discriminate H].
    simpl in H. injection H as <-.
    destruct Hy as [->|Hy].
    + exists a. split; [now left | exact Hb].
    + destruct (IH ys' y eq_refl Hy) as (x & Hx & Hfx).
      exists x. split; [now right | exact Hfx].
Qed.

(** An instance that passes the schema of a closed object is such an
    object. *)
Lemma valid_record (f : nat) (sub : json) (types : list (string * string))
    (required : list string) (v : json) :
  record_schema root sub = Some (types, required) ->
  is_valid root f sub v = Some true ->
  record_of types required v.
Proof.
  intros Hrec Hvalid. destruct (valid_fuel _ _ _ Hvalid) as [f' Hf].
  destruct sub as [| | | | |kw]; try discriminate Hrec.
  unfold record_schema in Hrec.
  destruct (get "$ref" kw) eqn:Hnoref; [discriminate Hrec|].
  destruct (get "type" kw) as [[| | |t| |]|] eqn:Htype; try discriminate Hrec.
  destruct (get "additionalProperties" kw) as [[|[]| | | |]|] eqn:Hadd;
    try discriminate Hrec.
  destruct (schema_properties kw) as [props|] eqn:Hprops; [|discriminate Hrec].
  destruct (String.eqb_spec t "object") as [->|]; [|discriminate Hrec].
  destruct (mapM (fun p => t ← type_of_schema root (snd p); Some (fst p, t))
              props) as [types'|] eqn:Htypes; [|discriminate Hrec].
  simpl in Hrec.
  destruct (valid_object root f f' _ kw v Hf eq_refl Hvalid Hnoref Htype)
    as [fields ->].
  exists fields. split; [reflexivity|].
  assert (map fst types' = map fst props) as Hnames.
  { clear -Htypes. revert types' Htypes.
    induction props as [|[k s] props IH]; intros types' H; simpl in H.
    - now injection H as <-.
    - destruct (type_of_schema root s) as [t|]; [|discriminate H]. simpl in H.
      destruct (mapM _ props) as [ts|] eqn:Hts; [|discriminate H].
      simpl in H. injection H as <-. simpl. f_equal. now apply IH. }
  split; [|split].
  - intros k Hk.
    destruct (get "required" kw) as [[| | | |names|]|] eqn:Hreq;
      try discriminate Hrec.
    + destruct (mapM _ names) as [required'|] eqn:Hnames'; [|discriminate Hrec].
      simpl in Hrec. injection Hrec as <- <-.
      destruct (mapM_option_In_inv _ _ _ _ Hnames' Hk) as (n & Hn & Hnk).
      destruct n as [| | |k'| |]; try discriminate Hnk. injection Hnk as ->.
      exact (valid_required root f f' _ kw _ Hf eq_refl Hvalid Hnoref names k
               fields Hreq Hn eq_refl).
    + simpl in Hrec. injection Hrec as <- <-. destruct Hk.
  - intros k Hk.
    assert (types = types') as ->.
    { destruct (get "required" kw) as [[| | | |names|]|];
        try discriminate Hrec.
      - destruct (mapM _ names); [|discriminate Hrec]. simpl in Hrec.
        now injection Hrec as <- <-.
      - simpl in Hrec. now injection Hrec as <- <-. }
    rewrite Hnames. apply has_key_In.
    exact (valid_closed root f f' _ kw _ Hf eq_refl Hvalid Hnoref props fields k
             Hadd Hprops eq_refl Hk).
  - intros k t x Hkt Hx.
    assert (types = types') as ->.
    { destruct (get "required" kw) as [[| | | |names|]|];
        try discriminate Hrec.
      - destruct (mapM _ names); [|discriminate Hrec]. simpl in Hrec.
        now injection Hrec as <- <-.
      - simpl in Hrec. now injection Hrec as <- <-. }
    destruct (mapM_option_In_inv _ _ _ _ Htypes Hkt) as ([k' s] & Hin & Hs).
    simpl in Hs.
    destruct (type_of_schema root s) as [t'|] eqn:Ht; [|discriminate Hs].
    simpl in Hs. injection Hs as -> ->.
    pose proof (valid_property root f f' _ kw _ Hf eq_refl Hvalid Hnoref props
                  fields k s x Hprops Hin eq_refl Hx) as Hsub.
    exact (valid_type_of_schema f' s t x Ht Hsub).
Qed.

(** A string that passes an [enum] is one of its values. *)
Lemma valid_enum (f : nat) (kw : list (string * json))
    (values : list json) (v : json) :
  is_valid root f (JObj kw) v = Some true ->
  get "$ref" kw = None ->
  get "enum" kw = Some (JArr values) ->
  exists s, v = JStr s /\ In (JStr s) values.
Proof.
  intros Hvalid Hnoref Henum.
  destruct (valid_fuel _ _ _ Hvalid) as [f' Hf].
  destruct (valid_keywords root f f' _ kw v Hf eq_refl Hvalid Hnoref)
    as (_ & H & _).
  unfold check_enum in H. rewrite Henum in H.
  destruct (forallb _ values); [|discriminate H].
  injection H as H. destruct v as [| | |s| |]; try discriminate H.
  exists s. split; [reflexivity|].
  apply existsb_exists in H as (e & He & Hes).
  destruct e as [| | |e| |]; try discriminate Hes.
  apply String.eqb_eq in Hes. now subst.
Qed.

(** The same facts with the fuel left aside. *)
Lemma valid_property_of (f : nat) (kw props fields : list (string * json))
    (k : string) (sub x : json) :
  is_valid root f (JObj kw) (JObj fields) = Some true ->
  get "$ref" kw = None ->
  schema_properties kw = Some props ->
  In (k, sub) props ->
  get k fields = Some x ->
  exists f', is_valid root f' sub x = Some true.
Proof.
  intros Hvalid Hnoref Hprops Hin Hx.
  destruct (valid_fuel _ _ _ Hvalid) as [f' Hf]. exists f'.
  exact (valid_property root f f' _ kw _ Hf eq_refl Hvalid Hnoref props fields
           k sub x Hprops Hin eq_refl Hx).
Qed.

Lemma valid_ref_of (f : nat) (kw : list (string * json)) (ref : string)
    (target v : json) :
  is_valid root f (JObj kw) v = Some true ->
  get "$ref" kw = Some (JStr ref) ->
  resolve root ref = Some target ->
  exists f', is_valid root f' target v = Some true.
Proof.
  intros Hvalid Href Hres.
  destruct (valid_fuel _ _ _ Hvalid) as [f' Hf]. exists f'.
  exact (valid_ref root f f' _ kw v Hf eq_refl Hvalid ref target Href Hres).
Qed.

Lemma valid_item_of (f : nat) (kw sub : list (string * json))
    (items : list json) (e : json) :
  is_valid root f (JObj kw) (JArr items) = Some true ->
  get "$ref" kw = None ->
  get "items" kw = Some (JObj sub) ->
  In e items ->
  exists f', is_valid root f' (JObj sub) e = Some true.
Proof.
  intros Hvalid Hnoref Hitems He.
  destruct (valid_fuel _ _ _ Hvalid) as [f' Hf]. exists f'.
  exact (valid_item root f f' _ kw _ Hf eq_refl Hvalid Hnoref sub items e
           Hitems eq_refl He).
Qed.

End AlternativeFacts.

Section ScenarioFacts.

Lemma fuel_levels_deep :
  exists f1 f2 f3 f4 f5 f6 f7 f8 f9 f10 f11 f12 : nat,
    depth = S f1 /\ f1 = S f2 /\ f2 = S f3 /\ f3 = S f4 /\ f4 = S f5
    /\ f5 = S f6 /\ f6 = S f7 /\ f7 = S f8 /\ f8 = S f9 /\ f9 = S f10
    /\ f10 = S f11 /\ f11 = S f12.
Proof.
  exists 15%nat, 14%nat, 13%nat, 12%nat, 11%nat, 10%nat, 9%nat, 8%nat, 7%nat,
    6%nat, 5%nat, 4%nat.
  repeat split.
Qed.

(** A scenario of a valid policy passes the definition of its kind. *)
Lemma valid_scenario (f1 f2 f3 : nat) (policy : json) (key : string)
    (def scenario : json) :
  depth = S f1 -> f1 = S f2 -> f2 = S f3 ->
  validate policy = Some true ->
  (key = "nodeScenarios" /\ def = def_nodeScenario)
  \/ (key = "podScenarios" /\ def = def_podScenario) ->
  In scenario (scenarios_of key policy) ->
  is_valid get_schema f3 def scenario = Some true.
Proof.
  intros Hf1 Hf2 Hf3 H Hkey Hin. rewrite validate_unfold in H.
  unfold scenarios_of in Hin.
  destruct policy as [| | | | |fields]; try destruct Hin.
  destruct (get key fields) as [[| | | |scenarios|]|] eqn:Hget;
    try destruct Hin.
  assert (exists sub ref,
             is_valid get_schema f1
               (JObj [("type", JStr "array"); ("items", JObj sub)])
               (JArr scenarios) = Some true
             /\ get "$ref" sub = Some (JStr ref)
             /\ resolve get_schema ref = Some def)
    as (sub & ref & Hv & Href & Hres).
  { destruct Hkey as [[-> ->] | [-> ->]]; do 2 eexists; (split; [|split]).
    - eapply (valid_property get_schema depth f1 get_schema _ _ Hf1 eq_refl H);
        [by_schema | by_schema | right; left; reflexivity | reflexivity
        | exact Hget].
    - by_schema.
    - by_schema.
    - eapply (valid_property get_schema depth f1 get_schema _ _ Hf1 eq_refl H);
        [by_schema | by_schema | right; right; left; reflexivity | reflexivity
        | exact Hget].
    - by_schema.
    - by_schema. }
  pose proof (valid_item _ _ _ _ _ _ Hf2 eq_refl Hv eq_refl sub scenarios
                scenario eq_refl eq_refl Hin) as Hitem.
  exact (valid_ref _ _ _ _ _ _ Hf3 eq_refl Hitem ref def Href Hres).
Qed.

(** The clauses of a scenario of a valid policy. *)
Lemma valid_clause (policy : json) (key : string) (def : json)
    (field : string) (table : list (string * json)) (scenario clause : json) :
  validate policy = Some true ->
  (key = "nodeScenarios" /\ def = def_nodeScenario)
  \/ (key = "podScenarios" /\ def = def_podScenario) ->
  kinds_of_field get_schema def field = Some table ->
  In scenario (scenarios_of key policy) ->
  In clause (clauses_of field scenario) ->
  clause_of (map fst table) clause.
Proof.
  intros Hvalid Hkey Htable Hs Hc.
  destruct fuel_levels_deep
    as (f1 & f2 & f3 & f4 & f5 & f6 & f7 & f8 & _ & _ & _ & _
        & Hf1 & Hf2 & Hf3 & Hf4 & Hf5 & Hf6 & Hf7 & Hf8 & _).
  pose proof (valid_scenario f1 f2 f3 policy key def scenario Hf1 Hf2 Hf3 Hvalid
                Hkey Hs) as Hscenario.
  destruct (valid_field get_schema f3 f4 f5 f6 f7 f8 def field table scenario
              clause Hf4 Hf5 Hf6 Hf7 Hf8 Htable Hscenario Hc)
    as (fields & kind & sub & v & -> & Hin & Hget & Hkeys & _).
  exists fields, kind. split; [reflexivity|]. split; [|split; [|exact Hkeys]].
  - change kind with (fst (kind, sub)). now apply in_map.
  - apply has_key_get. eauto.
Qed.

End ScenarioFacts.

(** The entry of a table of kinds that a clause is of. *)
Ltac which_kind Hin :=
  simpl in Hin;
  repeat match type of Hin with
         | _ \/ _ => destruct Hin as [Hin|Hin]
         end;
  try discriminate Hin; try contradiction;
  injection Hin as <-.

Section ParameterFacts.

(** The parameters of a clause of a scenario of a valid policy pass the
    schema of the kind of the clause. *)
Lemma valid_parameters (policy : json) (key : string) (def : json)
    (field : string) (table : list (string * json))
    (scenario clause : json) (kind : string) (v : json) :
  validate policy = Some true ->
  (key = "nodeScenarios" /\ def = def_nodeScenario)
  \/ (key = "podScenarios" /\ def = def_podScenario) ->
  kinds_of_field get_schema def field = Some table ->
  In scenario (scenarios_of key policy) ->
  In clause (clauses_of field scenario) ->
  parameters kind clause = Some v ->
  exists (sub : json) (f : nat),
    In (kind, sub) table /\ is_valid get_schema f sub v = Some true.
Proof.
  intros Hvalid Hkey Htable Hs Hc Hp.
  destruct fuel_levels_deep
    as (f1 & f2 & f3 & f4 & f5 & f6 & f7 & f8 & _ & _ & _ & _
        & Hf1 & Hf2 & Hf3 & Hf4 & Hf5 & Hf6 & Hf7 & Hf8 & _).
  pose proof (valid_scenario f1 f2 f3 policy key def scenario Hf1 Hf2 Hf3 Hvalid
                Hkey Hs) as Hscenario.
  destruct (valid_field get_schema f3 f4 f5 f6 f7 f8 def field table scenario
              clause Hf4 Hf5 Hf6 Hf7 Hf8 Htable Hscenario Hc)
    as (fields & kind0 & sub & v0 & -> & Hin & Hget & Hkeys & Hsub).
  simpl in Hp.
  assert (kind = kind0) as ->.
  { apply Hkeys. apply has_key_In. apply has_key_get. eauto. }
  exists sub, f8. split; [exact Hin|]. congruence.
Qed.

(** An instance that passes a closed schema without properties, for an
    object or for nothing, is nothing or the empty object. *)
Lemma valid_nothing (f : nat) (v : json) :
  is_valid get_schema f
    (JObj [("type", JArr [JStr "object"; JStr "null"]);
           ("additionalProperties", JBool false)]) v = Some true ->
  v = JNull \/ v = JObj [].
Proof.
  intros Hvalid. destruct (valid_fuel _ _ _ _ Hvalid) as [f' Hf].
  destruct (valid_keywords get_schema f f' _ _ v Hf eq_refl Hvalid eq_refl)
    as (Htype & _ & _ & Hadd & _).
  destruct v as [| | | | |fields]; try discriminate Htype; [now left | right].
  unfold check_additionalProperties in Hadd. simpl in Hadd.
  injection Hadd as Hadd.
  destruct fields as [|[k x] fields]; [reflexivity | discriminate Hadd].
Qed.

End ParameterFacts.

Section PropertyFacts.

(** The names that a property schema lets a property have. *)
Lemma valid_property_name (f : nat) (kw props nkw : list (string * json))
    (values : list json) (v : json) (s : string) :
  is_valid get_schema f (JObj kw) v = Some true ->
  get "$ref" kw = None ->
  schema_properties kw = Some props ->
  In ("name", JObj nkw) props ->
  get "$ref" nkw = None ->
  get "enum" nkw = Some (JArr values) ->
  parameters "name" v = Some (JStr s) ->
  In (JStr s) values.
Proof.
  intros Hvalid Hnoref Hprops Hin Hnnoref Henum Hname.
  destruct v as [| | | | |pf]; try discriminate Hname. simpl in Hname.
  destruct (valid_property_of get_schema f kw props pf "name" (JObj nkw)
              (JStr s) Hvalid Hnoref Hprops Hin Hname) as [f' Hn].
  destruct (valid_enum get_schema f' nkw values (JStr s) Hn Hnnoref Henum)
    as (s' & [= <-] & Hs).
  exact Hs.
Qed.

End PropertyFacts.

(** X13.  In a policy that passes validation, every clause that a node
    scenario lists is an object with one key, the kind of the clause, and
    no other: a [match] clause is a property; a filter is a property, a
    day time, a random sample or a probability; an action starts, stops,
    executes or waits. *)
Theorem node_scenario_clauses (policy scenario : json) :
  returns (validate_file policy) = true ->
  In scenario (scenarios_of "nodeScenarios" policy) ->
  Forall (clause_of ["property"]) (clauses_of "match" scenario)
  /\ Forall (clause_of ["property"; "dayTime"; "randomSample"; "probability"])
       (clauses_of "filters" scenario)
  /\ Forall (clause_of ["start"; "stop"; "execute"; "wait"])
       (clauses_of "actions" scenario).
Proof.
  intros Hret Hs. apply validate_file_returns in Hret.
  assert (forall field table kinds,
             kinds_of_field get_schema def_nodeScenario field = Some table ->
             map fst table = kinds ->
             Forall (clause_of kinds) (clauses_of field scenario))
    as Hfield.
  { intros field table kinds Htable <-. apply Forall_forall. intros clause Hc.
    apply list_elem_of_In in Hc.
    exact (valid_clause policy "nodeScenarios" def_nodeScenario field table
             scenario clause Hret (or_introl (conj eq_refl eq_refl)) Htable
             Hs Hc). }
  split; [|split].
  - eapply (Hfield "match"); by_schema.
  - eapply (Hfield "filters"); by_schema.
  - eapply (Hfield "actions"); by_schema.
Qed.


Lemma node_scenario_clauses_witness :
  Forall (clause_of ["property"])
    (clauses_of "match" Examples.busy_node_scenario)
  /\ Forall (clause_of ["property"; "dayTime"; "randomSample"; "probability"])
       (clauses_of "filters" Examples.busy_node_scenario)
  /\ Forall (clause_of ["start"; "stop"; "execute"; "wait"])
       (clauses_of "actions" Examples.busy_node_scenario).
Proof.
  apply (node_scenario_clauses Examples.busy_policy).
  - vm_compute. reflexivity.
  - simpl. left. reflexivity.
Defined.

(** X14.  In a policy that passes validation, every clause that a pod
    scenario lists is an object with one key, the kind of the clause, and
    no other: a [match] clause names a namespace, a deployment or labels; a
    filter is a property, a day time, a random sample or a probability; an
    action kills or waits. *)
Theorem pod_scenario_clauses (policy scenario : json) :
  returns (validate_file policy) = true ->
  In scenario (scenarios_of "podScenarios" policy) ->
  Forall (clause_of ["namespace"; "deployment"; "labels"])
    (clauses_of "match" scenario)
  /\ Forall (clause_of ["property"; "dayTime"; "randomSample"; "probability"])
       (clauses_of "filters" scenario)
  /\ Forall (clause_of ["kill"; "wait"]) (clauses_of "actions" scenario).
Proof.
  intros Hret Hs. apply validate_file_returns in Hret.
  assert (forall field table kinds,
             kinds_of_field get_schema def_podScenario field = Some table ->
             map fst table = kinds ->
             Forall (clause_of kinds) (clauses_of field scenario))
    as Hfield.
  { intros field table kinds Htable <-. apply Forall_forall. intros clause Hc.
    apply list_elem_of_In in Hc.
    exact (valid_clause policy "podScenarios" def_podScenario field table
             scenario clause Hret (or_intror (conj eq_refl eq_refl)) Htable
             Hs Hc). }
  split; [|split].
  - eapply (Hfield "match"); by_schema.
  - eapply (Hfield "filters"); by_schema.
  - eapply (Hfield "actions"); by_schema.
Qed.

Lemma pod_scenario_clauses_witness :
  Forall (clause_of ["namespace"; "deployment"; "labels"])
    (clauses_of "match" Examples.busy_pod_scenario)
  /\ Forall (clause_of ["property"; "dayTime"; "randomSample"; "probability"])
       (clauses_of "filters" Examples.busy_pod_scenario)
  /\ Forall (clause_of ["kill"; "wait"])
       (clauses_of "actions" Examples.busy_pod_scenario).
Proof.
  apply (pod_scenario_clauses Examples.busy_policy).
  - vm_compute. reflexivity.
  - simpl. left. reflexivity.
Defined.

(** X15.  In a policy that passes validation, the action of a node
    scenario that starts a node has no parameter (nothing, or the empty
    object); one that stops a node may say whether to force, a boolean,
    and nothing else; one that executes gives the command, a string, and
    nothing else; one that waits gives the seconds, a number, and nothing
    else. *)
Theorem node_action_parameters (policy scenario action v : json) :
  returns (validate_file policy) = true ->
  In scenario (scenarios_of "nodeScenarios" policy) ->
  In action (clauses_of "actions" scenario) ->
  (parameters "start" action = Some v -> v = JNull \/ v = JObj [])
  /\ (parameters "stop" action = Some v ->
      record_of [("force", "boolean")] [] v)
  /\ (parameters "execute" action = Some v ->
      record_of [("cmd", "string")] ["cmd"] v)
  /\ (parameters "wait" action = Some v ->
      record_of [("seconds", "number")] ["seconds"] v).
Proof.
  intros Hret Hs Hc. apply validate_file_returns in Hret.
  destruct (kinds_of_field get_schema def_nodeScenario "actions")
    as [table|] eqn:Htable; [|vm_compute in Htable; discriminate Htable].
  pose proof (fun kind =>
                valid_parameters policy "nodeScenarios" def_nodeScenario
                  "actions" table scenario action kind v Hret
                  (or_introl (conj eq_refl eq_refl)) Htable Hs Hc) as Hp.
  vm_compute in Htable. injection Htable as <-.
  repeat split; intros Hkind;
    destruct (Hp _ Hkind) as (sub & f & Hin & Hvalid);
    which_kind Hin.
  - exact (valid_nothing f v Hvalid).
  - refine (valid_record get_schema f _ _ _ v _ Hvalid). by_schema.
  - refine (valid_record get_schema f _ _ _ v _ Hvalid). by_schema.
  - refine (valid_record get_schema f _ _ _ v _ Hvalid). by_schema.
Qed.

Lemma node_action_parameters_witness :
  record_of [("seconds", "number")] ["seconds"] (JObj [("seconds", JNum 30)]).
Proof.
  destruct (node_action_parameters Examples.busy_policy
              Examples.busy_node_scenario
              (JObj [("wait", JObj [("seconds", JNum 30)])])
              (JObj [("seconds", JNum 30)])) as (_ & _ & _ & Hwait).
  - vm_compute. reflexivity.
  - simpl. left. reflexivity.
  - simpl. right. left. reflexivity.
  - apply Hwait. reflexivity.
Defined.

(** X16.  In a policy that passes validation, the [match] clause of a pod
    scenario that names a namespace gives its name; one that names a
    deployment gives its name and its namespace; one that names labels
    gives a selector and a namespace; all of them strings, and nothing
    else. *)
Theorem pod_match_parameters (policy scenario clause v : json) :
  returns (validate_file policy) = true ->
  In scenario (scenarios_of "podScenarios" policy) ->
  In clause (clauses_of "match" scenario) ->
  (parameters "namespace" clause = Some v ->
   record_of [("name", "string")] ["name"] v)
  /\ (parameters "deployment" clause = Some v ->
      record_of [("name", "string"); ("namespace", "string")]
        ["name"; "namespace"] v)
  /\ (parameters "labels" clause = Some v ->
      record_of [("selector", "string"); ("namespace", "string")]
        ["selector"; "namespace"] v).
Proof.
  intros Hret Hs Hc. apply validate_file_returns in Hret.
  destruct (kinds_of_field get_schema def_podScenario "match")
    as [table|] eqn:Htable; [|vm_compute in Htable; discriminate Htable].
  pose proof (fun kind =>
                valid_parameters policy "podScenarios" def_podScenario
                  "match" table scenario clause kind v Hret
                  (or_intror (conj eq_refl eq_refl)) Htable Hs Hc) as Hp.
  vm_compute in Htable. injection Htable as <-.
  repeat split; intros Hkind;
    destruct (Hp _ Hkind) as (sub & f & Hin & Hvalid);
    which_kind Hin;
    refine (valid_record get_schema f _ _ _ v _ Hvalid); by_schema.
Qed.

Lemma pod_match_parameters_witness :
  record_of [("name", "string"); ("namespace", "string")] ["name"; "namespace"]
    (JObj [("name", JStr "web"); ("namespace", JStr "default")]).
Proof.
  destruct (pod_match_parameters Examples.busy_policy
              Examples.busy_pod_scenario
              (JObj [("deployment", JObj [("name", JStr "web");
                                          ("namespace", JStr "default")])])
              (JObj [("name", JStr "web"); ("namespace", JStr "default")]))
    as (_ & Hdeployment & _).
  - vm_compute. reflexivity.
  - simpl. left. reflexivity.
  - simpl. right. left. reflexivity.
  - apply Hdeployment. reflexivity.
Defined.

(** X17.  In a policy that passes validation, the action of a pod
    scenario that kills may give a probability, a number, and say whether
    to force, a boolean, and nothing else; one that waits gives the
    seconds, a number, and nothing else. *)
Theorem pod_action_parameters (policy scenario action v : json) :
  returns (validate_file policy) = true ->
  In scenario (scenarios_of "podScenarios" policy) ->
  In action (clauses_of "actions" scenario) ->
  (parameters "kill" action = Some v ->
   record_of [("probability", "number"); ("force", "boolean")] [] v)
  /\ (parameters "wait" action = Some v ->
      record_of [("seconds", "number")] ["seconds"] v).
Proof.
  intros Hret Hs Hc. apply validate_file_returns in Hret.
  destruct (kinds_of_field get_schema def_podScenario "actions")
    as [table|] eqn:Htable; [|vm_compute in Htable; discriminate Htable].
  pose proof (fun kind =>
                valid_parameters policy "podScenarios" def_podScenario
                  "actions" table scenario action kind v Hret
                  (or_intror (conj eq_refl eq_refl)) Htable Hs Hc) as Hp.
  vm_compute in Htable. injection Htable as <-.
  repeat split; intros Hkind;
    destruct (Hp _ Hkind) as (sub & f & Hin & Hvalid);
    which_kind Hin;
    refine (valid_record get_schema f _ _ _ v _ Hvalid); by_schema.
Qed.

Lemma pod_action_parameters_witness :
  record_of [("probability", "number"); ("force", "boolean")] []
    (JObj [("probability", JNum (1 # 2)); ("force", JBool true)]).
Proof.
  destruct (pod_action_parameters Examples.busy_policy
              Examples.busy_pod_scenario
              (JObj [("kill", JObj [("probability", JNum (1 # 2));
                                    ("force", JBool true)])])
              (JObj [("probability", JNum (1 # 2)); ("force", JBool true)]))
    as (Hkill & _).
  - vm_compute. reflexivity.
  - simpl. left. reflexivity.
  - simpl. left. reflexivity.
  - apply Hkill. reflexivity.
Defined.

(** X18.  In a policy that passes validation, a filter of a scenario on
    a property gives its name and its value, both strings; a filter with
    a probability gives the probability to pass all, a number; a filter
    with a random sample may give a size and a ratio, both numbers; and
    none of them gives anything else. *)
Theorem filter_parameters (policy : json) (key : string)
    (scenario filter v : json) :
  returns (validate_file policy) = true ->
  key = "nodeScenarios" \/ key = "podScenarios" ->
  In scenario (scenarios_of key policy) ->
  In filter (clauses_of "filters" scenario) ->
  (parameters "property" filter = Some v ->
   record_of [("name", "string"); ("value", "string")] ["name"; "value"] v)
  /\ (parameters "probability" filter = Some v ->
      record_of [("probabilityPassAll", "number")] ["probabilityPassAll"] v)
  /\ (parameters "randomSample" filter = Some v ->
      record_of [("size", "number"); ("ratio", "number")] [] v).
Proof.
  intros Hret Hkey Hs Hc. apply validate_file_returns in Hret.
  destruct Hkey as [-> | ->].
  - destruct (kinds_of_field get_schema def_nodeScenario "filters")
      as [table|] eqn:Htable; [|vm_compute in Htable; discriminate Htable].
    pose proof (fun kind =>
                  valid_parameters policy "nodeScenarios" def_nodeScenario
                    "filters" table scenario filter kind v Hret
                    (or_introl (conj eq_refl eq_refl)) Htable Hs Hc) as Hp.
    vm_compute in Htable. injection Htable as <-.
    repeat split; intros Hkind;
      destruct (Hp _ Hkind) as (sub & f & Hin & Hvalid);
      which_kind Hin;
      refine (valid_record get_schema f _ _ _ v _ Hvalid); by_schema.
  - destruct (kinds_of_field get_schema def_podScenario "filters")
      as [table|] eqn:Htable; [|vm_compute in Htable; discriminate Htable].
    pose proof (fun kind =>
                  valid_parameters policy "podScenarios" def_podScenario
                    "filters" table scenario filter kind v Hret
                    (or_intror (conj eq_refl eq_refl)) Htable Hs Hc) as Hp.
    vm_compute in Htable. injection Htable as <-.
    repeat split; intros Hkind;
      destruct (Hp _ Hkind) as (sub & f & Hin & Hvalid);
      which_kind Hin;
      refine (valid_record get_schema f _ _ _ v _ Hvalid); by_schema.
Qed.

Lemma filter_parameters_witness :
  record_of [("probabilityPassAll", "number")] ["probabilityPassAll"]
    (JObj [("probabilityPassAll", JNum (1 # 2))]).
Proof.
  destruct (filter_parameters Examples.busy_policy "nodeScenarios"
              Examples.busy_node_scenario
              (JObj [("probability",
                      JObj [("probabilityPassAll", JNum (1 # 2))])])
              (JObj [("probabilityPassAll", JNum (1 # 2))]))
    as (_ & Hprobability & _).
  - vm_compute. reflexivity.
  - left. reflexivity.
  - simpl. left. reflexivity.
  - simpl. right. right. left. reflexivity.
  - apply Hprobability. reflexivity.
Defined.

(** X19.  In a policy that passes validation, the property that a node
    scenario matches or filters on is the name, the ip, the group, the az
    or the state of a node, and the property that a pod scenario filters
    on is the name or the state of a pod. *)
Theorem property_names (policy : json) (key field : string)
    (names : list string) (scenario clause v : json) (s : string) :
  returns (validate_file policy) = true ->
  (key = "nodeScenarios" /\ (field = "match" \/ field = "filters")
   /\ names = ["name"; "ip"; "group"; "az"; "state"])
  \/ (key = "podScenarios" /\ field = "filters" /\ names = ["name"; "state"]) ->
  In scenario (scenarios_of key policy) ->
  In clause (clauses_of field scenario) ->
  parameters "property" clause = Some v ->
  parameters "name" v = Some (JStr s) ->
  In s names.
Proof.
  intros Hret Hcase Hs Hc Hp Hname. apply validate_file_returns in Hret.
  assert (exists def,
             ((key = "nodeScenarios" /\ def = def_nodeScenario)
              \/ (key = "podScenarios" /\ def = def_podScenario))
             /\ exists table,
                  kinds_of_field get_schema def field = Some table
                  /\ forall sub, In ("property", sub) table ->
                       exists kw props nkw,
                         sub = JObj kw /\ get "$ref" kw = None
                         /\ schema_properties kw = Some props
                         /\ In ("name", JObj nkw) props
                         /\ get "$ref" nkw = None
                         /\ get "enum" nkw = Some (JArr (map JStr names)))
    as (def & Hdef & table & Htable & Hsub).
  { destruct Hcase as [(-> & [-> | ->] & ->) | (-> & -> & ->)].
    - exists def_nodeScenario. split; [now left|].
      eexists. split; [by_schema|]. intros sub Hin. which_kind Hin.
      do 3 eexists. split; [reflexivity|].
      split; [reflexivity|]. split; [reflexivity|].
      split; [left; reflexivity|]. split; reflexivity.
    - exists def_nodeScenario. split; [now left|].
      eexists. split; [by_schema|]. intros sub Hin. which_kind Hin.
      do 3 eexists. split; [reflexivity|].
      split; [reflexivity|]. split; [reflexivity|].
      split; [left; reflexivity|]. split; reflexivity.
    - exists def_podScenario. split; [now right|].
      eexists. split; [by_schema|]. intros sub Hin. which_kind Hin.
      do 3 eexists. split; [reflexivity|].
      split; [reflexivity|]. split; [reflexivity|].
      split; [left; reflexivity|]. split; reflexivity. }
  destruct (valid_parameters policy key def field table scenario clause
              "property" v Hret Hdef Htable Hs Hc Hp)
    as (sub & f & Hin & Hvalid).
  destruct (Hsub sub Hin)
    as (kw & props & nkw & -> & Hnoref & Hprops & Hn & Hnnoref & Henum).
  pose proof (valid_property_name f kw props nkw _ v s Hvalid Hnoref Hprops Hn
                Hnnoref Henum Hname) as Hvalue.
  apply in_map_iff in Hvalue as (s' & [= <-] & Hs'). exact Hs'.
Qed.

Lemma property_names_witness :
  In "group" ["name"; "ip"; "group"; "az"; "state"].
Proof.
  apply (property_names Examples.busy_policy "nodeScenarios" "match"
           ["name"; "ip"; "group"; "az"; "state"] Examples.busy_node_scenario
           (JObj [("property", JObj [("name", JStr "group");
                                     ("value", JStr "workers")])])
           (JObj [("name", JStr "group"); ("value", JStr "workers")]) "group").
  - vm_compute. reflexivity.
  - left. split; [reflexivity|]. split; [left|]; reflexivity.
  - simpl. left. reflexivity.
  - simpl. left. reflexivity.
  - reflexivity.
  - reflexivity.
Defined.

(** X20.  In a policy that passes validation, a filter on the time of
    day gives the days, a start time and an end time and nothing else; the
    days are names of days of the week in lower case; each of the two
    times gives an hour, a minute and a second, all numbers, and nothing
    else. *)
Theorem day_time_parameters (policy : json) (key : string)
    (scenario filter v : json) :
  returns (validate_file policy) = true ->
  key = "nodeScenarios" \/ key = "podScenarios" ->
  In scenario (scenarios_of key policy) ->
  In filter (clauses_of "filters" scenario) ->
  parameters "dayTime" filter = Some v ->
  record_of [("onlyDays", "array"); ("startTime", "object");
             ("endTime", "object")]
    ["onlyDays"; "startTime"; "endTime"] v
  /\ (forall days day,
         parameters "onlyDays" v = Some (JArr days) -> In day days ->
         exists s,
           day = JStr s
           /\ In s ["monday"; "tuesday"; "wednesday"; "thursday"; "friday";
                    "saturday"; "sunday"])
  /\ (forall k t,
         In k ["startTime"; "endTime"] -> parameters k v = Some t ->
         record_of [("hour", "number"); ("minute", "number");
                    ("second", "number")]
           ["hour"; "minute"; "second"] t).
Proof.
  intros Hret Hkey Hs Hc Hp. apply validate_file_returns in Hret.
  assert (exists (sub : json) (f : nat),
             In ("dayTime", sub)
               [("dayTime",
                 JObj [("type", JStr "object");
                       ("additionalProperties", JBool false);
                       ("properties",
                        JObj [("onlyDays",
                               JObj [("type", JStr "array");
                                     ("items",
                                      JObj [("type", JStr "string");
                                            ("enum",
                                             JArr [JStr "monday";
                                                   JStr "tuesday";
                                                   JStr "wednesday";
                                                   JStr "thursday";
                                                   JStr "friday";
                                                   JStr "saturday";
                                                   JStr "sunday"])])]);
                              ("startTime",
                               JObj [("type", JStr "object");
                                     ("$ref", JStr "#/definitions/time")]);
                              ("endTime",
                               JObj [("type", JStr "object");
                                     ("$ref", JStr "#/definitions/time")])]);
                       ("required",
                        JArr [JStr "onlyDays"; JStr "startTime";
                              JStr "endTime"])])]
             /\ is_valid get_schema f sub v = Some true)
    as (sub & f & Hin & Hvalid).
  { destruct Hkey as [-> | ->].
    - destruct (kinds_of_field get_schema def_nodeScenario "filters")
        as [table|] eqn:Htable; [|vm_compute in Htable; discriminate Htable].
      destruct (valid_parameters policy "nodeScenarios" def_nodeScenario
                  "filters" table scenario filter "dayTime" v Hret
                  (or_introl (conj eq_refl eq_refl)) Htable Hs Hc Hp)
        as (sub & f & Hin & Hvalid).
      vm_compute in Htable. injection Htable as <-.
      exists sub, f. split; [|exact Hvalid]. which_kind Hin. now left.
    - destruct (kinds_of_field get_schema def_podScenario "filters")
        as [table|] eqn:Htable; [|vm_compute in Htable; discriminate Htable].
      destruct (valid_parameters policy "podScenarios" def_podScenario
                  "filters" table scenario filter "dayTime" v Hret
                  (or_intror (conj eq_refl eq_refl)) Htable Hs Hc Hp)
        as (sub & f & Hin & Hvalid).
      vm_compute in Htable. injection Htable as <-.
      exists sub, f. split; [|exact Hvalid]. which_kind Hin. now left. }
  destruct Hin as [[= <-]|[]].
  split; [|split].
  - refine (valid_record get_schema f _ _ _ v _ Hvalid). by_schema.
  - intros days day Hdays Hday.
    destruct v as [| | | | |pf]; try discriminate Hdays. simpl in Hdays.
    destruct (valid_property_of get_schema f _ _ pf "onlyDays" _ (JArr days)
                Hvalid eq_refl eq_refl (or_introl eq_refl) Hdays) as [f1 Harr].
    destruct (valid_item_of get_schema f1 _ _ days day Harr eq_refl eq_refl
                Hday) as [f2 Hitem].
    destruct (valid_enum get_schema f2 _ _ day Hitem eq_refl eq_refl)
      as (s & -> & Hin).
    exists s. split; [reflexivity|].
    simpl in Hin. simpl.
    repeat (destruct Hin as [[= <-]|Hin]; [tauto|]). destruct Hin.
  - intros k t Hk Ht.
    destruct v as [| | | | |pf]; try discriminate Ht. simpl in Ht.
    assert (exists f1,
               is_valid get_schema f1
                 (JObj [("type", JStr "object");
                        ("$ref", JStr "#/definitions/time")]) t = Some true)
      as [f1 Href].
    { destruct Hk as [<-|[<-|[]]].
      - exact (valid_property_of get_schema f _ _ pf "startTime" _ t Hvalid
                 eq_refl eq_refl (or_intror (or_introl eq_refl)) Ht).
      - exact (valid_property_of get_schema f _ _ pf "endTime" _ t Hvalid
                 eq_refl eq_refl (or_intror (or_intror (or_introl eq_refl)))
                 Ht). }
    destruct (valid_ref_of get_schema f1 _ "#/definitions/time" def_time t Href
                eq_refl ltac:(by_schema)) as [f2 Htime].
    refine (valid_record get_schema f2 _ _ _ t _ Htime). by_schema.
Qed.

Lemma day_time_parameters_witness :
  record_of [("hour", "number"); ("minute", "number"); ("second", "number")]
    ["hour"; "minute"; "second"]
    (JObj [("hour", JNum 9); ("minute", JNum 0); ("second", JNum 0)]).
Proof.
  destruct (day_time_parameters Examples.busy_policy "nodeScenarios"
              Examples.busy_node_scenario
              (JObj [("dayTime",
                      JObj [("onlyDays", JArr [JStr "monday"; JStr "friday"]);
                            ("startTime", JObj [("hour", JNum 9);
                                                ("minute", JNum 0);
                                                ("second", JNum 0)]);
                            ("endTime", JObj [("hour", JNum 17);
                                              ("minute", JNum 30);
                                              ("second", JNum 0)])])])
              (JObj [("onlyDays", JArr [JStr "monday"; JStr "friday"]);
                     ("startTime", JObj [("hour", JNum 9);
                                         ("minute", JNum 0);
                                         ("second", JNum 0)]);
                     ("endTime", JObj [("hour", JNum 17);
                                       ("minute", JNum 30);
                                       ("second", JNum 0)])]))
    as (_ & _ & Htimes).
  - vm_compute. reflexivity.
  - left. reflexivity.
  - simpl. left. reflexivity.
  - simpl. left. reflexivity.
  - reflexivity.
  - apply (Htimes "startTime"); [left|]; reflexivity.
Defined.

(** X21.  A policy that passes validation need not have a [config]; when
    it has one, the [config] gives [minSecondsBetweenRuns], may give
    [maxSecondsBetweenRuns], both numbers, and gives nothing else. *)
Theorem policy_config (policy config : json) :
  returns (validate_file policy) = true ->
  parameters "config" policy = Some config ->
  record_of [("minSecondsBetweenRuns", "number");
             ("maxSecondsBetweenRuns", "number")]
    ["minSecondsBetweenRuns"] config.
Proof.
  intros Hret Hc. apply validate_file_returns in Hret.
  rewrite validate_unfold in Hret.
  destruct policy as [| | | | |fields]; try discriminate Hc. simpl in Hc.
  destruct fuel_levels as (f1 & _ & _ & _ & _ & Hf1 & _).
  assert (is_valid get_schema f1
            (JObj [("type", JStr "object");
                   ("$ref", JStr "#/definitions/config")]) config = Some true)
    as Href.
  { eapply (valid_property get_schema depth f1 get_schema _ _ Hf1 eq_refl Hret);
      [by_schema | by_schema | left; reflexivity | reflexivity | exact Hc]. }
  destruct (valid_ref_of get_schema f1 _ "#/definitions/config" def_config
              config Href eq_refl ltac:(by_schema)) as [f2 Hconfig].
  refine (valid_record get_schema f2 _ _ _ config _ Hconfig). by_schema.
Qed.

Lemma policy_config_witness :
  record_of [("minSecondsBetweenRuns", "number");
             ("maxSecondsBetweenRuns", "number")]
    ["minSecondsBetweenRuns"]
    (JObj [("minSecondsBetweenRuns", JNum 1);
           ("maxSecondsBetweenRuns", JNum 30)]).
Proof.
  apply (policy_config Examples.busy_policy).
  - vm_compute. reflexivity.
  - reflexivity.
Defined.

(** ** The scheduling loop: effects and bounds *)

Section SleepsOfALoop.

Variable env : outside.
Variables wait_min wait_max : json.
Variables a b : Q.
Variable ns : list NodeScenario.
Variable ps : list PodScenario.

Hypothesis Hmin : as_number wait_min = Returns a.
Hypothesis Hmax : as_number wait_max = Returns b.

(** However a loop goes and wherever it stops, each of its sleeps is that
    of the whole seconds of a draw, and a duration that [time.sleep]
    accepts. *)
Lemma run_loop_sleeps (s : Z) (fuel : nat) :
  forall (loops : option Z) (st : state),
    In (TimeSleep s)
      (trace (state_of (run_loop env fuel wait_min wait_max ns ps loops st))) ->
    In (TimeSleep s) (trace st)
    \/ exists (k : nat) (x : Q),
         uniform env a b k = Returns (Finite x)
         /\ s = int x /\ (0 <= s <= time_t_max)%Z.
Proof.
  induction fuel as [|fuel IH]; intros loops st Hs.
  - left. simpl in Hs. now destruct (keep_going loops).
  - destruct (keep_going loops) eqn:Hk.
    2:{ left. simpl in Hs. now rewrite Hk in Hs. }
    rewrite (run_loop_unfold env wait_min wait_max ns ps fuel loops st Hk) in Hs.
    destruct (round env wait_min wait_max ns ps st) as [r st'] eqn:Hr.
    destruct (round_inv env wait_min wait_max a b ns ps Hmin Hmax st r st' Hr)
      as (done & _ & Htrace & Hsleep & _).
    assert (In (TimeSleep s) (trace st') ->
            In (TimeSleep s) (trace st)
            \/ exists (k : nat) (x : Q),
                 uniform env a b k = Returns (Finite x)
                 /\ s = int x /\ (0 <= s <= time_t_max)%Z) as Hround.
    { rewrite Htrace, in_app_iff. intros [H|H]; [now left | right].
      destruct (Hsleep s H) as [Hd Hrange].
      destruct (sleep_time_inv env a b _ _ Hd) as [_ (x & Hx & ->)]. eauto. }
    destruct r as [[]|e]; [|exact (Hround Hs)].
    destruct (IH _ _ Hs) as [H|H]; [exact (Hround H) | now right].
Qed.

End SleepsOfALoop.

Section SetupReturns.

Lemma mapM_returns_inv {A B : Type} (f : A -> outcome B) (l : list A) :
  forall ys : list B,
    mapM f l = Returns ys -> Forall2 (fun x y => f x = Returns y) l ys.
Proof.
  induction l as [|x l IH]; intros ys H; simpl in H.
  - injection H as <-. constructor.
  - unfold mbind, outcome_bind in H.
    destruct (f x) as [y|e] eqn:Hy; simpl in H; [|discriminate H].
    destruct (mapM f l) as [ys'|e] eqn:Hys; simpl in H; [|discriminate H].
    injection H as <-. constructor; [exact Hy | now apply IH].
Qed.

Lemma run_returns_setup (env : outside) (policy : json) (loops : option Z)
    (fuel : nat) (st st' : state) (ns : list NodeScenario)
    (ps : list PodScenario) :
  run env policy loops fuel st = Done (Returns (ns, ps)) st' ->
  node_scenarios_of policy = Returns ns /\ pod_scenarios_of policy = Returns ps.
Proof.
  unfold run. intros H.
  destruct (wait_bounds policy) as [[wait_min wait_max]|e]; simpl in H;
    [|discriminate H].
  destruct (node_scenarios_of policy) as [ns'|e]; simpl in H; [|discriminate H].
  destruct (pod_scenarios_of policy) as [ps'|e]; simpl in H; [|discriminate H].
  destruct (run_loop env fuel wait_min wait_max ns' ps' loops st)
    as [[[]|e] st1|l st1]; try discriminate H.
  injection H as <- <- <-. split; reflexivity.
Qed.

Lemma int_inject_Z (n : Z) : int (inject_Z n) = n.
Proof. unfold int. simpl. apply Z.quot_1_r. Qed.

(** Truncation does not go beyond a whole number below zero. *)
Lemma int_at_most_negative (x : Q) (n : Z) :
  (x <= inject_Z n)%Q -> (n <= 0)%Z -> (int x <= n)%Z.
Proof.
  intros Hx Hn.
  assert (inject_Z n <= 0)%Q as Hn'.
  { change 0%Q with (inject_Z 0). now rewrite <- Zle_Qle. }
  assert (int (- inject_Z n) <= int (- x))%Z as H
    by (apply int_monotone; lra).
  rewrite !int_opp, int_inject_Z in H. lia.
Qed.

End SetupReturns.

(** The items that the setup of [run] goes through are the scenarios of
    the policy, whenever it gets through them. *)
Lemma scenario_items (key : string) (policy : json) (items : list json)
    {E : Type} (build : json -> outcome E) (engines : list E) :
  py_get policy key (JArr []) ≫= py_iter = Returns items ->
  mapM build items = Returns engines ->
  (forall item e, build item = Returns e -> exists fields, item = JObj fields) ->
  items = scenarios_of key policy.
Proof.
  intros Hitems Hmap Hbuild.
  destruct policy as [| | | | |fields]; try discriminate Hitems.
  simpl in Hitems. unfold scenarios_of.
  destruct (get key fields) as [v|]; simpl in Hitems;
    [|now injection Hitems as <-].
  apply mapM_returns_inv in Hmap.
  destruct v as [| | |s|l|fs]; simpl in Hitems; try discriminate Hitems;
    injection Hitems as <-.
  - destruct s as [|c s]; [reflexivity|]. simpl in Hmap.
    inversion Hmap as [|? ? ? ? Hb _]; subst.
    destruct (Hbuild _ _ Hb) as [fields' Hf]. discriminate Hf.
  - reflexivity.
  - destruct fs as [|[k v] fs]; [reflexivity|]. simpl in Hmap.
    inversion Hmap as [|? ? ? ? Hb _]; subst.
    destruct (Hbuild _ _ Hb) as [fields' Hf]. discriminate Hf.
Qed.

(** X22.  The effects of a run of N rounds are those of N rounds in a
    row and no other, when no call raises (bounds that are not negative
    and can be slept, draws between the bounds, an outside that obliges):
    in every round the same engines in the same order, then one sleep, of
    the whole seconds of the one draw of the round, then one refresh of
    the inventory; the last round sleeps and refreshes like the others
    before [run] returns. *)
Theorem run_effects
    (env : outside) (policy : json) (a b : Q) (longest N : Z) (st : state) :
  validate_file policy = Returns policy ->
  wait_bounds policy = Returns (JNum a, JNum b) ->
  (0 <= a)%Q -> (0 <= b)%Q ->
  (a <= inject_Z longest)%Q -> (b <= inject_Z longest)%Q ->
  (longest <= time_t_max)%Z ->
  obliging env longest ->
  draws_between env a b ->
  (0 <= N)%Z ->
  exists ns ps,
    node_scenarios_of policy = Returns ns
    /\ pod_scenarios_of policy = Returns ps
    /\ (forall k : nat,
           exists x : Q,
             uniform env a b k = Returns (Finite x)
             /\ seconds env a b k = int x)
    /\ forall fuel : nat,
         (Z.to_nat N <= fuel)%nat ->
         run env policy (Some N) fuel st
         = Done (Returns (ns, ps))
             {| trace := trace st
                         ++ rounds_events (seconds env a b) ns ps (draws st)
                              (Z.to_nat N);
                draws := draws st + Z.to_nat N |}.
Proof.
  intros Hfile Hbounds Ha Hb Hal Hbl Hl Hob Hdraws HN.
  assert (validate policy = Some true) as Hvalid.
  { apply validate_file_returns. now rewrite Hfile. }
  destruct (valid_node_scenarios_of policy Hvalid) as (ns & Hns & _).
  destruct (valid_pod_scenarios_of policy Hvalid) as (ps & Hps & _).
  exists ns, ps. split; [exact Hns|]. split; [exact Hps|]. split.
  - intros k. destruct (Hdraws k) as (x & Hx & _). exists x.
    split; [exact Hx|]. now destruct (sleep_time_returns env a b k x Hx).
  - intros fuel Hfuel.
    pose proof (rounds_return env (JNum a) (JNum b) a b ns ps eq_refl eq_refl
                  longest Hob Hl
                  (draws_slept env a b longest Ha Hb Hal Hbl Hdraws))
      as Hround.
    rewrite (run_with_setup env policy _ _ ns ps _ _ _ Hbounds Hns Hps).
    assert (exists n : nat, N = Z.of_nat n) as [n ->]
      by (exists (Z.to_nat N); lia).
    rewrite Nat2Z.id in *.
    now rewrite (run_loop_bounded env (JNum a) (JNum b) a b ns ps Hround n fuel
                   st Hfuel).
Qed.

Lemma run_effects_witness :
  run Examples.calm Examples.paced_policy (Some 2%Z) 2 (State [] 0)
  = Done (Returns ([Examples.drain], []))
      (State [NodeScenarioExecute Examples.drain; TimeSleep 1; InventorySync;
              NodeScenarioExecute Examples.drain; TimeSleep 1; InventorySync]
             2).
Proof.
  destruct (run_effects Examples.calm Examples.paced_policy 1 1 1 2
              (State [] 0))
    as (ns & ps & Hns & Hps & _ & Hrun).
  - vm_compute. reflexivity.
  - reflexivity.
  - unfold Qle. simpl. lia.
  - unfold Qle. simpl. lia.
  - unfold Qle. simpl. lia.
  - unfold Qle. simpl. lia.
  - vm_compute. discriminate.
  - repeat split.
  - intros k. exists 1%Q. split; [reflexivity|].
    left. unfold Qle. simpl. lia.
  - lia.
  - vm_compute in Hns. injection Hns as <-.
    vm_compute in Hps. injection Hps as <-.
    apply (Hrun 2%nat). simpl. lia.
Defined.

(** X23.  With bounds that are not negative and in order, and draws of
    [random.uniform] that lie between them, every sleep of a run is a
    whole number of seconds between the whole seconds of
    [minSecondsBetweenRuns] and [maxSecondsBetweenRuns], however many
    rounds have been done, whether the count of loops is bounded or not,
    and whatever the calls to the outside do. *)
Theorem run_sleeps_within_bounds
    (env : outside) (policy : json) (a b : Q)
    (loops : option Z) (fuel : nat) (st : state) (s : Z) :
  validate_file policy = Returns policy ->
  wait_bounds policy = Returns (JNum a, JNum b) ->
  (0 <= a)%Q -> (a <= b)%Q ->
  (forall (k : nat) (x : Q),
      uniform env a b k = Returns (Finite x) -> (a <= x)%Q /\ (x <= b)%Q) ->
  In (TimeSleep s) (trace (state_of (run env policy loops fuel st))) ->
  In (TimeSleep s) (trace st)
  \/ ((int a <= s)%Z /\ (inject_Z s <= b)%Q).
Proof.
  intros Hfile Hbounds Ha Hab Hdraws Hin.
  assert (validate policy = Some true) as Hvalid.
  { apply validate_file_returns. now rewrite Hfile. }
  destruct (valid_node_scenarios_of policy Hvalid) as (ns & Hns & _).
  destruct (valid_pod_scenarios_of policy Hvalid) as (ps & Hps & _).
  rewrite (run_with_setup env policy _ _ ns ps _ _ _ Hbounds Hns Hps) in Hin.
  assert (In (TimeSleep s)
            (trace (state_of (run_loop env fuel (JNum a) (JNum b) ns ps loops
                                st)))) as Hloop.
  { now destruct (run_loop env fuel (JNum a) (JNum b) ns ps loops st)
      as [[[]|e] st1|l st1]. }
  destruct (run_loop_sleeps env (JNum a) (JNum b) a b ns ps eq_refl eq_refl s
              fuel loops st Hloop) as [H|(k & x & Hx & -> & _)];
    [now left | right].
  destruct (Hdraws k x Hx) as [Hlo Hhi]. split.
  - now apply int_monotone.
  - destruct (int_truncates_nonneg x) as [H _]; lra.
Qed.

Lemma run_sleeps_within_bounds_witness :
  In (TimeSleep 1) []
  \/ ((int 1 <= 1)%Z /\ (inject_Z 1 <= 1)%Q).
Proof.
  apply (run_sleeps_within_bounds Examples.calm Examples.paced_policy 1 1
           None 2 (State [] 0) 1).
  - vm_compute. reflexivity.
  - reflexivity.
  - unfold Qle. simpl. lia.
  - unfold Qle. simpl. lia.
  - intros k x [= <-]. split; vm_compute; discriminate.
  - vm_compute. tauto.
Defined.

(** X24.  With a count of loops that is zero or negative [run] does no
    round: it builds the engines and returns them at once, with no
    scenario executed, no sleep and no refresh of the inventory, whatever
    the bounds of the policy and whatever the outside. *)
Theorem run_without_rounds
    (env : outside) (policy : json) (N : Z) (fuel : nat) (st : state) :
  validate_file policy = Returns policy ->
  (N <= 0)%Z ->
  exists ns ps,
    node_scenarios_of policy = Returns ns
    /\ pod_scenarios_of policy = Returns ps
    /\ run env policy (Some N) fuel st = Done (Returns (ns, ps)) st.
Proof.
  intros Hfile HN.
  assert (validate policy = Some true) as Hvalid.
  { apply validate_file_returns. now rewrite Hfile. }
  destruct (valid_wait_bounds policy Hvalid) as (a & b & Hbounds).
  destruct (valid_node_scenarios_of policy Hvalid) as (ns & Hns & _).
  destruct (valid_pod_scenarios_of policy Hvalid) as (ps & Hps & _).
  exists ns, ps. split; [exact Hns|]. split; [exact Hps|].
  rewrite (run_with_setup env policy _ _ ns ps _ _ _ Hbounds Hns Hps).
  assert ((0 <? N)%Z = false) as Hk by (apply Z.ltb_ge; exact HN).
  destruct fuel; simpl; now rewrite Hk.
Qed.

Lemma run_without_rounds_witness :
  exists ns ps,
    node_scenarios_of Examples.hasty_policy = Returns ns
    /\ pod_scenarios_of Examples.hasty_policy = Returns ps
    /\ run Examples.calm Examples.hasty_policy (Some 0%Z) 5 (State [] 0)
       = Done (Returns (ns, ps)) (State [] 0).
Proof.
  apply (run_without_rounds Examples.calm Examples.hasty_policy 0 5 (State [] 0)).
  - vm_compute. reflexivity.
  - lia.
Defined.

(** X25.  The engines that [run] returns are those of the scenarios of
    the policy, one per scenario and in the order of the policy; each
    carries its scenario as its schema and the name of the scenario as its
    name. *)
Theorem run_returns_engines
    (env : outside) (policy : json) (loops : option Z) (fuel : nat)
    (st st' : state) (ns : list NodeScenario) (ps : list PodScenario) :
  run env policy loops fuel st = Done (Returns (ns, ps)) st' ->
  Forall2 (fun item e =>
             node_scenario_schema e = item
             /\ py_get item "name" JNull = Returns (node_scenario_name e))
    (scenarios_of "nodeScenarios" policy) ns
  /\ Forall2 (fun item e =>
                pod_scenario_schema e = item
                /\ py_get item "name" JNull = Returns (pod_scenario_name e))
       (scenarios_of "podScenarios" policy) ps.
Proof.
  intros Hrun.
  destruct (run_returns_setup env policy loops fuel st st' ns ps Hrun)
    as [Hns Hps].
  split.
  - unfold node_scenarios_of in Hns.
    destruct (py_get policy "nodeScenarios" (JArr []) ≫= py_iter)
      as [items|e] eqn:Hitems; [|discriminate Hns].
    simpl in Hns.
    rewrite <- (scenario_items "nodeScenarios" policy items _ ns Hitems Hns)
      by (intros [] e H; try discriminate H; eauto).
    apply mapM_returns_inv in Hns.
    eapply Forall2_impl; [exact Hns|].
    intros item e H. simpl in H.
    destruct (py_get item "name" JNull) as [n|x]; [|discriminate H].
    injection H as <-. split; reflexivity.
  - unfold pod_scenarios_of in Hps.
    destruct (py_get policy "podScenarios" (JArr []) ≫= py_iter)
      as [items|e] eqn:Hitems; [|discriminate Hps].
    simpl in Hps.
    rewrite <- (scenario_items "podScenarios" policy items _ ps Hitems Hps)
      by (intros [] e H; try discriminate H; eauto).
    apply mapM_returns_inv in Hps.
    eapply Forall2_impl; [exact Hps|].
    intros item e H. simpl in H.
    destruct (py_get item "name" JNull) as [n|x]; [|discriminate H].
    injection H as <-. split; reflexivity.
Qed.

Lemma run_returns_engines_witness :
  Forall2 (fun item e =>
             node_scenario_schema e = item
             /\ py_get item "name" JNull = Returns (node_scenario_name e))
    (scenarios_of "nodeScenarios" Examples.paced_policy) [Examples.drain].
Proof.
  apply (proj1 (run_returns_engines Examples.calm Examples.paced_policy
                  (Some 1%Z) 1 (State [] 0)
                  (State [NodeScenarioExecute Examples.drain; TimeSleep 1;
                          InventorySync] 1)
                  [Examples.drain] [] eq_refl)).
Defined.

(** X26.  When both bounds are at most minus one second and the draw of
    the first round is between them, that round executes every scenario
    (the engines return) and then fails at the sleep: [run] raises the
    error of [time.sleep], with no refresh of the inventory and no second
    round, whether the count of loops is bounded or not.  The error is
    ValueError when both bounds are at least minus 9223372036 seconds and
    OverflowError when both are at most minus 9223372037 seconds. *)
Theorem run_negative_bounds_raise
    (env : outside) (policy : json) (a b x : Q) (longest : Z)
    (loops : option Z) (fuel : nat) (st : state) :
  validate_file policy = Returns policy ->
  wait_bounds policy = Returns (JNum a, JNum b) ->
  (a <= -1)%Q -> (b <= -1)%Q ->
  obliging env longest ->
  uniform env a b (draws st) = Returns (Finite x) -> between a b x ->
  keep_going loops = true ->
  exists ns ps,
    node_scenarios_of policy = Returns ns
    /\ pod_scenarios_of policy = Returns ps
    /\ ((inject_Z (- time_t_max) <= a)%Q -> (inject_Z (- time_t_max) <= b)%Q ->
        run env policy loops (S fuel) st
        = Done (Raises (ValueError "sleep length must be non-negative"))
            {| trace := trace st ++ map NodeScenarioExecute ns
                        ++ map PodScenarioExecute ps;
               draws := S (draws st) |})
    /\ ((a <= inject_Z (- time_t_max - 1))%Q ->
        (b <= inject_Z (- time_t_max - 1))%Q ->
        run env policy loops (S fuel) st
        = Done (Raises (OverflowError
                          "timestamp too large to convert to C _PyTime_t"))
            {| trace := trace st ++ map NodeScenarioExecute ns
                        ++ map PodScenarioExecute ps;
               draws := S (draws st) |}).
Proof.
  intros Hfile Hbounds Ha Hb Hob Hx Hbetween Hk.
  assert (validate policy = Some true) as Hvalid.
  { apply validate_file_returns. now rewrite Hfile. }
  destruct (valid_node_scenarios_of policy Hvalid) as (ns & Hns & _).
  destruct (valid_pod_scenarios_of policy Hvalid) as (ps & Hps & _).
  exists ns, ps. split; [exact Hns|]. split; [exact Hps|].
  rewrite (run_with_setup env policy _ _ ns ps _ _ _ Hbounds Hns Hps).
  rewrite (run_loop_unfold env (JNum a) (JNum b) ns ps fuel loops st Hk).
  assert (x <= -1)%Q as Hneg by (now apply (between_at_most a b)).
  split.
  - intros Hal Hbl.
    rewrite (round_refused env (JNum a) (JNum b) a b ns ps eq_refl eq_refl
               longest x st
               (ValueError "sleep length must be non-negative") Hob Hx);
      [reflexivity|].
    intros st'. apply time_sleep_negative. split.
    + apply int_at_least; [lra|]. now apply (between_at_least a b).
    + now apply int_negative.
  - intros Hal Hbl.
    rewrite (round_refused env (JNum a) (JNum b) a b ns ps eq_refl eq_refl
               longest x st
               (OverflowError "timestamp too large to convert to C _PyTime_t")
               Hob Hx);
      [reflexivity|].
    intros st'. apply time_sleep_overflow. left.
    assert (int x <= - time_t_max - 1)%Z; [|lia].
    apply int_at_most_negative; [|vm_compute; discriminate].
    now apply (between_at_most a b).
Qed.

Lemma run_negative_bounds_raise_witness :
  exists ns ps,
    node_scenarios_of Examples.hasty_policy = Returns ns
    /\ pod_scenarios_of Examples.hasty_policy = Returns ps
    /\ run Examples.calm Examples.hasty_policy None 3 (State [] 0)
       = Done (Raises (ValueError "sleep length must be non-negative"))
           {| trace := [] ++ map NodeScenarioExecute ns
                       ++ map PodScenarioExecute ps;
              draws := 1 |}.
Proof.
  destruct (run_negative_bounds_raise Examples.calm Examples.hasty_policy
              (-5) (-3) (-4) 0 None 2 (State [] 0))
    as (ns & ps & Hns & Hps & Hvalue & _).
  - vm_compute. reflexivity.
  - reflexivity.
  - unfold Qle. simpl. lia.
  - unfold Qle. simpl. lia.
  - repeat split.
  - reflexivity.
  - left. split; unfold Qle; simpl; lia.
  - reflexivity.
  - exists ns, ps. split; [exact Hns|]. split; [exact Hps|].
    apply Hvalue; vm_compute; discriminate.
Defined.

(** X27.  The bound [maxSecondsBetweenRuns] of a policy that does not give
    it is 300 seconds, also when [minSecondsBetweenRuns] is greater: the
    draw is then asked between the minimum and 300, and a round in which
    no call raises (a draw between the two, a minimum that can be slept,
    an outside that obliges) sleeps at least 300 seconds and at most the
    minimum. *)
Theorem round_with_default_max
    (env : outside) (fields cf : list (string * json)) (a x : Q) (longest : Z)
    (ns : list NodeScenario) (ps : list PodScenario) (st : state) :
  get "config" fields = Some (JObj cf) ->
  get "minSecondsBetweenRuns" cf = Some (JNum a) ->
  get "maxSecondsBetweenRuns" cf = None ->
  (300 <= a)%Q ->
  (a <= inject_Z longest)%Q -> (longest <= time_t_max)%Z ->
  obliging env longest ->
  uniform env a 300 (draws st) = Returns (Finite x) -> between a 300 x ->
  wait_bounds (JObj fields) = Returns (JNum a, JNum 300)
  /\ exists s : Z,
       round env (JNum a) (JNum 300) ns ps st
       = (Returns tt,
          {| trace := trace st ++ map NodeScenarioExecute ns
                      ++ map PodScenarioExecute ps
                      ++ [TimeSleep s; InventorySync];
             draws := S (draws st) |})
       /\ (300 <= s)%Z /\ (inject_Z s <= a)%Q.
Proof.
  intros Hc Hmin Hmax Ha Hal Hl Hob Hx Hbetween. split.
  - unfold wait_bounds. simpl. rewrite Hc. simpl. now rewrite Hmin, Hmax.
  - exists (int x).
    assert (300 <= x)%Q as Hlo
      by (apply (between_at_least a 300); [exact Ha | lra | exact Hbetween]).
    assert (x <= a)%Q as Hhi
      by (apply (between_at_most a 300); [lra | exact Ha | exact Hbetween]).
    assert (300 <= int x)%Z as Hs.
    { change 300%Z with (int 300).
      apply int_monotone; [unfold Qle; simpl; lia | exact Hlo]. }
    split; [|split; [exact Hs|]].
    + apply (round_returns env (JNum a) (JNum 300) a 300 ns ps eq_refl eq_refl
               longest x st Hob Hl Hx).
      split; [lia|]. apply int_at_most; lra.
    + destruct (int_truncates_nonneg x) as [H _]; lra.
Qed.

Lemma round_with_default_max_witness :
  wait_bounds
    (JObj [("config", JObj [("minSecondsBetweenRuns", JNum 600)])])
  = Returns (JNum 600, JNum 300)
  /\ exists s : Z,
       round Examples.calm (JNum 600) (JNum 300) [Examples.drain] []
         (State [] 0)
       = (Returns tt,
          {| trace := [] ++ map NodeScenarioExecute [Examples.drain]
                      ++ map PodScenarioExecute []
                      ++ [TimeSleep s; InventorySync];
             draws := 1 |})
       /\ (300 <= s)%Z /\ (inject_Z s <= 600)%Q.
Proof.
  apply (round_with_default_max Examples.calm
           [("config", JObj [("minSecondsBetweenRuns", JNum 600)])]
           [("minSecondsBetweenRuns", JNum 600)] 600 450 600 [Examples.drain] []
           (State [] 0)); try reflexivity.
  - unfold Qle. simpl. lia.
  - unfold Qle. simpl. lia.
  - vm_compute. discriminate.
  - repeat split.
  - right. split; unfold Qle; simpl; lia.
Defined.
